(** * NASA CMR agent: a shallow embedding of the pipeline core

    The development follows the Python sources module by module:
    - [Str]         the [str] methods the agents use
    - [Circuit]     cmr_agent/cmr/circuit.py
    - [Client]      cmr_agent/cmr/client.py
    - [Utils]       cmr_agent/utils.py
    - [Validation]  cmr_agent/agents/validation_agent.py
    - [Planning]    cmr_agent/agents/planning_agent.py
    - [Cmr]         the records of the CMR search API
    - [Agent]       cmr_agent/agents/cmr_agent.py
    - [Pipeline]    cmr_agent/graph/pipeline.py, validation to search
    - [Analysis]    cmr_agent/agents/analysis_agent.py
    The definitions come first; the theorems follow, one module of
    properties per module of definitions.

    Conventions.  Python [int] is [Z]; texts are ASCII strings; a Python
    float is a binary64 [float], the readings of [time.time()] and the
    sums and comparisons made on them included; an int met by a float
    in a sum or a product is converted as Python converts it, ints
    beyond the range of floats (where Python raises [OverflowError])
    being left out.  A dict used as a map is a [gmap], a set a [gset];
    a dict read in insertion order is an association list.  Awaited
    calls of one [asyncio.gather] are made in the order they are listed.
    What the code takes from outside the repository (the network, the
    language model, [datetime] parsing and printing, [round], [float],
    matplotlib) is a parameter of the definitions that use it. *)

From Stdlib Require Import ZArith Lia List String Ascii Bool Floats Uint63.
From stdpp Require Import gmap strings list sorting.
Import ListNotations.

Local Open Scope Z_scope.

(* Decimal float literals are read as Python reads them: the nearest binary64. *)
Set Warnings "-inexact-float".

(** ** Python strings

    Texts are ASCII strings; each function is the [str] method of the
    same name restricted to ASCII characters. *)

Module Str.

Definition code (c : ascii) : N := N_of_ascii c.

Definition in_range (lo hi : N) (c : ascii) : bool :=
  ((lo <=? code c) && (code c <=? hi))%N.

(** [c.isdigit()] for one character: "0" .. "9". *)
Definition is_digit (c : ascii) : bool := in_range 48 57 c.

Definition is_upper (c : ascii) : bool := in_range 65 90 c.
Definition is_lower (c : ascii) : bool := in_range 97 122 c.

(** [\w] of [re]: letters, digits and the underscore. *)
Definition is_word (c : ascii) : bool :=
  is_digit c || is_upper c || is_lower c || (code c =? 95)%N.

(** [c.isspace()]: tab, newline, vertical tab, form feed, carriage
    return, the separators 0x1c .. 0x1f, and the space. *)
Definition is_space (c : ascii) : bool :=
  in_range 9 13 c || in_range 28 31 c || (code c =? 32)%N.

Definition lower_char (c : ascii) : ascii :=
  if is_upper c then ascii_of_N (code c + 32) else c.

(** [s.lower()] *)
Fixpoint lower (s : string) : string :=
  match s with
  | EmptyString => EmptyString
  | String c s' => String (lower_char c) (lower s')
  end.

(** [s.lstrip()] *)
Fixpoint lstrip (s : string) : string :=
  match s with
  | EmptyString => EmptyString
  | String c s' => if is_space c then lstrip s' else s
  end.

(** [s.rstrip()] *)
Fixpoint rstrip (s : string) : string :=
  match s with
  | EmptyString => EmptyString
  | String c s' =>
      match rstrip s' with
      | EmptyString => if is_space c then EmptyString else String c EmptyString
      | r => String c r
      end
  end.

(** [s.strip()] *)
Definition strip (s : string) : string := rstrip (lstrip s).

(** [bool(s)]: a string is true unless it is empty. *)
Definition nonempty (s : string) : bool :=
  match s with EmptyString => false | String _ _ => true end.

(** [s.startswith(p)] *)
Fixpoint startswith (p s : string) : bool :=
  match p, s with
  | EmptyString, _ => true
  | String a p', String b s' => Ascii.eqb a b && startswith p' s'
  | String _ _, EmptyString => false
  end.

(** [needle in hay] *)
Fixpoint contains (needle hay : string) : bool :=
  startswith needle hay
  || match hay with
     | EmptyString => false
     | String _ hay' => contains needle hay'
     end.

(** [s.replace(old, new)] for a one-character [old]. *)
Fixpoint replace (old : ascii) (new : string) (s : string) : string :=
  match s with
  | EmptyString => EmptyString
  | String c s' =>
      if Ascii.eqb c old then new +:+ replace old new s'
      else String c (replace old new s')
  end.

(** [s.isdigit()]: at least one character, all of them digits. *)
Fixpoint all_digits (s : string) : bool :=
  match s with
  | EmptyString => true
  | String c s' => is_digit c && all_digits s'
  end.

Definition isdigit (s : string) : bool := nonempty s && all_digits s.

(** [s.split()]: the maximal runs of non-space characters.  [cur] is
    the run being read, [None] between runs. *)
Fixpoint split_from (cur : option string) (s : string) : list string :=
  match s with
  | EmptyString => match cur with Some w => [w] | None => [] end
  | String c s' =>
      if is_space c
      then match cur with
           | Some w => w :: split_from None s'
           | None => split_from None s'
           end
      else split_from (Some (match cur with
                             | Some w => w +:+ String c EmptyString
                             | None => String c EmptyString
                             end)) s'
  end.

Definition split (s : string) : list string := split_from None s.

(** Value of a decimal digit, and [int(s)] for a string of digits. *)
Definition digit_value (c : ascii) : Z := Z.of_N (code c) - 48.

Definition int (s : string) : Z :=
  fold_left (fun acc c => 10 * acc + digit_value c) (list_ascii_of_string s) 0.

(** The decimal digit [d mod 10] as a character. *)
Definition digit_char (d : Z) : ascii := ascii_of_N (Z.to_N (d mod 10) + 48).

(** [%Y] of [strftime] for a year of four digits. *)
Definition year4 (y : Z) : string :=
  String (digit_char (y / 1000))
    (String (digit_char (y / 100))
       (String (digit_char (y / 10))
          (String (digit_char y) EmptyString))).

End Str.

(** ** cmr_agent/cmr/circuit.py *)

Module Circuit.

(** [float(n)] for a Python int, as [float + int] converts its int
    operand: the nearest binary64, ties to even.  Where this is an
    infinity (from 2^1024 on) Python raises [OverflowError] instead;
    the settings of a breaker are taken below that. *)
Definition float_of_int (n : Z) : float :=
  SF2Prim (binary_normalize prec emax n 0 false).

(** [class CircuitBreaker]: the four attributes set by [__init__].
    [open_until] is a float: [0.0], or a sum of floats. *)
Record CircuitBreaker : Type := mkCircuitBreaker {
  failure_threshold : Z;
  recovery_time_seconds : Z;
  failures : Z;
  open_until : float
}.

(** [CircuitBreaker(failure_threshold, recovery_time_seconds)]:
    [failures = 0], [open_until = 0.0]. *)
Definition init (threshold recovery : Z) : CircuitBreaker :=
  {| failure_threshold := threshold;
     recovery_time_seconds := recovery;
     failures := 0;
     open_until := 0%float |}.

(** The defaults of [__init__]. *)
Definition default : CircuitBreaker := init 5 30.

(** Truth value of a Python float: everything but the two zeros (a
    NaN is true). *)
Definition truthy (x : float) : bool := negb (x =? 0)%float.

(** [allow]: [now] is the value read from [time.time()].
<<
    if self.open_until and time.time() < self.open_until:
        return False
    return True
>> *)
Definition allow (cb : CircuitBreaker) (now : float) : bool :=
  if truthy (open_until cb) && (now <? open_until cb)%float then false else true.

(** [record_success]. *)
Definition record_success (cb : CircuitBreaker) : CircuitBreaker :=
  {| failure_threshold := failure_threshold cb;
     recovery_time_seconds := recovery_time_seconds cb;
     failures := 0;
     open_until := 0%float |}.

(** [record_failure]; [now] is the value read from [time.time()] when
    the threshold test succeeds, and the sum is the binary64 sum
    [time.time() + self.recovery_time_seconds]. *)
Definition record_failure (cb : CircuitBreaker) (now : float) : CircuitBreaker :=
  let n := failures cb + 1 in
  {| failure_threshold := failure_threshold cb;
     recovery_time_seconds := recovery_time_seconds cb;
     failures := n;
     open_until :=
       if failure_threshold cb <=? n
       then (now + float_of_int (recovery_time_seconds cb))%float
       else open_until cb |}.

(** Calls a client can make on a breaker, each with the clock value it
    observes. *)
Inductive call : Type :=
| CallAllow (now : float)
| CallRecordSuccess
| CallRecordFailure (now : float).

Definition is_allow (c : call) : bool :=
  match c with CallAllow _ => true | _ => false end.

(** One call: the breaker afterwards and the value returned
    ([allow] returns a bool and assigns nothing). *)
Definition perform (cb : CircuitBreaker) (c : call)
  : CircuitBreaker * option bool :=
  match c with
  | CallAllow now => (cb, Some (allow cb now))
  | CallRecordSuccess => (record_success cb, None)
  | CallRecordFailure now => (record_failure cb now, None)
  end.

Definition perform_all (cb : CircuitBreaker) (cs : list call) : CircuitBreaker :=
  fold_left (fun b c => fst (perform b c)) cs cb.

(** [n] failures in a row, at the given clock values. *)
Definition fail_all (cb : CircuitBreaker) (times : list float) : CircuitBreaker :=
  fold_left record_failure times cb.

End Circuit.

(** ** Exceptions and HTTP outcomes *)

(** The exceptions the pipeline tells apart.  [RuntimeError] carries
    its message ([str(e)]); [HTTPError] stands for what httpx raises
    (a transport failure, or [raise_for_status] on a status outside
    2xx); [RetryError] is tenacity's, wrapping the exception of the
    last attempt; [OtherError] is any other exception. *)
Inductive exn : Type :=
| RuntimeError (msg : string)
| HTTPError (msg : string)
| RetryError (last : exn)
| OtherError (msg : string).

(** ** cmr_agent/cmr/client.py *)

Module Client.
Import Circuit.

(** What [self._client.get(path, params=params)] does for one request:
    it raises (connection refused, timeout, ...) or it returns a
    response with a status code and a body; [resp_json] is what
    [resp.json()] gives, [None] when the body is not JSON. *)
Record response (J : Type) : Type := mkResponse {
  status_code : Z;
  resp_json : option J
}.
Arguments mkResponse {J} _ _.
Arguments status_code {J} _.
Arguments resp_json {J} _.

Inductive http_result (J : Type) : Type :=
| TransportFailure (msg : string)
| HttpResponse (r : response J).
Arguments TransportFailure {J} _.
Arguments HttpResponse {J} _.

(** The client with the world it runs in: the breaker it owns, the
    clock (the float [time.time()] returns), how many requests it has
    put on the wire, and the delays it has slept. *)
Record world : Type := mkWorld {
  circuit : CircuitBreaker;
  now : float;
  sent : nat;
  slept : list float
}.

Definition set_circuit (w : world) (cb : CircuitBreaker) : world :=
  {| circuit := cb; now := now w; sent := sent w; slept := slept w |}.

(** A request that takes [latency] seconds. *)
Definition after_request (w : world) (latency : float) : world :=
  {| circuit := circuit w; now := (now w + latency)%float;
     sent := S (sent w); slept := slept w |}.

(** [sleep(delay)] between two attempts. *)
Definition sleep (w : world) (delay : float) : world :=
  {| circuit := circuit w; now := (now w + delay)%float;
     sent := sent w; slept := slept w ++ [delay] |}.

(** httpx: [Response.is_success], the test of [raise_for_status]. *)
Definition is_success (status : Z) : bool :=
  (200 <=? status) && (status <=? 299).

(** Python's [max(a, b)] and [min(a, b)]: the first argument unless
    the second is strictly beyond it. *)
Definition py_max (a b : float) : float := if (a <? b)%float then b else a.
Definition py_min (a b : float) : float := if (b <? a)%float then b else a.

Definition circuit_open_error : exn :=
  RuntimeError "CMR circuit open; temporarily rejecting requests".

(** tenacity: [wait_exponential(multiplier, min, max)] with the default
    [exp_base = 2], at the number of the attempt that just failed:
    [max(max(0, min), min(multiplier * 2 ** (attempt_number - 1), max))],
    the power being an int and the product a float.  Where the power is
    too large for a float tenacity returns [max]; so does this, the
    product being an infinity then. *)
Definition wait_exponential (multiplier min max : float) (attempt_number : nat) : float :=
  let result := (multiplier * float_of_int (2 ^ (Z.of_nat attempt_number - 1)))%float in
  py_max (py_max 0 min) (py_min result max).

Section WithNetwork.

Context {P J : Type}.

(** The network: latency and outcome of the [k]-th request this client
    sends, given its path and parameters. *)
Variable net : nat -> string -> P -> float * http_result J.

(** The body of [_safe_get], one attempt:
<<
    if not self.circuit.allow():
        raise RuntimeError('CMR circuit open; temporarily rejecting requests')
    try:
        resp = await self._client.get(path, params=params)
        resp.raise_for_status()
        self.circuit.record_success()
        return resp
    except Exception:
        self.circuit.record_failure()
        raise
>> *)
Definition attempt (path : string) (params : P) (w : world)
  : (exn + response J) * world :=
  if negb (allow (circuit w) (now w)) then (inl circuit_open_error, w)
  else
    let '(latency, res) := net (sent w) path params in
    let w1 := after_request w latency in
    match res with
    | TransportFailure msg =>
        (inl (HTTPError msg),
         set_circuit w1 (record_failure (circuit w1) (now w1)))
    | HttpResponse r =>
        if is_success (status_code r)
        then (inr r, set_circuit w1 (record_success (circuit w1)))
        else (inl (HTTPError "HTTPStatusError"),
              set_circuit w1 (record_failure (circuit w1) (now w1)))
    end.

(** tenacity's loop for [@retry(stop=stop_after_attempt(n), wait=wait)]:
    [attempt_number] counts from 1; [remaining] is [n - attempt_number],
    the attempts still allowed after this one.  The result carries the
    number of the last attempt made. *)
Fixpoint retry_loop (wait : nat -> float) (path : string) (params : P)
    (remaining attempt_number : nat) (w : world)
  : (exn + response J) * nat * world :=
  match attempt path params w with
  | (inr r, w1) => (inr r, attempt_number, w1)
  | (inl e, w1) =>
      match remaining with
      | O => (inl (RetryError e), attempt_number, w1)
      | S remaining' =>
          retry_loop wait path params remaining' (S attempt_number)
            (sleep w1 (wait attempt_number))
      end
  end.

(** [@retry(stop=stop_after_attempt(3),
            wait=wait_exponential(multiplier=0.5, min=0.5, max=3))] *)
Definition stop_after_attempt : nat := 3.
Definition safe_get_wait : nat -> float := wait_exponential 0.5 0.5 3.

Definition _safe_get (path : string) (params : P) (w : world)
  : (exn + response J) * nat * world :=
  retry_loop safe_get_wait path params (stop_after_attempt - 1) 1 w.

(** [resp = await self._safe_get(path, params=params); return resp.json()] *)
Definition search (path : string) (params : P) (w : world) : (exn + J) * world :=
  match _safe_get path params w with
  | (inr r, _, w1) =>
      match resp_json r with
      | Some j => (inr j, w1)
      | None => (inl (OtherError "JSONDecodeError"), w1)
      end
  | (inl e, _, w1) => (inl e, w1)
  end.

Definition search_collections := search "/search/collections.umm_json".
Definition search_granules := search "/search/granules.umm_json".
Definition search_variables := search "/search/variables.umm_json".

End WithNetwork.

End Client.

(** ** cmr_agent/utils.py *)

Module Utils.
Import Str.

(** A bounding box [(W, S, E, N)] of Python floats. *)
Definition bbox : Type := (float * float * float * float)%type.

(** [REGION_TO_BBOX], in the order of the dict literal. *)
Definition REGION_TO_BBOX : list (string * bbox) :=
  [ ("sub-saharan africa", ((-20)%float, (-35)%float, 52%float, 20%float));
    ("subsaharan africa", ((-20)%float, (-35)%float, 52%float, 20%float));
    ("sub saharan africa", ((-20)%float, (-35)%float, 52%float, 20%float));
    ("ssa", ((-20)%float, (-35)%float, 52%float, 20%float));
    ("global", ((-180)%float, (-90)%float, 180%float, 90%float)) ].

(** Does [(?:19|20)\d{2}] match at the head of [s]? *)
Definition year_at (s : string) : option string :=
  match s with
  | String a (String b (String c (String d _))) =>
      if ((Ascii.eqb a "1" && Ascii.eqb b "9") || (Ascii.eqb a "2" && Ascii.eqb b "0"))
         && is_digit c && is_digit d
      then Some (String a (String b (String c (String d EmptyString))))
      else None
  | _ => None
  end.

(** [re.findall(r"((?:19|20)\d{2})", text)]: the matches from left to
    right, none overlapping another; [skip] counts the characters of
    the last match still to be passed over. *)
Fixpoint findall_from (skip : nat) (s : string) : list string :=
  match s with
  | EmptyString => []
  | String _ s' =>
      match skip with
      | S k => findall_from k s'
      | O =>
          match year_at s with
          | Some y => y :: findall_from 3 s'
          | None => findall_from 0 s'
          end
      end
  end.

Definition findall_years (text : string) : list string := findall_from 0 text.

(** [years = [int(y) for y in re.findall(...)]] *)
Definition years_of (text : string) : list Z := map int (findall_years text).

(** [datetime(y, 1, 1).strftime('%Y-%m-%dT%H:%M:%SZ')] and
    [datetime(y, 12, 31, 23, 59, 59).strftime('%Y-%m-%dT%H:%M:%SZ')]. *)
Definition start_of_year (y : Z) : string := year4 y +:+ "-01-01T00:00:00Z".
Definition end_of_year (y : Z) : string := year4 y +:+ "-12-31T23:59:59Z".

(** [years[0]] and [years[-1]] of a list known to be non-empty. *)
Definition first_of (l : list Z) : Z := hd 0 l.
Definition last_of (l : list Z) : Z := List.last l 0.

(** [infer_temporal]:
<<
    years = [int(y) for y in re.findall(r"((?:19|20)\d{2})", text)]
    if len(years) >= 2:
        years.sort()
        start = datetime(years[0], 1, 1).strftime(...)
        end = datetime(years[-1], 12, 31, 23, 59, 59).strftime(...)
        return start, end
    return None, None
>> *)
Definition infer_temporal (text : string) : option string * option string :=
  let years := years_of text in
  if (2 <=? length years)%nat then
    let years := merge_sort Z.le years in
    (Some (start_of_year (first_of years)), Some (end_of_year (last_of years)))
  else (None, None).

(** [infer_bbox]: the box of the first key of [REGION_TO_BBOX] found
    in the lower-cased text. *)
Fixpoint first_region (regions : list (string * bbox)) (lowered : string)
  : option bbox :=
  match regions with
  | [] => None
  | (key, box) :: rest =>
      if contains key lowered then Some box else first_region rest lowered
  end.

Definition infer_bbox (text : string) : option bbox :=
  first_region REGION_TO_BBOX (lower text).

End Utils.

(** ** cmr_agent/agents/validation_agent.py *)

Module Validation.
Import Str Utils.

(** [REGIONS]; only its keys are read. *)
Definition REGIONS : list (string * bbox) :=
  [ ("sub-saharan africa", ((-20)%float, (-35)%float, 52%float, 20%float));
    ("subsaharan africa", ((-20)%float, (-35)%float, 52%float, 20%float));
    ("sub saharan africa", ((-20)%float, (-35)%float, 52%float, 20%float));
    ("ssa", ((-20)%float, (-35)%float, 52%float, 20%float));
    ("global", ((-180)%float, (-90)%float, 180%float, 90%float)) ].

Definition banned : list string :=
  ["medical records"; "social security"; "bank account"].

(** A word boundary [\b] next to a digit: the neighbour on the other
    side is missing or is not a word character. *)
Definition boundary (neighbour : option ascii) : bool :=
  match neighbour with
  | None => true
  | Some c => negb (is_word c)
  end.

Definition next_char (s : string) : option ascii :=
  match s with
  | EmptyString => None
  | String c _ => Some c
  end.

(** Does [\b(?:19|20)\d{2}\b] match at the head of [s], the character
    before it being [prev]? *)
Definition year_word_at (prev : option ascii) (s : string) : option string :=
  match s with
  | String a (String b (String c (String d rest))) =>
      if boundary prev
         && ((Ascii.eqb a "1" && Ascii.eqb b "9") || (Ascii.eqb a "2" && Ascii.eqb b "0"))
         && is_digit c && is_digit d
         && boundary (next_char rest)
      then Some (String a (String b (String c (String d EmptyString))))
      else None
  | _ => None
  end.

(** [re.findall(r"\b(?:19|20)\d{2}\b", query)] *)
Fixpoint findall_from (prev : option ascii) (skip : nat) (s : string) : list string :=
  match s with
  | EmptyString => []
  | String c s' =>
      match skip with
      | S k => findall_from (Some c) k s'
      | O =>
          match year_word_at prev s with
          | Some y => y :: findall_from (Some c) 3 s'
          | None => findall_from (Some c) 0 s'
          end
      end
  end.

Definition years_of (query : string) : list Z :=
  map int (findall_from None 0 query).

(** The two locals [feasible] and [reasons] of [run]. *)
Definition verdict : Type := (bool * list string)%type.

(** [feasible = False; reasons.append(msg)] *)
Definition fatal (msg : string) (v : verdict) : verdict := (false, snd v ++ [msg]).

(** [reasons.append(msg)] *)
Definition warning (msg : string) (v : verdict) : verdict := (fst v, snd v ++ [msg]).

Record validation : Type := mkValidation {
  feasible : bool;
  reasons : list string;
  suggested_alternatives : list string
}.

(** [x in reasons] *)
Definition mentions (msg : string) (l : list string) : bool :=
  existsb (String.eqb msg) l.

(** [ValidationAgent.run(query, subqueries)], statement by statement. *)
Definition run (query : string) (subqueries : list string) : validation :=
  let v : verdict := (true, []) in
  let v :=
    if negb (nonempty query) || negb (nonempty (strip query))
    then fatal "Empty query" v else v in
  let v :=
    if (String.length query <? 8)%nat
    then warning "Very short query; may be ambiguous" v else v in
  let lowered := lower query in
  let v :=
    if existsb (fun b => contains b lowered) banned
    then fatal "Out-of-scope content detected" v else v in
  let years := years_of query in
  let v :=
    match years with
    | [] => warning "No temporal bounds detected" v
    | _ =>
        if (2 <=? length years)%nat && (List.last years 0 <? hd 0 years)
        then fatal "Start year after end year" v else v
    end in
  let has_region :=
    existsb (fun r => contains r lowered) (map fst REGIONS)
    || (match infer_bbox query with Some _ => true | None => false end) in
  let v :=
    if negb has_region then fatal "Region not recognized" v else v in
  let v :=
    if (5 <? length subqueries)%nat
    then warning "High complexity; will decompose into steps" v else v in
  let alternatives :=
    if mentions "Region not recognized" (snd v) then map fst REGIONS else [] in
  {| feasible := fst v; reasons := snd v; suggested_alternatives := alternatives |}.

End Validation.

(** ** cmr_agent/agents/planning_agent.py *)

Module Planning.
Import Str.

Definition SYSTEM_PROMPT : string :=
  "You expand scientific terms with related synonyms or abbreviations. "
  +:+ "Respond as a JSON list of lowercase strings.".

(** The language model behind [self.llm.ainvoke(prompt)], as far as
    [_expand_terms] reads its answer: [None] when the call raises, the
    content is not JSON or the JSON is not a list; otherwise the
    elements of the list, [None] standing for an element that is not a
    string. *)
Definition llm_answer : Type := option (list (option string)).

(** [PlanningAgent]: [self.llm] is [None] when no provider is available. *)
Record PlanningAgent : Type := mkPlanningAgent {
  llm : option (string -> llm_answer)
}.

(** [x in l] on a list of strings. *)
Definition mem (x : string) (l : list string) : bool := existsb (String.eqb x) l.

(** [list(dict.fromkeys(l))]: the first occurrence of every element. *)
Definition fromkeys (l : list string) : list string :=
  fold_left (fun keys x => if mem x keys then keys else keys ++ [x]) l [].

(** [sep.join(l)] *)
Fixpoint join (sep : string) (l : list string) : string :=
  match l with
  | [] => EmptyString
  | [x] => x
  | x :: rest => x +:+ sep +:+ join sep rest
  end.

(** The loop shared by [_baseline_synonyms] and the fallback synonyms of
    [run]:
<<
    for s in syns:
        if s not in present:
            out.append(s)
            present.add(s)
>> *)
Definition add_missing (syns : list string) (st : list string * gset string)
  : list string * gset string :=
  fold_left
    (fun '(out, present) s =>
       if decide (s ∈ present) then (out, present)
       else (out ++ [s], {[ s ]} ∪ present))
    syns st.

Definition rain_like : gset string := {[ "rain"; "rainfall" ]}.

(** [_baseline_synonyms] *)
Definition _baseline_synonyms (terms : list string) : list string :=
  let out := terms in
  let present : gset string := list_to_set out in
  if decide (present ∩ rain_like = ∅) then out
  else fst (add_missing ["precipitation"; "imerg"; "trmm"] (out, present)).

(** The loop over the model's answer:
<<
    for term in data:
        if isinstance(term, str):
            t = term.lower().strip()
            if t and t not in expanded:
                expanded.append(t)
>> *)
Definition add_llm_terms (data : list (option string)) (expanded : list string)
  : list string :=
  fold_left
    (fun expanded term =>
       match term with
       | Some term =>
           let t := strip (lower term) in
           if nonempty t && negb (mem t expanded) then expanded ++ [t] else expanded
       | None => expanded
       end)
    data expanded.

(** [_expand_terms] *)
Definition _expand_terms (self : PlanningAgent) (seeds : list string) : list string :=
  let expanded := map lower (filter (fun s => nonempty s = true) seeds) in
  match llm self, seeds with
  | None, _ | _, [] => fromkeys (_baseline_synonyms expanded)
  | Some ainvoke, _ =>
      let prompt := SYSTEM_PROMPT +:+ String "010" "Terms: " +:+ join ", " seeds in
      let expanded :=
        match ainvoke prompt with
        | Some data => add_llm_terms data expanded
        | None => expanded
        end in
      fromkeys (_baseline_synonyms expanded)
  end.

Definition STOPWORDS : list string :=
  ["over"; "in"; "the"; "a"; "an"; "and"; "or"; "to"; "of"; "for"; "on"; "with"].

(** One turn of the loop that builds [variable_terms]. *)
Definition keep_term (variable_terms : list string) (term : string) : list string :=
  let t := lower (strip term) in
  if negb (nonempty t) then variable_terms
  else if isdigit (replace "-" EmptyString t) then variable_terms
  else if mem t STOPWORDS then variable_terms
  else if negb (mem t variable_terms) then variable_terms ++ [t]
  else variable_terms.

(** [fallback_synonyms], in the order of the dict literal. *)
Definition fallback_synonyms : list (string * list string) :=
  [ ("rainfall", ["precipitation"]);
    ("imerg", ["precipitation"]);
    ("trmm", ["precipitation"]) ].

(** One turn of the loop over [fallback_synonyms.items()]:
<<
    if base in present:
        for s in syns: ...
>> *)
Definition fallback_step (st : list string * gset string) (entry : string * list string)
  : list string * gset string :=
  let '(base, syns) := entry in
  if decide (base ∈ snd st) then add_missing syns st else st.

Record criteria : Type := mkCriteria {
  c_query : string;
  c_expanded_terms : list string;
  c_variable_terms : list string
}.

Record stage : Type := mkStage {
  name : string;
  type : string;
  stage_criteria : criteria;
  depends_on : list string
}.

Record plan : Type := mkPlan {
  parallel : bool;
  expanded_terms : list string;
  variable_terms : list string;
  stages : list stage
}.

(** The seeds of [run]: the stripped non-blank subqueries, then the
    words of the lower-cased query with commas read as spaces. *)
Definition seeds_of (user_query : string) (subqueries : list string) : list string :=
  let lowered := lower user_query in
  map strip (filter (fun s => nonempty s && (0 <? String.length (strip s))%nat = true) subqueries)
  ++ map strip (filter (fun t => nonempty (strip t) = true) (split (replace "," " " lowered))).

(** [PlanningAgent.run(user_query, subqueries)] *)
Definition run (self : PlanningAgent) (user_query : string) (subqueries : list string)
  : plan :=
  let seeds := seeds_of user_query subqueries in
  let expanded := _expand_terms self seeds in
  let variable_terms := fold_left keep_term expanded [] in
  let present : gset string := list_to_set variable_terms in
  let '(variable_terms, _) :=
    fold_left fallback_step fallback_synonyms (variable_terms, present) in
  let criteria :=
    {| c_query := user_query; c_expanded_terms := expanded;
       c_variable_terms := variable_terms |} in
  {| parallel := true;
     expanded_terms := expanded;
     variable_terms := variable_terms;
     stages :=
       [ {| name := "collection_search"; type := "collection_search";
            stage_criteria := criteria; depends_on := [] |};
         {| name := "granule_search"; type := "granule_search";
            stage_criteria := criteria; depends_on := ["collection_search"] |};
         {| name := "variable_search"; type := "variable_search";
            stage_criteria := criteria; depends_on := [] |} ] |}.

End Planning.

(** ** CMR records

    The JSON documents returned by the CMR search API, as far as the
    agents read them: every field may be absent ([None], or the empty
    list for an array). *)

Module Cmr.

Record instrument : Type := mkInstrument {
  instr_ShortName : option string;
  instr_LongName : option string
}.

Record platform : Type := mkPlatform {
  plat_ShortName : option string;
  plat_LongName : option string;
  Instruments : list instrument
}.

(** An entry of [AdditionalAttributes]. *)
Record attribute : Type := mkAttribute {
  attr_Name : option string;
  attr_Values : list string
}.

(** [TemporalExtent.RangeDateTime] *)
Record range_date_time : Type := mkRange {
  BeginningDateTime : option string;
  EndingDateTime : option string
}.

(** A bounding rectangle; each coordinate is the result of [float(...)]
    on the field, [None] when that raises. *)
Record bounding_box : Type := mkBox {
  WestBoundingCoordinate : option float;
  SouthBoundingCoordinate : option float;
  EastBoundingCoordinate : option float;
  NorthBoundingCoordinate : option float
}.

(** An entry of [associations.collections] of a variable. *)
Record association : Type := mkAssociation {
  concept_id : option string;
  concept_dash_id : option string
}.

(** The [umm] payload of a collection, granule or variable. *)
Record umm : Type := mkUmm {
  ShortName : option string;
  LongName : option string;
  Name : option string;
  Platforms : list platform;
  AdditionalAttributes : list attribute;
  RangeDateTime : option range_date_time;
  BoundingBoxes : list bounding_box
}.

Record item : Type := mkItem {
  meta_concept_id : option string;
  meta_provider_id : option string;
  item_umm : umm;
  assoc_collections : list association
}.

Definition empty_umm : umm :=
  {| ShortName := None; LongName := None; Name := None; Platforms := [];
     AdditionalAttributes := []; RangeDateTime := None; BoundingBoxes := [] |}.

(** [{"meta": {"concept-id": cid}}] *)
Definition item_of_id (cid : string) : item :=
  {| meta_concept_id := Some cid; meta_provider_id := None;
     item_umm := empty_umm; assoc_collections := [] |}.

(** A result set: the [items] of a response, the exception a failed
    search was replaced by ([error], kept as the exception whose text the
    code stores), and the [_term] the staged mode attaches. *)
Record item_set : Type := mkItemSet {
  items : list item;
  error : option exn;
  _term : option string
}.

Definition items_only (l : list item) : item_set :=
  {| items := l; error := None; _term := None |}.

(** Truth value of an optional string: present and not empty. *)
Definition truthy (o : option string) : bool :=
  match o with
  | Some s => Str.nonempty s
  | None => false
  end.

(** [a or b] on optional strings. *)
Definition py_or (a b : option string) : option string :=
  if truthy a then a else b.

(** One entry of a search of the orchestrator. *)
Record search_result : Type := mkSearchResult {
  query : string;
  collections : item_set;
  granules : item_set;
  variables : item_set;
  related_collection_ids : option (list string)
}.

End Cmr.

(** ** cmr_agent/agents/cmr_agent.py *)

Module Agent.
Import Str Utils Cmr.

(** The request parameters the agent builds (a dict with these keys;
    [None], or [[]] for [concept_id], when the key is absent).  The
    bounding box is kept as the tuple the string is formatted from. *)
Record params : Type := mkParams {
  page_size : option Z;
  keyword : option string;
  provider : option string;
  temporal : option string;
  bounding_box : option bbox;
  short_name : option string;
  science_keywords_h : option string;
  concept_ids : list string;
  collection_concept_id : option string
}.

(** An entry of [self.query_log]. *)
Record log_entry : Type := mkLogEntry {
  endpoint : string;
  log_params : params;
  log_page_size : option Z;
  total_hits : nat
}.

(** A stage of a plan as [run_stage] reads it: [stage.get("query")] and
    [stage.get("variable_terms")]. *)
Record stage : Type := mkStage {
  stage_query : option string;
  stage_variable_terms : option (list string)
}.

(** The second argument of [run]: a dict (its keys in order, and the
    value of ["stages"], [[]] when missing), or a list of subqueries. *)
Inductive plan_or_subqueries : Type :=
| PlanDict (keys : list string) (stages : list stage)
| Subqueries (subqueries : list string).

(** What [run] returns; the staged mode returns ["searches"] alone. *)
Record run_output : Type := mkRunOutput {
  searches : list search_result;
  out_query_log : option (list log_entry);
  out_circuit_breaker_tripped : option bool
}.

(** The locals of [run_stage] beside its result. *)
Record stage_run : Type := mkStageRun {
  stage_output : search_result;
  var_results : list item_set;
  extra_results : list (exn + item_set);
  results_list : list item_set;
  granules_results : list (exn + item_set)
}.

(** [isinstance(e, RuntimeError) and 'circuit' in str(e).lower()] *)
Definition is_circuit_error (e : exn) : bool :=
  match e with
  | RuntimeError msg => contains "circuit" (lower msg)
  | _ => false
  end.

(** [cid = a.get("concept_id") or a.get("concept-id")], kept when true. *)
Definition association_id (a : association) : list string :=
  match py_or (concept_id a) (concept_dash_id a) with
  | Some cid => if nonempty cid then [cid] else []
  | None => []
  end.

(** The ids named by the associations of the variables found. *)
Definition related_ids (var_results : list item_set) : list string :=
  flat_map (fun vres => flat_map (fun v => flat_map association_id (assoc_collections v))
                          (items vres))
    var_results.

(** The de-duplication loop over a [seen] set. *)
Definition dedupe_ids (ids : list string) : list string :=
  fst (fold_left
         (fun '(unique, seen) cid =>
            if decide (cid ∈ (seen : gset string)) then (unique, seen)
            else (unique ++ [cid], {[ cid ]} ∪ seen))
         ids ([], ∅)).

(** The merge loop of [run_stage]:
<<
    for c in sum((extract_items(r) for r in results_list), []):
        cid = (c.get("meta") or {}).get("concept-id")
        if cid and cid not in merge_seen:
            merged_items.append(c)
            merge_seen.add(cid)
>> *)
Definition merge_step (st : list item * gset string) (c : item)
  : list item * gset string :=
  match meta_concept_id c with
  | Some cid =>
      if nonempty cid && negb (bool_decide (cid ∈ snd st))
      then (fst st ++ [c], {[ cid ]} ∪ snd st)
      else st
  | None => st
  end.

Definition merge_items (results_list : list item_set) : list item :=
  fst (fold_left merge_step (flat_map items results_list) ([], ∅)).

Section WithClient.

(** The client is any object with the three search coroutines; [S] is
    its state (for [AsyncCMRClient]: breaker, clock and network). *)
Context {S : Type}.
Variable search_collections : params -> S -> (exn + item_set) * S.
Variable search_granules : params -> S -> (exn + item_set) * S.
Variable search_variables : params -> S -> (exn + item_set) * S.

(** [getattr(self.client, 'circuit', None)], with its [allow]. *)
Variable circuit_allow : option (S -> bool).

(** [getattr(settings, "cmr_provider", None)] *)
Variable cmr_provider : option string.

Record CMRAgent : Type := mkCMRAgent {
  client : S;
  query_log : list log_entry;
  collection_cache : gmap string item;
  circuit_tripped : bool
}.

Definition set_client (a : CMRAgent) (c : S) : CMRAgent :=
  {| client := c; query_log := query_log a;
     collection_cache := collection_cache a; circuit_tripped := circuit_tripped a |}.

Definition set_cache (a : CMRAgent) (m : gmap string item) : CMRAgent :=
  {| client := client a; query_log := query_log a;
     collection_cache := m; circuit_tripped := circuit_tripped a |}.

(** [self.circuit_tripped = True] *)
Definition trip (a : CMRAgent) : CMRAgent :=
  {| client := client a; query_log := query_log a;
     collection_cache := collection_cache a; circuit_tripped := true |}.

(** The test made on every captured exception. *)
Definition note_exception (e : exn) (a : CMRAgent) : CMRAgent :=
  if is_circuit_error e then trip a else a.

(** [_log] *)
Definition _log (endpoint : string) (p : params) (result : item_set) (a : CMRAgent)
  : CMRAgent :=
  {| client := client a;
     query_log := query_log a
                  ++ [ {| endpoint := endpoint; log_params := p;
                          log_page_size := page_size p;
                          total_hits := length (items result) |} ];
     collection_cache := collection_cache a;
     circuit_tripped := circuit_tripped a |}.

(** Computations of the agent: they may raise, and change the agent
    either way. *)
Definition M (A : Type) : Type := CMRAgent -> (exn + A) * CMRAgent.

Definition ret {A : Type} (x : A) : M A := fun a => (inr x, a).

Definition raise {A : Type} (e : exn) : M A := fun a => (inl e, a).

Definition bind {A B : Type} (m : M A) (f : A -> M B) : M B :=
  fun a =>
    match m a with
    | (inr x, a') => f x a'
    | (inl e, a') => (inl e, a')
    end.

Notation "'let*' x := m 'in' k" := (bind m (fun x => k))
  (at level 10, x name, m at level 100, k at level 200).

(** A statement that only changes the agent. *)
Definition modify (f : CMRAgent -> CMRAgent) : M unit := fun a => (inr tt, f a).

(** [await gather(...)] without [return_exceptions]: the first
    exception is raised. *)
Fixpoint gather {A B : Type} (f : A -> M B) (l : list A) : M (list B) :=
  match l with
  | [] => ret []
  | x :: l' => let* y := f x in let* ys := gather f l' in ret (y :: ys)
  end.

(** One awaited search, its exception captured as a value (what
    [gather(..., return_exceptions=True)] and [try] give). *)
Definition call (search : params -> S -> (exn + item_set) * S) (p : params)
  : M (exn + item_set) :=
  fun a => let '(res, c) := search p (client a) in (inr res, set_client a c).

(** The parameters common to both modes, from the query text. *)
Definition base_params (q : string) : params :=
  let temporal := infer_temporal q in
  let bbox := infer_bbox q in
  {| page_size := Some 25;
     keyword := Some q;
     provider :=
       match cmr_provider with
       | Some p =>
           if nonempty p && negb (existsb (String.eqb p) [EmptyString; "ALL"; "CMR_ALL"])
           then Some p else None
       | None => None
       end;
     temporal :=
       match temporal with
       | (Some t0, Some t1) =>
           if nonempty t0 && nonempty t1 then Some (t0 +:+ "," +:+ t1) else None
       | _ => None
       end;
     bounding_box := bbox;
     short_name := None;
     science_keywords_h := None;
     concept_ids := [];
     collection_concept_id := None |}.

Definition with_page_size (p : params) (n : Z) : params :=
  {| page_size := Some n; keyword := keyword p; provider := provider p;
     temporal := temporal p; bounding_box := bounding_box p;
     short_name := short_name p; science_keywords_h := science_keywords_h p;
     concept_ids := concept_ids p; collection_concept_id := collection_concept_id p |}.

Definition with_collection (p : params) (gid : option string) : params :=
  {| page_size := page_size p; keyword := keyword p; provider := provider p;
     temporal := temporal p; bounding_box := bounding_box p;
     short_name := short_name p; science_keywords_h := science_keywords_h p;
     concept_ids := concept_ids p;
     collection_concept_id := if truthy gid then gid else collection_concept_id p |}.

(** [p.pop("keyword", None)] and one more key. *)
Definition without_keyword (p : params) : params :=
  {| page_size := page_size p; keyword := None; provider := provider p;
     temporal := temporal p; bounding_box := bounding_box p;
     short_name := short_name p; science_keywords_h := science_keywords_h p;
     concept_ids := concept_ids p; collection_concept_id := collection_concept_id p |}.

Definition short_name_params (p : params) (term : string) : params :=
  {| page_size := page_size p; keyword := None; provider := provider p;
     temporal := temporal p; bounding_box := bounding_box p;
     short_name := Some term; science_keywords_h := science_keywords_h p;
     concept_ids := concept_ids p; collection_concept_id := collection_concept_id p |}.

Definition science_params (p : params) (term : string) : params :=
  {| page_size := page_size p; keyword := None; provider := provider p;
     temporal := temporal p; bounding_box := bounding_box p;
     short_name := short_name p; science_keywords_h := Some term;
     concept_ids := concept_ids p; collection_concept_id := collection_concept_id p |}.

Definition id_params (p : params) (missing_ids : list string) : params :=
  {| page_size := page_size p; keyword := None; provider := provider p;
     temporal := temporal p; bounding_box := bounding_box p;
     short_name := short_name p; science_keywords_h := science_keywords_h p;
     concept_ids := concept_ids p ++ firstn 50 missing_ids;
     collection_concept_id := collection_concept_id p |}.

(** [{"keyword": term, "page_size": 25}] *)
Definition variable_params (term : string) : params :=
  {| page_size := Some 25; keyword := Some term; provider := None;
     temporal := None; bounding_box := None; short_name := None;
     science_keywords_h := None; concept_ids := []; collection_concept_id := None |}.

(** [{"items": [], "error": str(e)}] *)
Definition failed (e : exn) : item_set :=
  {| items := []; error := Some e; _term := None |}.

(** *** Plain mode *)

(** [handle(res, log_params, endpoint)] of [search_for]. *)
Definition handle (res : exn + item_set) (log_params : params) (endpoint : string)
  : M item_set :=
  match res with
  | inr d => let* _ := modify (_log endpoint log_params d) in ret d
  | inl e => let* _ := modify (note_exception e) in ret (failed e)
  end.

(** What [await collections_task] gives inside [granules].  The
    coroutine object [collections_task] is also an argument of
    [gather], which wraps it in a task and starts it first; a coroutine
    that is suspended or finished cannot be awaited a second time, so
    this [await] raises [RuntimeError] whatever the search returns. *)
Definition await_again (collections_res : exn + item_set) : exn + item_set :=
  inl (RuntimeError "cannot reuse already awaited coroutine").

(** [i.get("meta")] is true: the item has a [meta] with some key. *)
Definition has_meta (i : item) : bool :=
  match meta_concept_id i, meta_provider_id i with
  | None, None => false
  | _, _ => true
  end.

(** The inner coroutine [granules(params)] of [search_for]; every
    exception inside it ends in [{"items": []}]:
<<
    try:
        cols = await collections_task
        items = (cols or {}).get("items", [])
        if items:
            concept_ids = [i.get("meta", {}).get("concept-id")
                           for i in items if i.get("meta")]
            gid = concept_ids[0]
            gparams = {k: v for k, v in params.items() if k != "page_size"}
            if gid:
                gparams["collection_concept_id"] = gid
            gparams["page_size"] = 50
            return await self.client.search_granules(gparams)
    except Exception:
        pass
    return {"items": []}
>> *)
Definition search_for_granules (awaited : exn + item_set) (p : params) : M item_set :=
  match awaited with
  | inl _ => ret (items_only [])
  | inr cols =>
      match items cols with
      | [] => ret (items_only [])
      | _ :: _ =>
          match map meta_concept_id (List.filter has_meta (items cols)) with
          | [] => ret (items_only [])
          | gid :: _ =>
              let* res := call search_granules
                            (with_page_size (with_collection p gid) 50) in
              match res with
              | inr d => ret d
              | inl _ => ret (items_only [])
              end
          end
      end
  end.

(** [search_for(q)]: the three coroutines of its [gather], then the
    three calls of [handle]. *)
Definition search_for (q : string) : M search_result :=
  let p := base_params q in
  let* collections_res := call search_collections p in
  let* granules_res := search_for_granules (await_again collections_res) p in
  let* variables_res := call search_variables (variable_params q) in
  let* collections := handle collections_res p "collections" in
  let* granules_res := handle (inr granules_res) (with_page_size p 50) "granules" in
  let* variables_res := handle variables_res (variable_params q) "variables" in
  ret {| query := q; collections := collections; granules := granules_res;
         variables := variables_res; related_collection_ids := None |}.

(** *** Staged mode *)

(** The loop over the variable searches of a stage. *)
Definition absorb_variable (entry : (exn + item_set) * string) : M item_set :=
  let '(res, term) := entry in
  let* res := match res with
         | inl e => let* _ := modify (note_exception e) in ret (failed e)
         | inr d => ret d
         end in
  let res := {| items := items res; error := error res; _term := Some term |} in
  let* _ := modify (_log "variables" (variable_params term) res) in
  ret res.

(** Cache hits and misses among the related ids. *)
Definition partition_cached (cache : gmap string item) (ids : list string)
  : list item * list string :=
  fold_left
    (fun '(cached_items, missing_ids) cid =>
       match cache !! cid with
       | Some it => (cached_items ++ [it], missing_ids)
       | None => (cached_items, missing_ids ++ [cid])
       end)
    ids ([], []).

(** [self.collection_cache[cid] = c] for every item with an id. *)
Definition cache_items (l : list item) (cache : gmap string item) : gmap string item :=
  fold_left
    (fun m c =>
       match meta_concept_id c with
       | Some cid => if nonempty cid then <[ cid := c ]> m else m
       | None => m
       end)
    l cache.

(** The batched lookup of the ids missing from the cache. *)
Definition fetch_by_id (bp : params) (missing_ids : list string) : M item_set :=
  match missing_ids with
  | [] => ret (items_only [])
  | _ :: _ =>
      let* res := call search_collections (id_params (without_keyword bp) missing_ids) in
      match res with
      | inr d =>
          let* _ := modify (fun a => set_cache a (cache_items (items d) (collection_cache a))) in
          ret d
      | inl e => let* _ := modify (note_exception e) in ret (items_only [])
      end
  end.

(** The loop over [extra_results]. *)
Definition absorb_extra (bp : params) (er : exn + item_set) : M (list item_set) :=
  match er with
  | inl e => let* _ := modify (note_exception e) in ret []
  | inr d => let* _ := modify (_log "collections" bp d) in ret [d]
  end.

(** [fetch_granules_for_collection], its exception captured by [gather]. *)
Definition fetch_granules_for_collection (bp : params) (c : item)
  : M (exn + item_set) :=
  let gparams := with_page_size (with_collection bp (meta_concept_id c)) 50 in
  let* res := call search_granules gparams in
  match res with
  | inr d => let* _ := modify (_log "granules" gparams d) in ret (inr d)
  | inl e => ret (inl e)
  end.

(** The loop over [granules_results]. *)
Definition absorb_granules (gr : exn + item_set) : M (list item) :=
  match gr with
  | inl e => let* _ := modify (note_exception e) in ret []
  | inr d => ret (items d)
  end.

(** [run_stage(stage)], with its locals. *)
Definition run_stage_full (query : string) (st : stage) : M stage_run :=
  let q := match stage_query st with Some q => q | None => query end in
  let bp := base_params q in
  let variable_terms :=
    match stage_variable_terms st with
    | Some (t :: ts) => t :: ts
    | _ => [q]
    end in
  let* raw_var_results := gather (fun term => call search_variables (variable_params term))
                       variable_terms in
  let* var_results := gather absorb_variable (combine raw_var_results variable_terms) in
  let related_collection_ids_unique := dedupe_ids (related_ids var_results) in
  let* cache := (fun a => (inr (collection_cache a), a)) in
  let '(cached_items, missing_ids) :=
    partition_cached cache related_collection_ids_unique in
  let* collections_by_id := fetch_by_id bp missing_ids in
  let* kw_cols := call search_collections bp in
  let* kw_cols := match kw_cols with
             | inl e => raise e
             | inr d => let* _ := modify (_log "collections" bp d) in ret d
             end in
  let* extra_results := gather (call search_collections)
      (map (short_name_params bp) (firstn 3 variable_terms)
       ++ map (science_params bp) (firstn 3 variable_terms)) in
  let* extras := gather (absorb_extra bp) extra_results in
  let* _ := match missing_ids with
       | [] => ret tt
       | _ :: _ =>
           modify (_log "collections" (id_params (without_keyword bp) missing_ids)
                     collections_by_id)
       end in
  let results_list :=
    [kw_cols] ++ concat extras ++ [collections_by_id]
    ++ match cached_items with
       | [] => []
       | _ :: _ => [items_only cached_items]
       end in
  let merged_items := merge_items results_list in
  let* granules_results := gather (fetch_granules_for_collection bp) (firstn 3 merged_items) in
  let* combined := gather absorb_granules granules_results in
  ret {| stage_output :=
           {| query := q;
              variables := items_only (flat_map items var_results);
              collections := items_only merged_items;
              granules := items_only (concat combined);
              related_collection_ids := Some related_collection_ids_unique |};
         var_results := var_results;
         extra_results := extra_results;
         results_list := results_list;
         granules_results := granules_results |}.

Definition run_stage (query : string) (st : stage) : M search_result :=
  let* r := run_stage_full query st in ret (stage_output r).

(** [CMRAgent.run(query, plan_or_subqueries)] *)
Definition run (query : string) (plan : plan_or_subqueries) : M run_output :=
  match plan with
  | PlanDict _ (st :: stages) =>
      let* searches := gather (run_stage query) (st :: stages) in
      ret {| searches := searches; out_query_log := None;
             out_circuit_breaker_tripped := None |}
  | _ =>
      let subqueries :=
        match plan with
        | PlanDict (k :: keys) _ => k :: keys
        | Subqueries (q :: qs) => q :: qs
        | _ => [query]
        end in
      let* searches := gather search_for subqueries in
      fun a =>
        let cb_open :=
          match circuit_allow with
          | Some allow => negb (allow (client a))
          | None => false
          end in
        (inr {| searches := searches;
                out_query_log := Some (query_log a);
                out_circuit_breaker_tripped := Some (circuit_tripped a || cb_open) |},
         a)
  end.

End WithClient.

End Agent.

(** ** cmr_agent/graph/pipeline.py: from validation to the search step *)

Module Pipeline.
Import Cmr Agent.

(** The keys of [QueryState] these steps read or write; [None] is an
    absent key. *)
Record QueryState : Type := mkQueryState {
  user_query : string;
  subqueries : option (list string);
  validation : option Validation.validation;
  validated : option bool;
  plan : option Planning.plan;
  cmr_results : option run_output;
  cmr_queries : option (list log_entry);
  circuit_breaker_tripped : option bool
}.

(** The state after [start_step] and [intent_step], given the
    subqueries the intent agent produced. *)
Definition after_intent (user_query : string) (subqueries : list string) : QueryState :=
  {| user_query := user_query; subqueries := Some subqueries;
     validation := None; validated := None; plan := None;
     cmr_results := None; cmr_queries := None; circuit_breaker_tripped := None |}.

(** [state.get('subqueries', [])] *)
Definition get_subqueries (state : QueryState) : list string :=
  match subqueries state with Some l => l | None => [] end.

(** [validation_step] *)
Definition validation_step (state : QueryState) : QueryState :=
  let v := Validation.run (user_query state) (get_subqueries state) in
  {| user_query := user_query state; subqueries := subqueries state;
     validation := Some v; validated := Some (Validation.feasible v);
     plan := plan state; cmr_results := cmr_results state;
     cmr_queries := cmr_queries state;
     circuit_breaker_tripped := circuit_breaker_tripped state |}.

(** [planning_step] *)
Definition planning_step (planner : Planning.PlanningAgent) (state : QueryState)
  : QueryState :=
  let p := Planning.run planner (user_query state) (get_subqueries state) in
  {| user_query := user_query state; subqueries := subqueries state;
     validation := validation state; validated := validated state;
     plan := Some p; cmr_results := cmr_results state;
     cmr_queries := cmr_queries state;
     circuit_breaker_tripped := circuit_breaker_tripped state |}.

(** [route_after_planning]: [True] for ['cmr_step']. *)
Definition route_after_planning (state : QueryState) : bool :=
  match validated state with Some b => b | None => false end.

(** The planner's dict as the orchestrator reads it: its stages carry
    ["name"], ["type"], ["criteria"] and ["depends_on"], so neither
    ["query"] nor ["variable_terms"]. *)
Definition plan_dict (p : Planning.plan) : plan_or_subqueries :=
  PlanDict ["parallel"; "expanded_terms"; "variable_terms"; "stages"]
    (map (fun _ => {| stage_query := None; stage_variable_terms := None |})
       (Planning.stages p)).

Section WithClient.

Context {S : Type}.
Variable search_collections : params -> S -> (exn + item_set) * S.
Variable search_granules : params -> S -> (exn + item_set) * S.
Variable search_variables : params -> S -> (exn + item_set) * S.
Variable circuit_allow : option (S -> bool).
Variable cmr_provider : option string.

(** [CMRAgent()] around a new client. *)
Definition new_agent (c : S) : CMRAgent :=
  {| client := c; query_log := []; collection_cache := ∅; circuit_tripped := false |}.

(** [cmr_step]; [c] is the state of the client the new agent creates.
    The exception of [agent.run] leaves the step (after [close]). *)
Definition cmr_step (c : S) (state : QueryState) : exn + QueryState :=
  let agent := new_agent c in
  let plan_or_subqueries :=
    match plan state with
    | Some p => plan_dict p
    | None => Subqueries (get_subqueries state)
    end in
  match run search_collections search_granules search_variables circuit_allow
          cmr_provider (user_query state) plan_or_subqueries agent with
  | (inr res, _) =>
      inr {| user_query := user_query state; subqueries := subqueries state;
             validation := validation state; validated := validated state;
             plan := plan state;
             cmr_results := Some res;
             cmr_queries := Some (match out_query_log res with
                                  | Some l => l | None => [] end);
             circuit_breaker_tripped :=
               Some (match out_circuit_breaker_tripped res with
                     | Some b => b | None => false end) |}
  | (inl e, _) => inl e
  end.

(** The steps from validation to the search, in the order of the graph. *)
Definition run_to_search (planner : Planning.PlanningAgent) (c : S)
    (user_query : string) (subqueries : list string) : exn + QueryState :=
  let state := after_intent user_query subqueries in
  let state := validation_step state in
  let state := planning_step planner state in
  if route_after_planning state then cmr_step c state else inr state.

End WithClient.

(** ['failover']['circuit_breaker_tripped'] of the final response:
    [state.get('circuit_breaker_tripped', False)]. *)
Definition final_circuit_breaker_tripped (state : QueryState) : bool :=
  match circuit_breaker_tripped state with Some b => b | None => false end.

End Pipeline.

(** ** cmr_agent/agents/analysis_agent.py *)

Module Analysis.
Import Str Utils Cmr.

(** A [datetime]: its instant in microseconds (UTC when it carries a
    time zone, of its own reading when naive) and its UTC offset in
    seconds, [None] for a naive value. *)
Record datetime : Type := mkDatetime {
  instant : Z;
  tzinfo : option Z
}.

Definition aware (d : datetime) : bool :=
  match tzinfo d with Some _ => true | None => false end.

(** Comparison and subtraction raise [TypeError] ([None]) between a
    naive and an aware value. *)
Definition dt_ltb (a b : datetime) : option bool :=
  if Bool.eqb (aware a) (aware b) then Some (instant a <? instant b) else None.

(** [(a - b).days] *)
Definition dt_days (a b : datetime) : option Z :=
  if Bool.eqb (aware a) (aware b)
  then Some ((instant a - instant b) / 86400000000)
  else None.

(** [float(z)] for an integer below 2^63 in magnitude. *)
Definition float_of_Z (z : Z) : float :=
  match z with
  | Z0 => 0%float
  | Zpos _ => PrimFloat.of_uint63 (Uint63.of_Z z)
  | Zneg p => PrimFloat.opp (PrimFloat.of_uint63 (Uint63.of_Z (Zpos p)))
  end.

(** [max(a, b)] and [min(a, b)] on floats. *)
Definition fmax (a b : float) : float := if PrimFloat.ltb a b then b else a.
Definition fmin (a b : float) : float := if PrimFloat.ltb b a then b else a.

(** ['coverage'] of ['quality'] *)
Record coverage_pct : Type := mkCoveragePct {
  temporal_pct : float;
  spatial_pct : float
}.

Record quality : Type := mkQuality {
  spatial_res_km : option float;
  temporal_res : option string;
  coverage : coverage_pct;
  completeness_score : float;
  suitability_for_task : float;
  tradeoffs : list string;
  record_length_days : option Z;
  gap_days : Z
}.

Record temporal_gap : Type := mkGap {
  gap_start : string;
  gap_end : string;
  gap_days_str : Z
}.

Record gaps : Type := mkGaps {
  missing_dates : list string;
  suspected_causes : list string;
  mitigation : list string
}.

(** [{'start': ..., 'end': ...}], [None] for the empty dict. *)
Definition temporal_coverage : Type := option (string * string).

Record query_entry : Type := mkQueryEntry {
  entry_query : string;
  collections_found : nat;
  granules_found : nat;
  variables_found : nat;
  providers : list string;
  example_collections : list string;
  example_variables : list string;
  entry_temporal_coverage : temporal_coverage;
  spatial_extent : option bbox;
  coverage_chart : option string;
  related_collections : list string;
  resolutions : list string;
  latency_days : option Z;
  temporal_gaps : list temporal_gap;
  entry_gaps : gaps;
  entry_quality : quality;
  score : float
}.

Record col_detail : Type := mkColDetail {
  detail_concept_id : string;
  why_related : string;
  detail_instrument : option string;
  detail_platform : option string;
  detail_temporal_coverage : temporal_coverage
}.

Record edge : Type := mkEdge {
  source : string;
  target : string;
  edge_type : string
}.

Record knowledge_graph : Type := mkGraph {
  node_collections : list string;
  node_variables : list string;
  node_instruments : list string;
  edges : list edge
}.

Record dataset_relationship : Type := mkRel {
  rel_variable : string;
  rel_collections : list string;
  rel_reason : string
}.

Record results_paging : Type := mkPaging {
  page : Z;
  paging_page_size : Z;
  next_token : string
}.

(** The summary; [summary_related_collections] is [None] when the key
    was never set (no search at all). *)
Record summary : Type := mkSummary {
  total_collections : Z;
  total_granules : Z;
  total_variables : Z;
  queries : list query_entry;
  summary_related_collections : option (list col_detail);
  summary_knowledge_graph : knowledge_graph;
  dataset_relationships : list dataset_relationship;
  summary_results_paging : results_paging;
  knowledge_links : list string;
  data_refs : list string;
  cross_collection_map : gmap string (list nat)
}.

(** [sorted(...)] on strings: insertion in code-point order. *)
Fixpoint insert_sorted (x : string) (l : list string) : list string :=
  match l with
  | [] => [x]
  | y :: l' => if String.leb x y then x :: l else y :: insert_sorted x l'
  end.

Definition sorted (l : list string) : list string := fold_right insert_sorted [] l.

(** [sorted(s)] for a set. *)
Definition sorted_set (s : gset string) : list string := sorted (elements s).

(** [cid] when it is true. *)
Definition true_id (o : option string) : option string :=
  if truthy o then o else None.

(** [name = (x or {}).get('ShortName') or (x or {}).get('LongName')],
    kept when true. *)
Definition instrument_name (i : instrument) : option string :=
  true_id (py_or (instr_ShortName i) (instr_LongName i)).

(** The collection-instrument edges of one collection and the
    instrument names met. *)
Definition instruments_of (c : item) : list string :=
  flat_map (fun p => omap instrument_name (Instruments p)) (Platforms (item_umm c)).

Definition collection_edges (c : item) : list edge :=
  match true_id (meta_concept_id c) with
  | Some cid =>
      map (fun name => {| source := cid; target := name;
                          edge_type := "collection-instrument" |})
        (instruments_of c)
  | None => []
  end.

(** The variable-collection edges of one variable: both the variable
    name and [a.get('concept_id')] must be true. *)
Definition variable_edges (v : item) : list edge :=
  match true_id (Name (item_umm v)) with
  | Some vname =>
      omap (fun a => match true_id (concept_id a) with
                     | Some cid => Some {| source := vname; target := cid;
                                           edge_type := "variable-collection" |}
                     | None => None
                     end)
        (assoc_collections v)
  | None => []
  end.

(** The values of the attributes named "spatial resolution..." among
    the first five collections. *)
Definition attribute_resolution (a : attribute) : list string :=
  let name := match attr_Name a with Some n => n | None => EmptyString end in
  if startswith "spatial resolution" (lower name)
  then match attr_Values a with v :: _ => [v] | [] => [] end
  else [].

Definition resolutions_of (cols : list item) : list string :=
  flat_map (fun c => flat_map attribute_resolution (AdditionalAttributes (item_umm c)))
    (firstn 5 cols).

(** [platform] and [instrument] of a related collection: the first true
    name met in the loops over platforms and instruments. *)
Definition first_platform (c : item) : option string :=
  fold_left (fun acc p => if truthy acc then acc
                          else py_or (plat_ShortName p) (plat_LongName p))
    (Platforms (item_umm c)) None.

Definition first_instrument (c : item) : option string :=
  fold_left
    (fun acc p =>
       fold_left (fun acc i => if truthy acc then acc
                               else py_or (instr_ShortName i) (instr_LongName i))
         (Instruments p) acc)
    (Platforms (item_umm c)) None.

(** [var_to_cols.setdefault(var, set()).add(col)] on an ordered dict. *)
Fixpoint add_to_group (var col : string) (groups : list (string * gset string))
  : list (string * gset string) :=
  match groups with
  | [] => [(var, {[ col ]})]
  | (v, s) :: rest =>
      if String.eqb v var then (v, {[ col ]} ∪ s) :: rest
      else (v, s) :: add_to_group var col rest
  end.

Definition dataset_relationships_of (knowledge_edges : list edge)
  : list dataset_relationship :=
  let var_to_cols :=
    fold_left
      (fun groups e =>
         if String.eqb (edge_type e) "variable-collection"
         then add_to_group (source e) (target e) groups else groups)
      knowledge_edges [] in
  flat_map
    (fun '(var, cols_set) =>
       let cols := sorted (filter (fun c => nonempty c = true) (elements cols_set)) in
       if (1 <? length cols)%nat
       then [ {| rel_variable := var; rel_collections := cols;
                 rel_reason := "Collections share variable" |} ]
       else [])
    var_to_cols.

(** Cross-collection discovery:
<<
    col_to_queries = {}
    for idx, q in enumerate(summary.get('queries', [])):
        for cid in q.get('related_collections', []):
            col_to_queries.setdefault(cid, []).append(idx)
    summary['cross_collection_map'] =
        {cid: qs for cid, qs in col_to_queries.items() if len(qs) > 1}
>> *)
Definition note_query (idx : nat) (m : gmap string (list nat)) (cid : string)
  : gmap string (list nat) :=
  <[ cid := default [] (m !! cid) ++ [idx] ]> m.

Definition col_to_queries (related : list (list string)) : gmap string (list nat) :=
  fold_left (fun m '(idx, cids) => fold_left (note_query idx) cids m)
    (imap (fun idx cids => (idx, cids)) related) ∅.

Definition cross_collection_map_of (related : list (list string))
  : gmap string (list nat) :=
  filter (fun entry => (1 < length (snd entry))%nat) (col_to_queries related).

(** Spatial union of one more rectangle; a coordinate that [float(...)]
    rejects skips the rectangle. *)
Definition add_box (acc : option bbox) (box : bounding_box) : option bbox :=
  match WestBoundingCoordinate box, SouthBoundingCoordinate box,
        EastBoundingCoordinate box, NorthBoundingCoordinate box with
  | Some w, Some s_, Some e_, Some n =>
      match acc with
      | None => Some (w, s_, e_, n)
      | Some (w0, s0, e0, n0) => Some (fmin w0 w, fmin s0 s_, fmax e0 e_, fmax n0 n)
      end
  | _, _, _, _ => acc
  end.

(** Stable insertion of an interval by its start, for intervals whose
    starts can be compared. *)
Fixpoint insert_interval (x : datetime * datetime) (l : list (datetime * datetime))
  : list (datetime * datetime) :=
  match l with
  | [] => [x]
  | y :: l' =>
      if instant (fst y) <? instant (fst x) then y :: insert_interval x l'
      else x :: l
  end.

(** [intervals.sort(key=lambda x: x[0])]: [TypeError] when naive and
    aware starts meet. *)
Definition sort_intervals (l : list (datetime * datetime))
  : option (list (datetime * datetime)) :=
  match l with
  | [] => Some []
  | x :: _ =>
      if forallb (fun y => Bool.eqb (aware (fst y)) (aware (fst x))) l
      then Some (fold_right insert_interval [] l)
      else None
  end.

Section WithLibraries.

(** [datetime.fromisoformat], [None] when it raises. *)
Variable fromisoformat : string -> option datetime.

(** [d.strftime('%Y-%m-%d')] *)
Variable strftime_date : datetime -> string.

(** [datetime.now(timezone.utc)] *)
Variable utcnow : datetime.

(** matplotlib: [None] when it could not be imported, otherwise the
    rendering of a non-empty list of intervals as a data URL. *)
Variable plt : option (list (datetime * datetime) -> string).

(** The built-ins [round(x, ndigits)] and [float(s)] ([None] when it
    raises [ValueError]). *)
Variable py_round : float -> Z -> float.
Variable float_of_str : string -> option float.

(** [fromisoformat((te.get(key) or '').replace('Z', '+00:00'))] *)
Definition parse_time (field : option string) : option datetime :=
  let text := match py_or field (Some EmptyString) with
              | Some s => s | None => EmptyString end in
  fromisoformat (replace "Z" "+00:00" text).

(** [_generate_coverage_chart] *)
Definition _generate_coverage_chart (intervals : list (datetime * datetime))
  : option string :=
  match plt, intervals with
  | Some render, _ :: _ => Some (render intervals)
  | _, _ => None
  end.

(** The temporal part of the loop over granules: [Some] of the new
    [start] and [end] and whether the [except] branch ran (which skips
    the spatial part of this granule). *)
Definition add_range (st : option datetime * option datetime) (g : item)
  : (option datetime * option datetime) * bool :=
  match RangeDateTime (item_umm g) with
  | None => (st, false)
  | Some te =>
      match parse_time (BeginningDateTime te), parse_time (EndingDateTime te) with
      | Some b, Some e =>
          let '(start, end_) := st in
          let start' :=
            match start with
            | None => Some (Some b)
            | Some s => match dt_ltb b s with
                        | Some lt => Some (Some (if lt then b else s))
                        | None => None
                        end
            end in
          match start' with
          | None => (st, true)
          | Some start' =>
              match end_ with
              | None => ((start', Some e), false)
              | Some en =>
                  match dt_ltb en e with
                  | Some gt => ((start', Some (if gt then e else en)), false)
                  | None => ((start', end_), true)
                  end
              end
          end
      | _, _ => (st, true)
      end
  end.

(** The loop over granules: temporal coverage and spatial extent. *)
Definition add_granule (st : (option datetime * option datetime) * option bbox) (g : item)
  : (option datetime * option datetime) * option bbox :=
  let '(range, box) := st in
  let '(range', skipped) := add_range range g in
  if skipped then (range', box)
  else (range', fold_left add_box (BoundingBoxes (item_umm g)) box).

(** The intervals of the granules, [None] when a timestamp does not
    parse. *)
Fixpoint intervals_of (grans : list item) : option (list (datetime * datetime)) :=
  match grans with
  | [] => Some []
  | g :: rest =>
      match RangeDateTime (item_umm g) with
      | None => intervals_of rest
      | Some te =>
          match parse_time (BeginningDateTime te), parse_time (EndingDateTime te) with
          | Some b, Some e =>
              match intervals_of rest with
              | Some l => Some ((b, e) :: l)
              | None => None
              end
          | _, _ => None
          end
      end
  end.

(** The gaps between neighbours of the sorted intervals, [None] when a
    comparison or a difference raises. *)
Fixpoint gaps_between (l : list (datetime * datetime)) : option (list temporal_gap) :=
  match l with
  | prev :: ((curr :: _) as rest) =>
      match dt_ltb (snd prev) (fst curr) with
      | Some true =>
          match dt_days (fst curr) (snd prev), gaps_between rest with
          | Some d, Some gs =>
              Some ({| gap_start := strftime_date (snd prev);
                       gap_end := strftime_date (fst curr);
                       gap_days_str := d |} :: gs)
          | _, _ => None
          end
      | Some false => gaps_between rest
      | None => None
      end
  | _ => Some []
  end.

(** The [try] block that estimates the temporal gaps: both lists are
    emptied when anything in it raises. *)
Definition gaps_and_intervals (grans : list item)
  : list temporal_gap * list (datetime * datetime) :=
  match intervals_of grans with
  | Some l =>
      match sort_intervals l with
      | Some sorted_l =>
          match gaps_between sorted_l with
          | Some gs => (gs, sorted_l)
          | None => ([], [])
          end
      | None => ([], [])
      end
  | None => ([], [])
  end.

(** [temporal_overlap_days()] *)
Definition temporal_overlap_days (start end_ : option datetime)
    (temporal_constraint : option (string * string)) : Z :=
  match start, end_, temporal_constraint with
  | Some start, Some end_, Some (c0, c1) =>
      match fromisoformat (replace "Z" "+00:00" c0),
            fromisoformat (replace "Z" "+00:00" c1) with
      | Some req_start, Some req_end =>
          match dt_ltb start req_start, dt_ltb req_end end_ with
          | Some later, Some earlier =>
              let latest_start := if later then req_start else start in
              let earliest_end := if earlier then req_end else end_ in
              match dt_ltb earliest_end latest_start with
              | Some false =>
                  match dt_days earliest_end latest_start with
                  | Some d => d
                  | None => 0
                  end
              | _ => 0
              end
          | _, _ => 0
          end
      | _, _ => 0
      end
  | _, _, _ => 0
  end.

(** [spatial_iou()] *)
Definition spatial_iou (box : option bbox) (bbox_constraint : option bbox) : float :=
  match box, bbox_constraint with
  | Some (w1, s1, e1, n1), Some (w2, s2, e2, n2) =>
      let inter_w := fmax w1 w2 in
      let inter_s := fmax s1 s2 in
      let inter_e := fmin e1 e2 in
      let inter_n := fmin n1 n2 in
      let inter_area :=
        (fmax 0 (inter_e - inter_w) * fmax 0 (inter_n - inter_s))%float in
      let area1 := (fmax 0 (e1 - w1) * fmax 0 (n1 - s1))%float in
      let area2 := (fmax 0 (e2 - w2) * fmax 0 (n2 - s2))%float in
      let union :=
        if PrimFloat.ltb 0 (area1 + area2 - inter_area)
        then (area1 + area2 - inter_area)%float else 1%float in
      (inter_area / union)%float
  | _, _ => 0%float
  end.

(** The details of the collections of one search that carry an id. *)
Definition col_details_of (cols : list item) (cov : temporal_coverage)
  : list col_detail :=
  omap (fun c =>
          match true_id (meta_concept_id c) with
          | Some cid =>
              Some {| detail_concept_id := cid;
                      why_related := "variable association";
                      detail_instrument := first_instrument c;
                      detail_platform := first_platform c;
                      detail_temporal_coverage := cov |}
          | None => None
          end)
    cols.

(** The body of the loop over the searches: the entry of one search,
    the details of its collections and its edges; [inl] when
    [float(resolutions[0])] raises. *)
Definition analyze_search (temporal_constraint : option (string * string))
    (bbox_constraint : option bbox) (s : search_result)
  : exn + (query_entry * list col_detail) :=
  let cols := items (collections s) in
  let grans := items (granules s) in
  let vars := items (variables s) in
  let provider_set : gset string :=
    list_to_set
      (map (fun c => match true_id (meta_provider_id c) with
                     | Some p => p | None => "unknown"%string end) cols) in
  let titles :=
    map (fun c => py_or (ShortName (item_umm c)) (LongName (item_umm c))) (firstn 5 cols) in
  let '((start, end_), box) := fold_left add_granule grans ((None, None), None) in
  let coverage : temporal_coverage :=
    match start, end_ with
    | Some s0, Some e0 => Some (strftime_date s0, strftime_date e0)
    | _, _ => None
    end in
  let record_length_days :=
    match start, end_ with
    | Some s0, Some e0 => dt_days e0 s0
    | _, _ => None
    end in
  let example_vars :=
    omap (fun v => true_id (Name (item_umm v))) (firstn 5 vars) in
  let resolutions := resolutions_of cols in
  let latency_days :=
    match end_ with
    | Some e0 => dt_days utcnow e0
    | None => None
    end in
  let '(temporal_gaps, intervals) := gaps_and_intervals grans in
  let coverage_chart := _generate_coverage_chart intervals in
  let t_days := temporal_overlap_days start end_ temporal_constraint in
  let s_iou := spatial_iou box bbox_constraint in
  let res_score := match resolutions with [] => 0%float | _ :: _ => 1%float end in
  let score :=
    ((float_of_Z t_days / 365) * 0.5 + s_iou * 0.3 + res_score * 0.2)%float in
  let has_data :=
    match cols, grans, vars with
    | [], [], [] => false
    | _, _, _ => true
    end in
  let missing_days := fold_right Z.add 0 (map gap_days_str temporal_gaps) in
  let temporal_pct :=
    match record_length_days with
    | Some rl =>
        if 0 <? rl
        then py_round (float_of_Z (100 * (rl - missing_days)) / float_of_Z rl)%float 1
        else 0%float
    | None => 0%float
    end in
  let spatial_res :=
    match resolutions with
    | [] => inr None
    | r :: _ =>
        match float_of_str r with
        | Some f => inr (Some f)
        | None => inl (OtherError "ValueError")
        end
    end in
  match spatial_res with
  | inl e => inl e
  | inr spatial_res_km =>
      let quality :=
        {| spatial_res_km := spatial_res_km;
           temporal_res := if has_data then Some "hourly"%string else None;
           coverage :=
             {| temporal_pct := temporal_pct;
                spatial_pct := if has_data then py_round (s_iou * 100)%float 1
                               else 0%float |};
           completeness_score :=
             if has_data then py_round (temporal_pct / 100)%float 3 else 0%float;
           suitability_for_task := if has_data then py_round score 3 else 0%float;
           tradeoffs := if has_data then ["coarse grid vs long record"%string] else [];
           record_length_days := record_length_days;
           gap_days := missing_days |} in
      let gaps :=
        {| missing_dates :=
             map (fun g => gap_start g +:+ ":" +:+ gap_end g) temporal_gaps;
           suspected_causes :=
             match temporal_gaps with [] => [] | _ :: _ => ["instrument outage"%string] end;
           mitigation :=
             match temporal_gaps with [] => [] | _ :: _ => ["blend with X"%string] end |} in
      let col_details := col_details_of cols coverage in
      inr ({| entry_query := query s;
              collections_found := length cols;
              granules_found := length grans;
              variables_found := length vars;
              providers := sorted (filter (fun p => nonempty p = true)
                                     (elements provider_set));
              example_collections := omap true_id titles;
              example_variables := example_vars;
              entry_temporal_coverage := coverage;
              spatial_extent := box;
              coverage_chart := coverage_chart;
              related_collections := map detail_concept_id col_details;
              resolutions := resolutions;
              latency_days := latency_days;
              temporal_gaps := temporal_gaps;
              entry_gaps := gaps;
              entry_quality := quality;
              score := py_round score 3 |},
           col_details)
  end.

(** The state carried through the loop over the searches. *)
Record running : Type := mkRunning {
  run_collections : Z;
  run_granules : Z;
  run_variables : Z;
  run_queries : list query_entry;
  run_related : option (list col_detail);
  run_node_collections : gset string;
  run_node_variables : gset string;
  run_node_instruments : gset string;
  run_edges : list edge
}.

Definition start_running : running :=
  {| run_collections := 0; run_granules := 0; run_variables := 0;
     run_queries := []; run_related := None;
     run_node_collections := ∅; run_node_variables := ∅;
     run_node_instruments := ∅; run_edges := [] |}.

(** One turn of the loop over the searches. *)
Definition analyze_step (temporal_constraint : option (string * string))
    (bbox_constraint : option bbox) (acc : exn + running) (s : search_result)
  : exn + running :=
  match acc with
  | inl e => inl e
  | inr r =>
      match analyze_search temporal_constraint bbox_constraint s with
      | inl e => inl e
      | inr (entry, col_details) =>
          let cols := items (collections s) in
          let vars := items (variables s) in
          inr {| run_collections := run_collections r + Z.of_nat (length cols);
                 run_granules := run_granules r + Z.of_nat (length (items (granules s)));
                 run_variables := run_variables r + Z.of_nat (length vars);
                 run_queries := run_queries r ++ [entry];
                 run_related :=
                   Some (match run_related r with Some l => l | None => [] end
                         ++ col_details);
                 run_node_collections :=
                   list_to_set (omap (fun c => true_id (meta_concept_id c)) cols)
                   ∪ run_node_collections r;
                 run_node_variables :=
                   list_to_set (omap (fun v => true_id (Name (item_umm v))) vars)
                   ∪ run_node_variables r;
                 run_node_instruments :=
                   list_to_set (flat_map instruments_of cols)
                   ∪ run_node_instruments r;
                 run_edges := run_edges r ++ flat_map collection_edges cols
                              ++ flat_map variable_edges vars |}
      end
  end.

(** [AnalysisAgent.run(cmr_results, temporal_constraint, bbox_constraint)];
    [cmr_results] is [None] when it is not a dict or has no ['searches']. *)
Definition run (cmr_results : option (list search_result))
    (temporal_constraint : option (string * string)) (bbox_constraint : option bbox)
  : exn + summary :=
  let searches := match cmr_results with Some l => l | None => [] end in
  match fold_left (analyze_step temporal_constraint bbox_constraint) searches
          (inr start_running) with
  | inl e => inl e
  | inr r =>
      inr {| total_collections := run_collections r;
             total_granules := run_granules r;
             total_variables := run_variables r;
             queries := run_queries r;
             summary_related_collections := run_related r;
             summary_knowledge_graph :=
               {| node_collections := sorted_set (run_node_collections r);
                  node_variables := sorted_set (run_node_variables r);
                  node_instruments := sorted_set (run_node_instruments r);
                  edges := run_edges r |};
             dataset_relationships := dataset_relationships_of (run_edges r);
             summary_results_paging := {| page := 1; paging_page_size := 50;
                                          next_token := EmptyString |};
             knowledge_links := [];
             data_refs :=
               map detail_concept_id
                 (firstn 2 (match run_related r with Some l => l | None => [] end));
             cross_collection_map :=
               cross_collection_map_of (map related_collections (run_queries r)) |}
  end.

End WithLibraries.

End Analysis.

(** * Theorems *)

(** ** The order of binary64 values

    [<?], [<=?] and [=?] on floats, read through their specification:
    on values that are not NaN they are a total preorder in which the
    two zeros are equal. *)

Module FloatOrder.

(** The place of a value in the order: its class (negative infinity,
    negative, zero, positive, positive infinity), then exponent and
    mantissa, both negated for a negative value. *)
Definition rank (f : spec_float) : Z * Z * Z :=
  match f with
  | S754_nan => (0, 0, 0)
  | S754_zero _ => (0, 0, 0)
  | S754_infinity true => (-2, 0, 0)
  | S754_infinity false => (2, 0, 0)
  | S754_finite false m e => (1, e, Zpos m)
  | S754_finite true m e => (-1, - e, Zneg m)
  end.

Definition lex_lt (a b : Z * Z * Z) : Prop :=
  fst (fst a) < fst (fst b)
  \/ (fst (fst a) = fst (fst b)
      /\ (snd (fst a) < snd (fst b)
          \/ (snd (fst a) = snd (fst b) /\ snd a < snd b))).

Definition not_nan (f : spec_float) : Prop :=
  match f with S754_nan => False | _ => True end.

Lemma compare_cont_Eq (m1 m2 : positive) :
  Pos.compare_cont Eq m1 m2 = (Zpos m1 ?= Zpos m2).
Proof. reflexivity. Qed.

Lemma SFltb_rank (f1 f2 : spec_float) :
  SFltb f1 f2 = true <-> not_nan f1 /\ not_nan f2 /\ lex_lt (rank f1) (rank f2).
Proof.
  unfold SFltb, lex_lt.
  destruct f1 as [[] | [] | | [] m1 e1], f2 as [[] | [] | | [] m2 e2];
    cbn [SFcompare rank not_nan fst snd];
    try (split; [discriminate | intros (? & ? & ?); lia || tauto]);
    try (split; [intros _; repeat split; lia | reflexivity]).
  - rewrite compare_cont_Eq.
    destruct (Z.compare_spec e1 e2), (Z.compare_spec (Zpos m1) (Zpos m2)); cbn;
      (split; [try discriminate; intros _; repeat split; lia
              | try reflexivity; intros (_ & _ & ?); lia]).
  - rewrite compare_cont_Eq.
    destruct (Z.compare_spec e1 e2), (Z.compare_spec (Zpos m1) (Zpos m2)); cbn;
      (split; [try discriminate; intros _; repeat split; lia
              | try reflexivity; intros (_ & _ & ?); lia]).
Qed.

Lemma SFleb_rank (f1 f2 : spec_float) :
  SFleb f1 f2 = true <->
  not_nan f1 /\ not_nan f2 /\ (lex_lt (rank f1) (rank f2) \/ rank f1 = rank f2).
Proof.
  unfold SFleb, lex_lt.
  destruct f1 as [[] | [] | | [] m1 e1], f2 as [[] | [] | | [] m2 e2];
    cbn [SFcompare rank not_nan fst snd];
    try (split; [discriminate | intros (? & ? & [? | ?]); (lia || tauto || congruence)]);
    try (split; [intros _; repeat split; (left; lia) || (right; reflexivity)
                | reflexivity]).
  - rewrite compare_cont_Eq.
    destruct (Z.compare_spec e1 e2), (Z.compare_spec (Zpos m1) (Zpos m2)); cbn;
      (split; [try discriminate; intros _; repeat split;
               (left; lia) || (right; congruence)
              | try reflexivity; intros (_ & _ & [? | Heq]);
                (lia || (inversion Heq; lia))]).
  - rewrite compare_cont_Eq.
    destruct (Z.compare_spec e1 e2), (Z.compare_spec (Zpos m1) (Zpos m2)); cbn;
      (split; [try discriminate; intros _; repeat split;
               (left; lia) || (right; congruence)
              | try reflexivity; intros (_ & _ & [? | Heq]);
                (lia || (inversion Heq; lia))]).
Qed.

Lemma SFeqb_rank (f1 f2 : spec_float) :
  SFeqb f1 f2 = true <-> not_nan f1 /\ not_nan f2 /\ rank f1 = rank f2.
Proof.
  unfold SFeqb.
  destruct f1 as [[] | [] | | [] m1 e1], f2 as [[] | [] | | [] m2 e2];
    cbn [SFcompare rank not_nan];
    try (split; [discriminate | intros (? & ? & ?); (tauto || congruence)]);
    try (split; [intros _; repeat split | reflexivity]).
  - rewrite compare_cont_Eq.
    destruct (Z.compare_spec e1 e2), (Z.compare_spec (Zpos m1) (Zpos m2)); cbn;
      (split; [try discriminate; intros _; repeat split; congruence
              | try reflexivity; intros (_ & _ & Heq); inversion Heq; lia]).
  - rewrite compare_cont_Eq.
    destruct (Z.compare_spec e1 e2), (Z.compare_spec (Zpos m1) (Zpos m2)); cbn;
      (split; [try discriminate; intros _; repeat split; congruence
              | try reflexivity; intros (_ & _ & Heq); inversion Heq; lia]).
Qed.

(** The three comparisons of floats. *)
Definition lt (x y : float) : Prop :=
  not_nan (Prim2SF x) /\ not_nan (Prim2SF y)
  /\ lex_lt (rank (Prim2SF x)) (rank (Prim2SF y)).

Definition le (x y : float) : Prop :=
  not_nan (Prim2SF x) /\ not_nan (Prim2SF y)
  /\ (lex_lt (rank (Prim2SF x)) (rank (Prim2SF y))
      \/ rank (Prim2SF x) = rank (Prim2SF y)).

Definition eq (x y : float) : Prop :=
  not_nan (Prim2SF x) /\ not_nan (Prim2SF y)
  /\ rank (Prim2SF x) = rank (Prim2SF y).

Lemma ltb_lt (x y : float) : (x <? y)%float = true <-> lt x y.
Proof. rewrite FloatAxioms.ltb_spec. apply SFltb_rank. Qed.

Lemma leb_le (x y : float) : (x <=? y)%float = true <-> le x y.
Proof. rewrite FloatAxioms.leb_spec. apply SFleb_rank. Qed.

Lemma eqb_eq (x y : float) : (x =? y)%float = true <-> eq x y.
Proof. rewrite FloatAxioms.eqb_spec. apply SFeqb_rank. Qed.

Lemma is_nan_false (x : float) : is_nan x = false <-> not_nan (Prim2SF x).
Proof.
  unfold is_nan. rewrite negb_false_iff, eqb_eq. unfold eq. tauto.
Qed.

Lemma triple_eq (c e m c' e' m' : Z) :
  (c, e, m) = (c', e', m') <-> c = c' /\ e = e' /\ m = m'.
Proof. split; [intros H; inversion H; auto | intros (-> & -> & ->); reflexivity]. Qed.

Ltac order :=
  repeat match goal with
         | H : (_ <? _)%float = true |- _ => apply ltb_lt in H
         | H : (_ <=? _)%float = true |- _ => apply leb_le in H
         | H : (_ =? _)%float = true |- _ => apply eqb_eq in H
         | H : is_nan _ = false |- _ => apply is_nan_false in H
         | H : (_ <? _)%float = false |- _ =>
             apply not_true_iff_false in H; rewrite ltb_lt in H
         | H : (_ <=? _)%float = false |- _ =>
             apply not_true_iff_false in H; rewrite leb_le in H
         | H : (_ =? _)%float = false |- _ =>
             apply not_true_iff_false in H; rewrite eqb_eq in H
         end;
  repeat match goal with
         | |- (_ <? _)%float = true => apply ltb_lt
         | |- (_ <=? _)%float = true => apply leb_le
         | |- (_ =? _)%float = true => apply eqb_eq
         | |- is_nan _ = false => apply is_nan_false
         | |- (_ <? _)%float = false => apply not_true_iff_false; rewrite ltb_lt
         | |- (_ <=? _)%float = false => apply not_true_iff_false; rewrite leb_le
         | |- (_ =? _)%float = false => apply not_true_iff_false; rewrite eqb_eq
         end;
  unfold lt, le, eq, lex_lt in *;
  repeat match goal with
         | |- context [rank (Prim2SF ?x)] =>
             let c := fresh "c" in let e := fresh "e" in let m := fresh "m" in
             destruct (rank (Prim2SF x)) as [[c e] m]
         | H : context [rank (Prim2SF ?x)] |- _ =>
             let c := fresh "c" in let e := fresh "e" in let m := fresh "m" in
             destruct (rank (Prim2SF x)) as [[c e] m]
         end;
  cbn [fst snd] in *;
  rewrite ?triple_eq in *;
  intuition (try lia; try congruence).

(** What is at most a value is not above it. *)
Lemma leb_ltb_false (x y : float) : (x <=? y)%float = true -> (y <? x)%float = false.
Proof. intros H. order. Qed.

(** Without NaN the order is total. *)
Lemma ltb_false_leb (x y : float) :
  is_nan x = false -> is_nan y = false ->
  (x <? y)%float = false -> (y <=? x)%float = true.
Proof.
  intros Hx Hy H. order.
Qed.

Lemma ltb_leb (x y : float) : (x <? y)%float = true -> (x <=? y)%float = true.
Proof. intros H. order. Qed.

Lemma ltb_not_nan (x y : float) :
  (x <? y)%float = true -> is_nan x = false /\ is_nan y = false.
Proof. intros H. split; order. Qed.

Lemma ltb_trans (x y z : float) :
  (x <? y)%float = true -> (y <? z)%float = true -> (x <? z)%float = true.
Proof. intros H1 H2. order. Qed.

Lemma ltb_leb_trans (x y z : float) :
  (x <? y)%float = true -> (y <=? z)%float = true -> (x <? z)%float = true.
Proof. intros H1 H2. order. Qed.

(** A value above another is not equal to it; so what is above a
    positive value is not zero. *)
Lemma ltb_eqb_false (x y : float) : (x <? y)%float = true -> (y =? x)%float = false.
Proof. intros H. order. Qed.

End FloatOrder.

(** ** Properties of the circuit breaker *)

Module CircuitSpec.
Import Circuit FloatOrder.

Lemma truthy_false (x : float) : truthy x = false <-> (x =? 0)%float = true.
Proof. unfold truthy. apply negb_false_iff. Qed.

(** [allow] is [True] exactly outside an open window: the window is
    unset, or the clock is not below its end. *)
Lemma allow_true_iff (cb : CircuitBreaker) (now : float) :
  allow cb now = true <->
  ((open_until cb =? 0)%float = true \/ (now <? open_until cb)%float = false).
Proof.
  unfold allow, truthy.
  destruct (open_until cb =? 0)%float, (now <? open_until cb)%float; cbn;
    intuition discriminate.
Qed.

Lemma allow_false_iff (cb : CircuitBreaker) (now : float) :
  allow cb now = false <->
  ((open_until cb =? 0)%float = false /\ (now <? open_until cb)%float = true).
Proof.
  unfold allow, truthy.
  destruct (open_until cb =? 0)%float, (now <? open_until cb)%float; cbn;
    intuition discriminate.
Qed.

(** With a clock and a window end that are numbers, "not below" is
    "at or past". *)
Lemma allow_true_at_or_past (cb : CircuitBreaker) (now : float) :
  is_nan now = false -> is_nan (open_until cb) = false ->
  (allow cb now = true <->
   ((open_until cb =? 0)%float = true \/ (open_until cb <=? now)%float = true)).
Proof.
  intros Hnow Huntil. rewrite allow_true_iff. split; (intros [H | H]; [now left | right]).
  - now apply ltb_false_leb.
  - now apply leb_ltb_false.
Qed.

(** A window that ends above a clock reading that is at or past a
    positive one is set: its end is not zero. *)
Lemma window_set (t_last t until : float) :
  (0 <? t_last)%float = true -> (t_last <=? t)%float = true ->
  (t <? until)%float = true -> (until =? 0)%float = false.
Proof.
  intros Hpos Hge Hlt. apply ltb_eqb_false.
  apply (ltb_trans _ t); [| exact Hlt]. now apply (ltb_leb_trans _ t_last).
Qed.

Lemma fail_all_snoc (cb : CircuitBreaker) (times : list float) (t : float) :
  fail_all cb (times ++ [t]) = record_failure (fail_all cb times) t.
Proof. unfold fail_all. now rewrite fold_left_app. Qed.

Lemma fail_all_config (cb : CircuitBreaker) (times : list float) :
  failure_threshold (fail_all cb times) = failure_threshold cb /\
  recovery_time_seconds (fail_all cb times) = recovery_time_seconds cb /\
  failures (fail_all cb times) = failures cb + Z.of_nat (length times).
Proof.
  revert cb. induction times as [| t times IH]; intros cb.
  - cbn. repeat split; lia.
  - change (fail_all cb (t :: times)) with (fail_all (record_failure cb t) times).
    destruct (IH (record_failure cb t)) as (Ht & Hr & Hf).
    rewrite Ht, Hr, Hf. cbn [record_failure failure_threshold recovery_time_seconds failures length].
    repeat split; lia.
Qed.

(** A failure that brings the count to the threshold opens the window
    at the clock value of that failure. *)
Lemma fail_all_opens (cb : CircuitBreaker) (times : list float) (t_last : float) :
  failure_threshold cb <= failures cb + Z.of_nat (length times) + 1 ->
  open_until (fail_all cb (times ++ [t_last]))
  = (t_last + float_of_int (recovery_time_seconds cb))%float.
Proof.
  intros Hreach. rewrite fail_all_snoc.
  destruct (fail_all_config cb times) as (Ht & Hr & Hf).
  cbn [record_failure open_until]. rewrite Ht, Hr, Hf.
  destruct (Z.leb_spec (failure_threshold cb)
              (failures cb + Z.of_nat (length times) + 1)); [reflexivity | lia].
Qed.

(** Calls to [allow] leave the breaker as it is. *)
Lemma perform_all_allow (cb : CircuitBreaker) (cs : list call) :
  forallb is_allow cs = true -> perform_all cb cs = cb.
Proof.
  revert cb. induction cs as [| c cs IH]; intros cb Hall; [reflexivity |].
  cbn in Hall. apply andb_true_iff in Hall as [Hc Hcs].
  destruct c; try discriminate.
  cbn. now apply IH.
Qed.

(** The sum [time.time() + recovery_time_seconds] is rounded to a
    binary64: a failure at the clock reading 0.2 with a recovery time
    of 30 opens the window until the float 30.2, and at that reading
    [allow] is true again. *)
Example window_ends_at_the_float_sum :
  open_until (record_failure (init 1 30) 0.2) = 30.2%float /\
  allow (record_failure (init 1 30) 0.2) 30.2 = true /\
  allow (record_failure (init 1 30) 0.2) 30.1 = false.
Proof. repeat split. Qed.

(** C1. The contract of [CircuitBreaker], in the binary64 arithmetic of
    the code: [allow] is true iff the open window is unset (zero) or
    the clock is not below its end, that is, at or past it;
    [record_success] resets the failure count and clears the window;
    [record_failure] increments the count and, once it reaches
    [failure_threshold] (default 5), opens the window until the sum of
    the clock of that failure and [recovery_time_seconds] (default 30);
    so after [failure_threshold] failures in a row [allow] is false
    from the last failure until the clock reaches that sum, and true
    from then on. *)
Theorem circuit_breaker_contract :
  (failure_threshold default = 5 /\ recovery_time_seconds default = 30 /\
   failures default = 0 /\ open_until default = 0%float) /\
  (forall cb now,
      (allow cb now = true <->
       ((open_until cb =? 0)%float = true \/ (now <? open_until cb)%float = false)) /\
      (is_nan now = false -> is_nan (open_until cb) = false ->
       (allow cb now = true <->
        ((open_until cb =? 0)%float = true \/ (open_until cb <=? now)%float = true)))) /\
  (forall cb,
      failures (record_success cb) = 0 /\
      open_until (record_success cb) = 0%float /\
      failure_threshold (record_success cb) = failure_threshold cb /\
      recovery_time_seconds (record_success cb) = recovery_time_seconds cb) /\
  (forall cb now,
      failures (record_failure cb now) = failures cb + 1 /\
      (failure_threshold cb <= failures cb + 1 ->
       open_until (record_failure cb now)
       = (now + float_of_int (recovery_time_seconds cb))%float) /\
      (failures cb + 1 < failure_threshold cb ->
       open_until (record_failure cb now) = open_until cb)) /\
  (forall cb times t_last t,
      failures cb = 0 ->
      Z.of_nat (length (times ++ [t_last])) = failure_threshold cb ->
      (0 <? t_last)%float = true ->
      let cb' := fail_all cb (times ++ [t_last]) in
      let until := (t_last + float_of_int (recovery_time_seconds cb))%float in
      failures cb' = failure_threshold cb /\
      open_until cb' = until /\
      ((t_last <=? t)%float = true -> (t <? until)%float = true ->
       allow cb' t = false) /\
      ((until <=? t)%float = true -> allow cb' t = true)).
Proof.
  split; [now cbn |].
  split; [intros cb now; split; [apply allow_true_iff | apply allow_true_at_or_past] |].
  split; [now cbn |].
  split.
  - intros cb now. cbn [record_failure failures open_until].
    split; [reflexivity |]. split; intros H.
    + destruct (Z.leb_spec (failure_threshold cb) (failures cb + 1)); [reflexivity | lia].
    + destruct (Z.leb_spec (failure_threshold cb) (failures cb + 1)); [lia | reflexivity].
  - intros cb times t_last t Hzero Hlen Hpos cb' until.
    rewrite length_app in Hlen. cbn [length] in Hlen.
    assert (Hopen : open_until cb' = until).
    { apply fail_all_opens. lia. }
    destruct (fail_all_config cb (times ++ [t_last])) as (_ & _ & Hf).
    rewrite length_app in Hf. cbn [length] in Hf.
    split; [subst cb'; lia |]. split; [exact Hopen |]. split.
    + intros Hge Hlt. apply allow_false_iff. rewrite Hopen.
      split; [now apply (window_set t_last t) | exact Hlt].
    + intros Hge. apply allow_true_iff. right. rewrite Hopen.
      now apply leb_ltb_false.
Qed.

(** Five failures at clock values 100 .. 104 on a default breaker:
    closed again at 134, still open at 133.5. *)
Lemma circuit_breaker_contract_witness :
  allow (fail_all default [100; 101; 102; 103; 104]%float) 133.5 = false /\
  allow (fail_all default [100; 101; 102; 103; 104]%float) 134 = true.
Proof.
  destruct circuit_breaker_contract as (_ & _ & _ & _ & H).
  destruct (H default [100; 101; 102; 103]%float 104%float 133.5%float)
    as (_ & _ & Hclosed & _);
    [reflexivity | reflexivity | reflexivity |].
  destruct (H default [100; 101; 102; 103]%float 104%float 134%float)
    as (_ & _ & _ & Hopen);
    [reflexivity | reflexivity | reflexivity |].
  split.
  - apply Hclosed; reflexivity.
  - apply Hopen. reflexivity.
Defined.

(** C10. Once the failure count has reached the threshold, neither the
    passing of time nor calls to [allow] (at any clock values) change
    it; so without a [record_success] in between, one more
    [record_failure] at clock [now] opens the breaker again, until the
    (binary64) sum of [now] and [recovery_time_seconds], whatever
    became of the old window. *)
Theorem tripped_breaker_reopens_on_next_failure
    (cb : CircuitBreaker) (cs : list call) (now t : float) :
  failure_threshold cb <= failures cb ->
  forallb is_allow cs = true ->
  (0 <? now)%float = true ->
  let cb1 := perform_all cb cs in
  let cb2 := record_failure cb1 now in
  let until := (now + float_of_int (recovery_time_seconds cb))%float in
  failures cb1 = failures cb /\
  open_until cb1 = open_until cb /\
  open_until cb2 = until /\
  ((now <=? t)%float = true -> (t <? until)%float = true -> allow cb2 t = false) /\
  ((until <=? t)%float = true -> allow cb2 t = true).
Proof.
  intros Hreached Hallow Hpos. cbv zeta.
  rewrite (perform_all_allow cb cs Hallow).
  assert (Hopen : open_until (record_failure cb now)
                  = (now + float_of_int (recovery_time_seconds cb))%float).
  { cbn [record_failure open_until].
    destruct (Z.leb_spec (failure_threshold cb) (failures cb + 1)); [reflexivity | lia]. }
  repeat split; try assumption.
  - intros Hge Hlt. apply allow_false_iff. rewrite Hopen.
    split; [now apply (window_set now t) | exact Hlt].
  - intros Hge. apply allow_true_iff. right. rewrite Hopen.
    now apply leb_ltb_false.
Qed.

(** A default breaker tripped at clock 104; the window lapses, [allow]
    is asked at 140 and 150, then one failure at 200 closes it until 230. *)
Lemma tripped_breaker_reopens_witness :
  let cb := fail_all default [100; 101; 102; 103; 104]%float in
  allow cb 140 = true /\
  allow (record_failure (perform_all cb [CallAllow 140; CallAllow 150]) 200) 229 = false.
Proof.
  intros cb. split; [reflexivity |].
  destruct (tripped_breaker_reopens_on_next_failure cb
              [CallAllow 140; CallAllow 150] 200%float 229%float)
    as (_ & _ & _ & Hclosed & _).
  - cbn. lia.
  - reflexivity.
  - reflexivity.
  - apply Hclosed; reflexivity.
Defined.

End CircuitSpec.

(** ** Properties of the resilient search client *)

Module ClientSpec.
Import Circuit Client FloatOrder CircuitSpec.

(** The exception one request ends in, if any: a transport failure, or
    [raise_for_status] on a status outside 2xx. *)
Definition request_error {J : Type} (res : http_result J) : option exn :=
  match res with
  | TransportFailure msg => Some (HTTPError msg)
  | HttpResponse r =>
      if is_success (status_code r) then None
      else Some (HTTPError "HTTPStatusError")
  end.

Lemma is_success_2xx (status : Z) :
  is_success status = true <-> 200 <= status <= 299.
Proof. unfold is_success. rewrite andb_true_iff, !Z.leb_le. tauto. Qed.

Lemma safe_get_wait_bounds (k : nat) :
  (0.5 <=? safe_get_wait k)%float = true /\ (safe_get_wait k <=? 3)%float = true.
Proof.
  unfold safe_get_wait, wait_exponential.
  set (result := (0.5 * float_of_int (2 ^ (Z.of_nat k - 1)))%float).
  change (py_max 0 0.5) with 0.5%float.
  unfold py_max, py_min.
  destruct (3 <? result)%float eqn:H3.
  - change (0.5 <? 3)%float with true. cbv iota. split; reflexivity.
  - destruct (0.5 <? result)%float eqn:Hh.
    + split; [now apply ltb_leb |].
      destruct (ltb_not_nan _ _ Hh) as [_ Hnan].
      now apply ltb_false_leb.
    + split; reflexivity.
Qed.

Lemma safe_get_wait_values :
  safe_get_wait 1 = 0.5%float /\ safe_get_wait 2 = 1%float.
Proof. split; vm_compute; reflexivity. Qed.

Section WithNetwork.

Context {P J : Type}.
Variable net : nat -> string -> P -> float * http_result J.
Variable path : string.
Variable params : P.

Lemma attempt_open (w : world) :
  allow (circuit w) (now w) = false ->
  attempt net path params w = (inl circuit_open_error, w).
Proof. intros H. unfold attempt. now rewrite H. Qed.

Lemma attempt_failure (w : world) (latency : float) (res : http_result J) (e : exn) :
  allow (circuit w) (now w) = true ->
  net (sent w) path params = (latency, res) ->
  request_error res = Some e ->
  attempt net path params w
  = (inl e, set_circuit (after_request w latency)
              (record_failure (circuit w) (now w + latency)%float)).
Proof.
  intros Ha Hn He. unfold attempt. rewrite Ha, Hn. cbn [negb].
  destruct res as [msg | r]; cbn in He.
  - now inversion He.
  - destruct (is_success (status_code r)); [discriminate | now inversion He].
Qed.

Lemma attempt_success (w : world) (latency : float) (r : response J) :
  allow (circuit w) (now w) = true ->
  net (sent w) path params = (latency, HttpResponse r) ->
  is_success (status_code r) = true ->
  attempt net path params w
  = (inr r, set_circuit (after_request w latency) (record_success (circuit w))).
Proof.
  intros Ha Hn Hs. unfold attempt. now rewrite Ha, Hn, Hs.
Qed.

(** The retry loop makes between one and [remaining + 1] attempts,
    sleeps [wait k] after each failed attempt [k] but the last, and
    fails only with a [RetryError] once every attempt is used. *)
Lemma retry_loop_spec (wait : nat -> float) (remaining : nat) :
  forall (attempt_number : nat) (w : world),
    let '(res, n, w') := retry_loop net wait path params remaining attempt_number w in
    (attempt_number <= n <= attempt_number + remaining)%nat /\
    slept w' = slept w ++ map wait (seq attempt_number (n - attempt_number)) /\
    (forall e, res = inl e ->
               n = (attempt_number + remaining)%nat /\ exists last, e = RetryError last).
Proof.
  induction remaining as [| remaining IH]; intros attempt_number w; cbn [retry_loop].
  - destruct (attempt net path params w) as [[e | r] w1] eqn:Hatt.
    + assert (Hs : slept w1 = slept w).
      { unfold attempt in Hatt.
        destruct (negb (allow (circuit w) (now w))); [now inversion Hatt |].
        destruct (net (sent w) path params) as [lat [msg | r]].
        - now inversion Hatt.
        - destruct (is_success (status_code r)); now inversion Hatt. }
      rewrite Nat.sub_diag. cbn [seq map]. rewrite app_nil_r.
      split; [lia |]. split; [exact Hs |].
      intros e' He'. inversion He'. split; [lia | eauto].
    + assert (Hs : slept w1 = slept w).
      { unfold attempt in Hatt.
        destruct (negb (allow (circuit w) (now w))); [now inversion Hatt |].
        destruct (net (sent w) path params) as [lat [msg | r']].
        - now inversion Hatt.
        - destruct (is_success (status_code r')); now inversion Hatt. }
      rewrite Nat.sub_diag. cbn [seq map]. rewrite app_nil_r.
      split; [lia |]. split; [exact Hs |]. intros e He. discriminate.
  - destruct (attempt net path params w) as [[e | r] w1] eqn:Hatt.
    + assert (Hs : slept w1 = slept w).
      { unfold attempt in Hatt.
        destruct (negb (allow (circuit w) (now w))); [now inversion Hatt |].
        destruct (net (sent w) path params) as [lat [msg | r]].
        - now inversion Hatt.
        - destruct (is_success (status_code r)); now inversion Hatt. }
      specialize (IH (S attempt_number) (sleep w1 (wait attempt_number))).
      destruct (retry_loop net wait path params remaining (S attempt_number)
                  (sleep w1 (wait attempt_number))) as [[res n] w'].
      destruct IH as (Hn & Hsl & Herr).
      split; [lia |]. split.
      * rewrite Hsl. cbn [sleep slept]. rewrite Hs, <- app_assoc.
        replace (n - attempt_number)%nat with (S (n - S attempt_number)) by lia.
        reflexivity.
      * intros e' He'. destruct (Herr e' He') as [Hn' Hlast]. split; [lia | exact Hlast].
    + assert (Hs : slept w1 = slept w).
      { unfold attempt in Hatt.
        destruct (negb (allow (circuit w) (now w))); [now inversion Hatt |].
        destruct (net (sent w) path params) as [lat [msg | r']].
        - now inversion Hatt.
        - destruct (is_success (status_code r')); now inversion Hatt. }
      rewrite Nat.sub_diag. cbn [seq map]. rewrite app_nil_r.
      split; [lia |]. split; [exact Hs |]. intros e He. discriminate.
Qed.

(** [_safe_get] is three attempts at most, with the two sleeps between. *)
Lemma safe_get_unfold (w : world) :
  _safe_get net path params w
  = match attempt net path params w with
    | (inr r, w1) => (inr r, 1%nat, w1)
    | (inl _, w1) =>
        match attempt net path params (sleep w1 (safe_get_wait 1)) with
        | (inr r, w2) => (inr r, 2%nat, w2)
        | (inl _, w2) =>
            match attempt net path params (sleep w2 (safe_get_wait 2)) with
            | (inr r, w3) => (inr r, 3%nat, w3)
            | (inl e, w3) => (inl (RetryError e), 3%nat, w3)
            end
        end
    end.
Proof.
  unfold _safe_get, stop_after_attempt. cbn [Nat.sub retry_loop].
  destruct (attempt net path params w) as [[e1 | r1] w1]; [| reflexivity].
  destruct (attempt net path params (sleep w1 (safe_get_wait 1))) as [[e2 | r2] w2];
    [| reflexivity].
  reflexivity.
Qed.

(** A breaker that is open at the clock readings of the three
    attempts (at the call, 0.5 s later and 1 s after that) uses them up
    without a request and without a recorded failure. *)
Lemma safe_get_open (w : world) :
  allow (circuit w) (now w) = false ->
  allow (circuit w) (now w + 0.5)%float = false ->
  allow (circuit w) (now w + 0.5 + 1)%float = false ->
  _safe_get net path params w
  = (inl (RetryError circuit_open_error), 3%nat,
     sleep (sleep w (safe_get_wait 1)) (safe_get_wait 2)).
Proof.
  intros Hopen0 Hopen1 Hopen2. rewrite safe_get_unfold.
  destruct safe_get_wait_values as [H1 H2].
  rewrite attempt_open by exact Hopen0.
  rewrite attempt_open by (cbn [sleep circuit now]; rewrite H1; exact Hopen1).
  rewrite attempt_open by (cbn [sleep circuit now]; rewrite H1, H2; exact Hopen2).
  reflexivity.
Qed.

(** C2. One call of the search client.  An attempt on an open breaker
    fails at once with the circuit-open error and leaves breaker, clock
    and network untouched; an attempt whose request fails (transport
    error or status outside 2xx) records exactly one breaker failure and
    raises that error; a successful attempt records one breaker success
    and returns the response, whose decoded body [search] returns.  The
    attempt is repeated up to 3 times, sleeping 0.5 s and then 1 s
    (0.5 * 2^(k-1), kept within 0.5 and 3); an attempt on an open breaker
    counts, and three failed attempts end in [RetryError]: so a breaker
    that is open at the clock readings of the three attempts ends the
    call in a [RetryError] around the circuit-open error, no request
    sent. *)
Theorem search_client_contract (w : world) :
  (allow (circuit w) (now w) = false ->
   attempt net path params w = (inl circuit_open_error, w)) /\
  (forall latency res e,
      allow (circuit w) (now w) = true ->
      net (sent w) path params = (latency, res) ->
      request_error res = Some e ->
      let cb' := record_failure (circuit w) (now w + latency)%float in
      attempt net path params w = (inl e, set_circuit (after_request w latency) cb') /\
      failures cb' = failures (circuit w) + 1) /\
  (forall latency r,
      allow (circuit w) (now w) = true ->
      net (sent w) path params = (latency, HttpResponse r) ->
      200 <= status_code r <= 299 ->
      let cb' := record_success (circuit w) in
      attempt net path params w = (inr r, set_circuit (after_request w latency) cb') /\
      failures cb' = 0 /\ open_until cb' = 0%float) /\
  (_safe_get net path params w
   = match attempt net path params w with
     | (inr r, w1) => (inr r, 1%nat, w1)
     | (inl _, w1) =>
         match attempt net path params (sleep w1 (safe_get_wait 1)) with
         | (inr r, w2) => (inr r, 2%nat, w2)
         | (inl _, w2) =>
             match attempt net path params (sleep w2 (safe_get_wait 2)) with
             | (inr r, w3) => (inr r, 3%nat, w3)
             | (inl e, w3) => (inl (RetryError e), 3%nat, w3)
             end
         end
     end) /\
  (let '(res, n, w') := _safe_get net path params w in
   (1 <= n <= 3)%nat /\
   slept w' = slept w ++ firstn (n - 1) [safe_get_wait 1; safe_get_wait 2] /\
   (forall e, res = inl e ->
              n = 3%nat /\ exists last, e = RetryError last) /\
   (forall r j, res = inr r -> resp_json r = Some j ->
                search net path params w = (inr j, w'))) /\
  (safe_get_wait 1 = 0.5%float /\ safe_get_wait 2 = 1%float /\
   forall k, (0.5 <=? safe_get_wait k)%float = true
             /\ (safe_get_wait k <=? 3)%float = true) /\
  (allow (circuit w) (now w) = false ->
   allow (circuit w) (now w + 0.5)%float = false ->
   allow (circuit w) (now w + 0.5 + 1)%float = false ->
   _safe_get net path params w
   = (inl (RetryError circuit_open_error), 3%nat,
      sleep (sleep w (safe_get_wait 1)) (safe_get_wait 2))).
Proof.
  split; [apply attempt_open |].
  split.
  { intros latency res e Ha Hn He. cbv zeta. split; [now apply (attempt_failure w latency res e) | reflexivity]. }
  split.
  { intros latency r Ha Hn Hs. cbv zeta. split; [| split; reflexivity].
    apply attempt_success; try assumption. now apply is_success_2xx. }
  split; [apply safe_get_unfold |].
  split.
  { pose proof (retry_loop_spec safe_get_wait (stop_after_attempt - 1) 1 w) as Hspec.
    unfold search. fold (_safe_get net path params w) in Hspec.
    destruct (_safe_get net path params w) as [[res n] w'].
    destruct Hspec as (Hn & Hsl & Herr). unfold stop_after_attempt in *.
    split; [lia |]. split.
    - rewrite Hsl. f_equal.
      assert (Hcases : (n = 1 \/ n = 2 \/ n = 3)%nat) by lia.
      destruct Hcases as [-> | [-> | ->]]; reflexivity.
    - split.
      + intros e He. destruct (Herr e He) as [Hn' Hlast]. split; [lia | exact Hlast].
      + intros r j -> Hj. now rewrite Hj. }
  split.
  { destruct safe_get_wait_values as [H1 H2].
    split; [exact H1 |]. split; [exact H2 | exact safe_get_wait_bounds]. }
  apply safe_get_open.
Qed.

End WithNetwork.

(** Three clients at clock 1000.  A fresh breaker against a server that
    refuses every connection: the attempt records one failure.  A fresh
    breaker against a server that answers 200: the attempt records a
    success.  A breaker tripped at clock 999, so open until 1029: three
    attempts, no request, sleeps of 0.5 s and 1 s, and a [RetryError]
    around the circuit-open error. *)
Definition refusing_net : nat -> string -> unit -> float * http_result unit :=
  fun _ _ _ => (0%float, TransportFailure "connection refused").

Definition answering_net : nat -> string -> unit -> float * http_result unit :=
  fun _ _ _ => (0%float, HttpResponse {| status_code := 200; resp_json := Some tt |}).

Definition fresh_world : world :=
  {| circuit := default; now := 1000; sent := 0; slept := [] |}.

Definition tripped_world : world :=
  {| circuit := fail_all default [995; 996; 997; 998; 999]%float;
     now := 1000; sent := 5; slept := [] |}.

Lemma search_client_contract_witness :
  (attempt refusing_net "/search/collections.umm_json" tt fresh_world
   = (inl (HTTPError "connection refused"),
      set_circuit (after_request fresh_world 0)
        (record_failure default (1000 + 0)%float)) /\
   failures (record_failure default (1000 + 0)%float) = 1) /\
  (attempt answering_net "/search/collections.umm_json" tt fresh_world
   = (inr {| status_code := 200; resp_json := Some tt |},
      set_circuit (after_request fresh_world 0) (record_success default)) /\
   failures (record_success default) = 0 /\
   open_until (record_success default) = 0%float) /\
  _safe_get refusing_net "/search/collections.umm_json" tt tripped_world
  = (inl (RetryError circuit_open_error), 3%nat,
     sleep (sleep tripped_world (safe_get_wait 1)) (safe_get_wait 2)).
Proof.
  split; [| split].
  - destruct (search_client_contract refusing_net "/search/collections.umm_json" tt
                fresh_world) as (_ & Hfail & _).
    apply (Hfail 0%float (TransportFailure "connection refused")
             (HTTPError "connection refused")); reflexivity.
  - destruct (search_client_contract answering_net "/search/collections.umm_json" tt
                fresh_world) as (_ & _ & Hok & _).
    apply (Hok 0%float {| status_code := 200; resp_json := Some tt |});
      [reflexivity | reflexivity | cbn; lia].
  - destruct (search_client_contract refusing_net "/search/collections.umm_json" tt
                tripped_world) as (_ & _ & _ & _ & _ & _ & Hopen).
    apply Hopen; reflexivity.
Defined.

End ClientSpec.

(** ** Properties of the constraint inference *)

Module UtilsSpec.
Import Str Utils.

(** Least and greatest element of a list, by folding. *)
Definition minimum (l : list Z) : Z := fold_right Z.min (first_of l) l.
Definition maximum (l : list Z) : Z := fold_right Z.max (first_of l) l.

(** The distinct years found in a text. *)
Definition distinct_years (text : string) : list Z := remove_dups (years_of text).

Lemma fold_min_lower (d : Z) (l : list Z) :
  fold_right Z.min d l <= d /\ forall x, In x l -> fold_right Z.min d l <= x.
Proof.
  induction l as [| a l [IHd IHl]]; cbn [fold_right].
  - split; [lia | intros x []].
  - split; [lia |]. intros x [-> | Hx]; [lia |]. specialize (IHl x Hx). lia.
Qed.

Lemma fold_min_in (d : Z) (l : list Z) :
  fold_right Z.min d l = d \/ In (fold_right Z.min d l) l.
Proof.
  induction l as [| a l IH]; cbn [fold_right]; [now left |].
  destruct (Z.min_spec a (fold_right Z.min d l)) as [[_ ->] | [_ ->]].
  - right. now left.
  - destruct IH as [-> | IH]; [now left | right; now right].
Qed.

Lemma fold_max_upper (d : Z) (l : list Z) :
  d <= fold_right Z.max d l /\ forall x, In x l -> x <= fold_right Z.max d l.
Proof.
  induction l as [| a l [IHd IHl]]; cbn [fold_right].
  - split; [lia | intros x []].
  - split; [lia |]. intros x [-> | Hx]; [lia |]. specialize (IHl x Hx). lia.
Qed.

Lemma fold_max_in (d : Z) (l : list Z) :
  fold_right Z.max d l = d \/ In (fold_right Z.max d l) l.
Proof.
  induction l as [| a l IH]; cbn [fold_right]; [now left |].
  destruct (Z.max_spec a (fold_right Z.max d l)) as [[_ ->] | [_ ->]].
  - destruct IH as [-> | IH]; [now left | right; now right].
  - right. now left.
Qed.

Lemma minimum_spec (l : list Z) :
  l <> [] -> In (minimum l) l /\ forall x, In x l -> minimum l <= x.
Proof.
  intros Hne. unfold minimum. split.
  - destruct (fold_min_in (first_of l) l) as [-> | H]; [| exact H].
    destruct l; [congruence | now left].
  - apply fold_min_lower.
Qed.

Lemma maximum_spec (l : list Z) :
  l <> [] -> In (maximum l) l /\ forall x, In x l -> x <= maximum l.
Proof.
  intros Hne. unfold maximum. split.
  - destruct (fold_max_in (first_of l) l) as [-> | H]; [| exact H].
    destruct l; [congruence | now left].
  - apply fold_max_upper.
Qed.

(** The head of a sorted list is below, and its last element above,
    every element. *)
Lemma sorted_first_last (s : list Z) :
  StronglySorted Z.le s -> s <> [] ->
  (In (first_of s) s /\ forall x, In x s -> first_of s <= x) /\
  (In (last_of s) s /\ forall x, In x s -> x <= last_of s).
Proof.
  induction 1 as [| a s Hs IH Hall]; [congruence |]. intros _.
  rewrite Forall_forall in Hall. split.
  - split; [now left |]. intros x [-> | Hx]; [cbn; lia |].
    apply Hall. now apply list_elem_of_In.
  - destruct s as [| b s]; [cbn; split; [now left | intros x [-> | []]; lia] |].
    destruct IH as [_ [Hin Hup]]; [congruence |].
    change (last_of (a :: b :: s)) with (last_of (b :: s)).
    split; [now right |]. intros x [-> | Hx]; [| now apply Hup].
    transitivity b; [apply Hall; left | apply Hup; now left].
Qed.

Lemma sort_first_last (l : list Z) :
  l <> [] ->
  first_of (merge_sort Z.le l) = minimum l /\
  last_of (merge_sort Z.le l) = maximum l.
Proof.
  intros Hne.
  pose proof (merge_sort_Permutation Z.le l) as Hperm.
  assert (Hsne : merge_sort Z.le l <> []).
  { intros H. rewrite H in Hperm. apply Permutation_nil in Hperm. congruence. }
  destruct (sorted_first_last (merge_sort Z.le l)) as [[Hf Hfl] [Hl Hlu]];
    [apply StronglySorted_merge_sort; apply _ | exact Hsne |].
  destruct (minimum_spec l Hne) as [Hm Hml].
  destruct (maximum_spec l Hne) as [HM HMu].
  assert (Hto : forall x, In x (merge_sort Z.le l) <-> In x l).
  { intros x. rewrite <- !list_elem_of_In. now rewrite Hperm. }
  split; apply Z.le_antisymm.
  - apply Hfl, Hto, Hm.
  - apply Hml, Hto, Hf.
  - apply HMu, Hto, Hl.
  - apply Hlu, Hto, HM.
Qed.

Lemma digit_value_range (c : ascii) :
  is_digit c = true -> 0 <= digit_value c <= 9.
Proof.
  unfold is_digit, in_range, digit_value. rewrite andb_true_iff, !N.leb_le. lia.
Qed.

Lemma digit_char_value (c : ascii) :
  is_digit c = true -> digit_char (digit_value c) = c.
Proof.
  intros H. pose proof (digit_value_range c H) as Hr.
  unfold digit_char. rewrite Z.mod_small by lia. unfold digit_value in *.
  replace (Z.to_N (Z.of_N (code c) - 48) + 48)%N with (code c) by lia.
  apply ascii_N_embedding.
Qed.

Lemma year4_digits (a b c d : Z) :
  0 <= a <= 9 -> 0 <= b <= 9 -> 0 <= c <= 9 -> 0 <= d <= 9 ->
  year4 (1000 * a + 100 * b + 10 * c + d)
  = String (digit_char a) (String (digit_char b)
      (String (digit_char c) (String (digit_char d) EmptyString))).
Proof.
  intros Ha Hb Hc Hd. unfold year4, digit_char.
  set (y := 1000 * a + 100 * b + 10 * c + d).
  replace ((y / 1000) mod 10) with (a mod 10)
    by (subst y; Z.to_euclidean_division_equations; lia).
  replace ((y / 100) mod 10) with (b mod 10)
    by (subst y; Z.to_euclidean_division_equations; lia).
  replace ((y / 10) mod 10) with (c mod 10)
    by (subst y; Z.to_euclidean_division_equations; lia).
  replace (y mod 10) with (d mod 10)
    by (subst y; Z.to_euclidean_division_equations; lia).
  reflexivity.
Qed.

Lemma int_four (a b c d : ascii) :
  int (String a (String b (String c (String d EmptyString))))
  = 1000 * digit_value a + 100 * digit_value b + 10 * digit_value c + digit_value d.
Proof. unfold int. cbn [list_ascii_of_string fold_left]. lia. Qed.

(** A match of the year pattern is four characters of the text that
    read as a number from 1900 to 2099 and print back as themselves. *)
Lemma year_at_spec (s y : string) :
  year_at s = Some y ->
  startswith y s = true /\ String.length y = 4%nat /\
  1900 <= int y <= 2099 /\ year4 (int y) = y.
Proof.
  destruct s as [| a [| b [| c [| d s]]]]; try discriminate. cbn [year_at].
  destruct (is_digit c) eqn:Hc; [| rewrite andb_false_r; discriminate].
  destruct (is_digit d) eqn:Hd; [| rewrite andb_false_r; discriminate].
  rewrite !andb_true_r.
  pose proof (digit_value_range c Hc) as Rc. pose proof (digit_value_range d Hd) as Rd.
  assert (Hab : ((a =? "1")%char && (b =? "9")%char) || ((a =? "2")%char && (b =? "0")%char) = true ->
                (a = "1"%char /\ b = "9"%char) \/ (a = "2"%char /\ b = "0"%char)).
  { rewrite orb_true_iff, !andb_true_iff, !Ascii.eqb_eq. tauto. }
  destruct (((a =? "1")%char && (b =? "9")%char) || ((a =? "2")%char && (b =? "0")%char));
    [| discriminate].
  intros Hy. inversion Hy; subst y; clear Hy.
  cbn [startswith]. rewrite !Ascii.eqb_refl. cbn [andb String.length].
  rewrite int_four.
  assert (Ra : 0 <= digit_value a <= 9 /\ 0 <= digit_value b <= 9 /\
               19 <= 10 * digit_value a + digit_value b <= 20 /\
               digit_char (digit_value a) = a /\ digit_char (digit_value b) = b).
  { destruct (Hab eq_refl) as [[-> ->] | [-> ->]]; vm_compute; repeat split; congruence. }
  destruct Ra as (Ra & Rb & Rab & Pa & Pb).
  repeat split; try lia.
  rewrite year4_digits by assumption.
  rewrite Pa, Pb, (digit_char_value c Hc), (digit_char_value d Hd). reflexivity.
Qed.

Lemma findall_from_years (skip : nat) (s : string) :
  Forall (fun y => 1900 <= int y <= 2099 /\ year4 (int y) = y) (findall_from skip s).
Proof.
  revert skip. induction s as [| c s IH]; intros skip; cbn [findall_from].
  - constructor.
  - destruct skip as [| k]; [| apply IH].
    destruct (year_at (String c s)) as [y |] eqn:Hy; [| apply IH].
    constructor; [| apply IH].
    destruct (year_at_spec _ _ Hy) as (_ & _ & Hr & Hp). now split.
Qed.

Lemma years_of_range (text : string) :
  Forall (fun y => 1900 <= y <= 2099) (years_of text).
Proof.
  unfold years_of, findall_years.
  induction (findall_from_years 0 text) as [| y ys [Hy _] _ IH]; cbn [map].
  - constructor.
  - constructor; [exact Hy | exact IH].
Qed.

(** The example of the specification and of the test suite. *)
Example infer_temporal_example :
  infer_temporal "rainfall 2010-2012 over sub-saharan africa"
  = (Some "2010-01-01T00:00:00Z", Some "2012-12-31T23:59:59Z").
Proof. vm_compute. reflexivity. Qed.

(** A year written twice is one distinct year, yet a range is returned. *)
Example infer_temporal_repeated_year :
  distinct_years "2010 2010" = [2010] /\
  infer_temporal "2010 2010"
  = (Some "2010-01-01T00:00:00Z", Some "2010-12-31T23:59:59Z").
Proof. vm_compute. split; reflexivity. Qed.

(** C3, as stated, fails: the null pair is not returned for every text
    with fewer than two distinct years. *)
Lemma infer_temporal_not_by_distinct_years :
  ~ (forall text : string,
        infer_temporal text = (None, None)
        <-> (length (distinct_years text) < 2)%nat).
Proof.
  intros Hclaim.
  destruct (Hclaim "2010 2010") as [_ Hnull].
  destruct infer_temporal_repeated_year as [Hd Hrange].
  rewrite Hd, Hrange in Hnull. cbn [length] in Hnull.
  specialize (Hnull ltac:(lia)). discriminate Hnull.
Qed.

(** C3, amended.  [infer_temporal] returns the null pair iff the year
    pattern (19xx or 20xx, matched from left to right without overlap,
    word boundaries not required) has fewer than 2 matches in the text,
    a repeated year counting each time; otherwise it returns
    [(minYear-01-01T00:00:00Z, maxYear-12-31T23:59:59Z)] over the years
    matched, each of which lies in 1900 .. 2099. *)
Theorem infer_temporal_spec (text : string) :
  let years := years_of text in
  (infer_temporal text = (None, None) <-> (length years < 2)%nat) /\
  ((2 <= length years)%nat ->
   infer_temporal text
   = (Some (year4 (minimum years) +:+ "-01-01T00:00:00Z"),
      Some (year4 (maximum years) +:+ "-12-31T23:59:59Z")) /\
   In (minimum years) years /\ In (maximum years) years /\
   (forall y, In y years -> minimum years <= y <= maximum years)) /\
  Forall (fun y => 1900 <= y <= 2099) years.
Proof.
  cbv zeta. unfold infer_temporal.
  destruct (Nat.leb_spec 2 (length (years_of text))) as [Hge | Hlt].
  - split; [split; [discriminate | lia] |].
    split; [| apply years_of_range]. intros _.
    assert (Hne : years_of text <> []).
    { intros H. rewrite H in Hge. cbn in Hge. lia. }
    destruct (sort_first_last _ Hne) as [-> ->].
    destruct (minimum_spec _ Hne) as [Hm Hml].
    destruct (maximum_spec _ Hne) as [HM HMu].
    repeat split; auto.
  - split; [split; [lia | reflexivity] |].
    split; [lia | apply years_of_range].
Qed.

Lemma infer_temporal_spec_witness :
  infer_temporal "rainfall 2010-2012 over sub-saharan africa"
  = (Some (year4 (minimum [2010; 2012]) +:+ "-01-01T00:00:00Z"),
     Some (year4 (maximum [2010; 2012]) +:+ "-12-31T23:59:59Z")).
Proof.
  destruct (infer_temporal_spec "rainfall 2010-2012 over sub-saharan africa")
    as (_ & Hrange & _).
  destruct Hrange as (H & _).
  - vm_compute. lia.
  - exact H.
Defined.

(** [infer_bbox] on the example of the test suite. *)
Example infer_bbox_example :
  infer_bbox "Datasets for Sub-Saharan Africa"
  = Some ((-20)%float, (-35)%float, 52%float, 20%float).
Proof. vm_compute. reflexivity. Qed.

End UtilsSpec.

(** ** Properties of the validation agent *)

Module ValidationSpec.
Import Str Utils Validation.

(** The checks of [run], each as a predicate of the input. *)

(** Empty or blank query (fatal). *)
Definition blank (query : string) : bool := negb (nonempty (strip query)).

(** Fewer than 8 characters (warning). *)
Definition very_short (query : string) : bool := (String.length query <? 8)%nat.

(** A banned phrase occurs in the lower-cased query (fatal). *)
Definition out_of_scope (query : string) : bool :=
  existsb (fun b => contains b (lower query)) banned.

(** No year found (warning). *)
Definition no_years (query : string) : bool :=
  match years_of query with [] => true | _ => false end.

(** At least two years found, the first after the last (fatal). *)
Definition start_after_end (query : string) : bool :=
  (2 <=? length (years_of query))%nat
  && (List.last (years_of query) 0 <? hd 0 (years_of query)).

(** A region name occurs in the lower-cased query, or a bounding box
    can be inferred (fatal when neither). *)
Definition region_names : list string :=
  ["sub-saharan africa"; "subsaharan africa"; "sub saharan africa"; "ssa"; "global"].

Definition region_recognized (query : string) : bool :=
  existsb (fun r => contains r (lower query)) region_names.

Definition bbox_inferable (query : string) : bool :=
  match infer_bbox query with Some _ => true | None => false end.

(** More than 5 subqueries (warning). *)
Definition complex (subqueries : list string) : bool := (5 <? length subqueries)%nat.

Definition when (b : bool) (msg : string) : list string := if b then [msg] else [].

Lemma strip_empty : strip EmptyString = EmptyString.
Proof. reflexivity. Qed.

(** [not query or not query.strip()] is the blank test alone. *)
Lemma empty_or_blank (query : string) :
  negb (nonempty query) || negb (nonempty (strip query)) = blank query.
Proof. unfold blank. destruct query; reflexivity. Qed.

(** The gazetteer of [infer_bbox] has the keys of [REGIONS]. *)
Lemma first_region_some (regions : list (string * bbox)) (lowered : string) :
  (match first_region regions lowered with Some _ => true | None => false end)
  = existsb (fun r => contains r lowered) (map fst regions).
Proof.
  induction regions as [| [key box] rest IH]; cbn [first_region map existsb fst];
    [reflexivity |].
  destruct (contains key lowered); [reflexivity | exact IH].
Qed.

Lemma bbox_inferable_region (query : string) :
  bbox_inferable query = region_recognized query.
Proof. unfold bbox_inferable, infer_bbox. apply first_region_some. Qed.

(** C7.  [run] returns [feasible] equal to the conjunction of the fatal
    checks (query not blank, no banned phrase, not a first year after
    the last when two or more years are found, a recognized region or an
    inferable bounding box); [reasons] lists, in the order of the
    checks, the message of every check that triggered, fatal or
    warning; and [suggested_alternatives] is the full list of region
    names when the region check fails and empty otherwise. *)
Theorem validation_spec (query : string) (subqueries : list string) :
  let r := run query subqueries in
  let has_region := region_recognized query || bbox_inferable query in
  feasible r
  = negb (blank query) && negb (out_of_scope query)
    && negb (start_after_end query) && has_region /\
  reasons r
  = when (blank query) "Empty query"
    ++ when (very_short query) "Very short query; may be ambiguous"
    ++ when (out_of_scope query) "Out-of-scope content detected"
    ++ when (no_years query) "No temporal bounds detected"
    ++ when (start_after_end query) "Start year after end year"
    ++ when (negb has_region) "Region not recognized"
    ++ when (complex subqueries) "High complexity; will decompose into steps" /\
  suggested_alternatives r = (if has_region then [] else region_names) /\
  (has_region = true <->
   exists name, In name region_names /\ contains name (lower query) = true).
Proof.
  cbv zeta.
  assert (Hex : region_recognized query || bbox_inferable query = true <->
                exists name, In name region_names /\ contains name (lower query) = true).
  { rewrite bbox_inferable_region, orb_diag. unfold region_recognized.
    rewrite existsb_exists. reflexivity. }
  split; [| split; [| split; [| exact Hex]]].
  all: unfold run; rewrite empty_or_blank.
  all: change (existsb (fun r => contains r (lower query)) (map fst REGIONS))
         with (region_recognized query).
  all: change (match infer_bbox query with Some _ => true | None => false end)
         with (bbox_inferable query).
  all: change (existsb (fun b => contains b (lower query)) banned)
         with (out_of_scope query).
  all: change (String.length query <? 8)%nat with (very_short query).
  all: change (5 <? length subqueries)%nat with (complex subqueries).
  all: unfold start_after_end, no_years.
  all: destruct (blank query), (very_short query), (out_of_scope query),
         (region_recognized query || bbox_inferable query), (complex subqueries).
  all: destruct (years_of query) as [| y ys]; [reflexivity |].
  all: destruct ((2 <=? length (y :: ys))%nat && (List.last (y :: ys) 0 <? hd 0 (y :: ys)));
         reflexivity.
Qed.

(** The query of the test suite passes every check. *)
Example validation_accepts :
  run "rainfall 2010-2012 over sub-saharan africa"
      ["rainfall 2010-2012 over sub-saharan africa"]
  = {| feasible := true; reasons := []; suggested_alternatives := [] |}.
Proof. vm_compute. reflexivity. Qed.

(** An out-of-scope query without years or region: three reasons, two
    of them fatal, and the region names as alternatives. *)
Example validation_rejects :
  run "social security" ["social security"]
  = {| feasible := false;
       reasons := ["Out-of-scope content detected"; "No temporal bounds detected";
                   "Region not recognized"];
       suggested_alternatives := region_names |}.
Proof. vm_compute. reflexivity. Qed.

End ValidationSpec.

(** ** Properties of the query planner *)

Module PlanningSpec.
Import Str Planning.

(** First-seen order without duplicates, emitting from the head: an
    element is kept iff it was not [seen] before. *)
Fixpoint dedup_from (seen l : list string) : list string :=
  match l with
  | [] => []
  | x :: l' =>
      if mem x seen then dedup_from seen l' else x :: dedup_from (x :: seen) l'
  end.

Definition first_seen (l : list string) : list string := dedup_from [] l.

(** [term.strip().lower()] *)
Definition norm (term : string) : string := lower (strip term).

(** A normalised term passes the filters of the loop: not empty, not
    digits once its hyphens are removed, not a stopword. *)
Definition keepable (t : string) : bool :=
  nonempty t && negb (isdigit (replace "-" EmptyString t)) && negb (mem t STOPWORDS).

(** The input has the term: a subquery is the term once stripped and
    lower-cased, or the term is a word of the lower-cased query, commas
    read as spaces. *)
Definition has_term (term user_query : string) (subqueries : list string) : Prop :=
  (exists s, In s subqueries /\ lower (strip s) = term)
  \/ In term (split (replace "," " " (lower user_query))).

(** A token made of digits and hyphens only. *)
Definition digits_and_hyphens (t : string) : bool :=
  nonempty t
  && forallb (fun c => is_digit c || Ascii.eqb c "-") (list_ascii_of_string t).

Lemma mem_In (x : string) (l : list string) : mem x l = true <-> In x l.
Proof.
  unfold mem. rewrite existsb_exists. split.
  - intros (y & Hy & Heq). apply String.eqb_eq in Heq. now subst.
  - intros H. exists x. split; [exact H | apply String.eqb_refl].
Qed.

Lemma mem_false (x : string) (l : list string) : mem x l = false <-> ~ In x l.
Proof. rewrite <- mem_In. destruct (mem x l); split; congruence. Qed.

Lemma mem_app (x : string) (l1 l2 : list string) :
  mem x (l1 ++ l2) = mem x l1 || mem x l2.
Proof. unfold mem. apply existsb_app. Qed.

(** *** Deduplication *)

Lemma dedup_from_perm_seen (seen seen' l : list string) :
  (forall x, In x seen <-> In x seen') -> dedup_from seen l = dedup_from seen' l.
Proof.
  revert seen seen'. induction l as [| x l IH]; intros seen seen' Heq; [reflexivity |].
  cbn [dedup_from].
  assert (Hm : mem x seen = mem x seen').
  { destruct (mem x seen) eqn:H1, (mem x seen') eqn:H2; try reflexivity.
    - apply mem_In, Heq, mem_In in H1. congruence.
    - apply mem_In, Heq, mem_In in H2. congruence. }
  rewrite Hm. destruct (mem x seen'); [now apply IH |].
  f_equal. apply IH. intros y. cbn [In]. now rewrite Heq.
Qed.

(** The accumulating loop of the code against the head-first function. *)
Lemma fold_dedup (l acc : list string) :
  fold_left (fun keys x => if mem x keys then keys else keys ++ [x]) l acc
  = acc ++ dedup_from acc l.
Proof.
  revert acc. induction l as [| x l IH]; intros acc; cbn [fold_left dedup_from].
  - now rewrite app_nil_r.
  - destruct (mem x acc) eqn:Hm; [apply IH |].
    rewrite IH, <- app_assoc. cbn [app]. do 2 f_equal.
    apply dedup_from_perm_seen. intros y. rewrite in_app_iff. cbn [In]. tauto.
Qed.

Lemma fromkeys_first_seen (l : list string) : fromkeys l = first_seen l.
Proof. unfold fromkeys. now rewrite fold_dedup. Qed.

Lemma dedup_from_In (seen l : list string) (x : string) :
  In x (dedup_from seen l) <-> In x l /\ ~ In x seen.
Proof.
  revert seen. induction l as [| y l IH]; intros seen; cbn [dedup_from].
  - cbn. tauto.
  - destruct (mem y seen) eqn:Hm.
    + rewrite IH. apply mem_In in Hm. cbn [In]. split; [tauto |].
      intros [[-> | H] Hn]; tauto.
    + apply mem_false in Hm. cbn [In]. rewrite IH. cbn [In].
      destruct (String.eqb_spec y x) as [-> | Hne]; tauto.
Qed.

Lemma dedup_from_NoDup (seen l : list string) : List.NoDup (dedup_from seen l).
Proof.
  revert seen. induction l as [| y l IH]; intros seen; cbn [dedup_from].
  - constructor.
  - destruct (mem y seen); [apply IH |].
    constructor; [| apply IH]. rewrite dedup_from_In. cbn [In]. tauto.
Qed.

Lemma first_seen_In (l : list string) (x : string) : In x (first_seen l) <-> In x l.
Proof. unfold first_seen. rewrite dedup_from_In. cbn. tauto. Qed.

(** *** The loop that builds the variable terms *)

Lemma keep_term_cases (acc : list string) (term : string) :
  keep_term acc term
  = if keepable (norm term) && negb (mem (norm term) acc)
    then acc ++ [norm term] else acc.
Proof.
  unfold keep_term, keepable. fold (norm term).
  destruct (nonempty (norm term)); [| reflexivity]. cbn [negb andb].
  destruct (isdigit (replace "-" EmptyString (norm term))); [reflexivity |]. cbn [negb andb].
  destruct (mem (norm term) STOPWORDS); [reflexivity |]. cbn [negb andb].
  destruct (mem (norm term) acc); reflexivity.
Qed.

Lemma fold_keep_term (l acc : list string) :
  fold_left keep_term l acc
  = acc ++ dedup_from acc (filter (fun t => keepable t = true) (map norm l)).
Proof.
  revert acc. induction l as [| term l IH]; intros acc; cbn [fold_left map].
  - cbn. now rewrite app_nil_r.
  - rewrite keep_term_cases, IH.
    destruct (keepable (norm term)) eqn:Hk; cbn [andb].
    + rewrite filter_cons_True by exact Hk. cbn [dedup_from].
      destruct (mem (norm term) acc) eqn:Hm; cbn [negb]; [reflexivity |].
      rewrite <- app_assoc. cbn [app]. do 2 f_equal.
      apply dedup_from_perm_seen. intros y. rewrite in_app_iff. cbn [In]. tauto.
    + rewrite filter_cons_False by congruence. reflexivity.
Qed.

(** *** Synonym injection *)

(** The set [present] mirrors the list [out]. *)
Definition synced (st : list string * gset string) : Prop :=
  forall x, x ∈ snd st <-> In x (fst st).

Lemma synced_list_to_set (l : list string) : synced (l, list_to_set l).
Proof. intros x. cbn. rewrite elem_of_list_to_set. apply list_elem_of_In. Qed.

Lemma add_missing_nil (st : list string * gset string) : add_missing [] st = st.
Proof. reflexivity. Qed.

Lemma add_missing_cons (s : string) (syns : list string) (st : list string * gset string) :
  add_missing (s :: syns) st
  = add_missing syns
      (if decide (s ∈ snd st) then st else (fst st ++ [s], {[ s ]} ∪ snd st)).
Proof. destruct st as [out present]. cbn. now destruct (decide (s ∈ present)). Qed.

Lemma add_missing_step (s : string) (st : list string * gset string) :
  synced st ->
  let st' := if decide (s ∈ snd st) then st else (fst st ++ [s], {[ s ]} ∪ snd st) in
  synced st' /\ fst st' = (if mem s (fst st) then fst st else fst st ++ [s]).
Proof.
  intros Hs. cbv zeta. unfold synced in *.
  destruct (decide (s ∈ snd st)) as [Hin | Hnin].
  - split; [exact Hs |]. apply Hs in Hin. apply mem_In in Hin. now rewrite Hin.
  - split.
    + intros x. cbn [fst snd]. rewrite elem_of_union, elem_of_singleton, in_app_iff, Hs.
      cbn [In]. intuition congruence.
    + cbn [fst]. rewrite Hs in Hnin. apply mem_false in Hnin. now rewrite Hnin.
Qed.

Lemma add_missing_spec (syns : list string) (st : list string * gset string) :
  synced st ->
  synced (add_missing syns st) /\
  (forall x, In x (fst st) -> In x (fst (add_missing syns st))) /\
  (forall x, In x syns -> In x (fst (add_missing syns st))).
Proof.
  revert st. induction syns as [| s syns IH]; intros st Hs.
  - rewrite add_missing_nil. split; [exact Hs |]. split; [auto | intros x []].
  - rewrite add_missing_cons.
    destruct (add_missing_step s st Hs) as [Hs' Hfst].
    destruct (IH _ Hs') as (Hsync & Hmono & Hall).
    assert (Hgrow : forall x, In x (fst st) \/ x = s ->
              In x (fst (if decide (s ∈ snd st) then st
                         else (fst st ++ [s], {[ s ]} ∪ snd st)))).
    { intros x Hx. rewrite Hfst. destruct (mem s (fst st)) eqn:Hm.
      - destruct Hx as [Hx | ->]; [exact Hx | now apply mem_In].
      - rewrite in_app_iff. cbn [In]. intuition. }
    split; [exact Hsync |]. split.
    + intros x Hx. apply Hmono, Hgrow. now left.
    + intros x [<- | Hx]; [apply Hmono, Hgrow; now right | now apply Hall].
Qed.

Lemma baseline_keeps (terms : list string) (x : string) :
  In x terms -> In x (_baseline_synonyms terms).
Proof.
  intros Hx. unfold _baseline_synonyms.
  destruct (decide (list_to_set terms ∩ rain_like = ∅)); [exact Hx |].
  destruct (add_missing_spec ["precipitation"; "imerg"; "trmm"]%string _
              (synced_list_to_set terms)) as (_ & Hmono & _).
  apply Hmono. exact Hx.
Qed.

Lemma baseline_adds (terms : list string) :
  In "rainfall"%string terms -> In "precipitation"%string (_baseline_synonyms terms).
Proof.
  intros Hx. unfold _baseline_synonyms.
  destruct (decide (list_to_set terms ∩ rain_like = ∅)) as [Hempty | _].
  - exfalso. apply list_elem_of_In in Hx.
    assert (Hin : "rainfall"%string ∈ (list_to_set terms ∩ rain_like : gset string)).
    { apply elem_of_intersection. split; [now apply elem_of_list_to_set |].
      unfold rain_like. set_solver. }
    rewrite Hempty in Hin. set_solver.
  - destruct (add_missing_spec ["precipitation"; "imerg"; "trmm"]%string _
                (synced_list_to_set terms)) as (_ & _ & Hall).
    apply Hall. now left.
Qed.

Lemma add_llm_terms_keeps (data : list (option string)) (expanded : list string) (x : string) :
  In x expanded -> In x (add_llm_terms data expanded).
Proof.
  unfold add_llm_terms. revert expanded.
  induction data as [| [term |] data IH]; intros expanded Hx; cbn [fold_left];
    [exact Hx | | now apply IH].
  apply IH.
  destruct (nonempty (strip (lower term)) && negb (mem (strip (lower term)) expanded));
    [| exact Hx].
  rewrite in_app_iff. now left.
Qed.

(** Whatever the model answers, a seed that lower-cases to "rainfall"
    brings both "rainfall" and "precipitation" into the expanded terms. *)
Lemma expand_terms_rainfall (self : PlanningAgent) (seeds : list string) :
  (exists s, In s seeds /\ lower s = "rainfall"%string) ->
  In "rainfall"%string (_expand_terms self seeds) /\
  In "precipitation"%string (_expand_terms self seeds).
Proof.
  intros (s & Hs & Hlow).
  assert (Hexp : In "rainfall"%string
                   (map lower (filter (fun s => nonempty s = true) seeds))).
  { rewrite <- Hlow. apply in_map. apply list_elem_of_In, list_elem_of_filter.
    split; [| now apply list_elem_of_In].
    destruct s; [discriminate Hlow | reflexivity]. }
  assert (Hboth : forall expanded, In "rainfall"%string expanded ->
            In "rainfall"%string (fromkeys (_baseline_synonyms expanded)) /\
            In "precipitation"%string (fromkeys (_baseline_synonyms expanded))).
  { intros expanded Hin. rewrite !fromkeys_first_seen, !first_seen_In.
    split; [now apply baseline_keeps | now apply baseline_adds]. }
  unfold _expand_terms. destruct (llm self) as [ainvoke |]; [| now apply Hboth].
  destruct seeds as [| s0 seeds']; [destruct Hs |].
  apply Hboth. destruct (ainvoke _); [now apply add_llm_terms_keeps | exact Hexp].
Qed.

(** *** The plan *)

(** The term the fallback synonyms may append. *)
Definition fallback_extra (vt0 : list string) : list string :=
  if (mem "rainfall" vt0 || mem "imerg" vt0 || mem "trmm" vt0)
     && negb (mem "precipitation" vt0)
  then ["precipitation"%string] else [].

Lemma fallback_step_spec (base : string) (st : list string * gset string) :
  synced st ->
  synced (fallback_step st (base, ["precipitation"%string])) /\
  fst (fallback_step st (base, ["precipitation"%string]))
  = if mem base (fst st) && negb (mem "precipitation" (fst st))
    then fst st ++ ["precipitation"%string] else fst st.
Proof.
  intros Hs. unfold fallback_step.
  destruct (decide (base ∈ snd st)) as [Hin | Hnin].
  - rewrite add_missing_cons, add_missing_nil.
    destruct (add_missing_step "precipitation" st Hs) as [Hs' Hf].
    split; [exact Hs' |]. rewrite Hf.
    apply Hs, mem_In in Hin. rewrite Hin. cbn [andb].
    now destruct (mem "precipitation" (fst st)).
  - split; [exact Hs |]. unfold synced in Hs. rewrite Hs in Hnin.
    apply mem_false in Hnin. now rewrite Hnin.
Qed.

Lemma fallback_fold (vt0 : list string) :
  fst (fold_left fallback_step fallback_synonyms (vt0, list_to_set vt0))
  = vt0 ++ fallback_extra vt0.
Proof.
  unfold fallback_synonyms. cbn [fold_left].
  pose proof (synced_list_to_set vt0) as Hs0.
  destruct (fallback_step_spec "rainfall" _ Hs0) as [Hs1 Hf1].
  destruct (fallback_step_spec "imerg" _ Hs1) as [Hs2 Hf2].
  destruct (fallback_step_spec "trmm" _ Hs2) as [Hs3 Hf3].
  rewrite Hf3, Hf2, Hf1. cbn [fst]. unfold fallback_extra.
  assert (Hsnoc : forall l, mem "precipitation" (l ++ ["precipitation"%string]) = true).
  { intros l. apply mem_In, in_or_app. right. now left. }
  destruct (mem "rainfall" vt0) eqn:Hr, (mem "imerg" vt0) eqn:Hi,
           (mem "trmm" vt0) eqn:Ht, (mem "precipitation" vt0) eqn:Hp;
    cbn [andb orb negb];
    repeat (first [ rewrite Hr | rewrite Hi | rewrite Ht | rewrite Hp
                  | rewrite Hsnoc | rewrite andb_false_r ];
            cbn [andb orb negb]);
    rewrite ?app_nil_r; reflexivity.
Qed.

Lemma run_variable_terms (self : PlanningAgent) (user_query : string)
    (subqueries : list string) :
  let p := run self user_query subqueries in
  let vt0 := first_seen (filter (fun t => keepable t = true)
                           (map norm (expanded_terms p))) in
  variable_terms p = vt0 ++ fallback_extra vt0.
Proof.
  cbv zeta. unfold run.
  set (expanded := _expand_terms self (seeds_of user_query subqueries)).
  rewrite fold_keep_term. cbn [app].
  fold (first_seen (filter (fun t => keepable t = true) (map norm expanded))).
  set (vt0 := first_seen _).
  pose proof (fallback_fold vt0) as Hfold.
  destruct (fold_left fallback_step fallback_synonyms (vt0, list_to_set vt0))
    as [vt present].
  cbn [variable_terms expanded_terms]. exact Hfold.
Qed.

(** The plan for the query of the test suite, without a model. *)
Example planner_example :
  variable_terms (run {| llm := None |} "rainfall 2010-2012 over sub-saharan africa"
                    ["rainfall 2010-2012 over sub-saharan africa"])
  = ["rainfall 2010-2012 over sub-saharan africa"; "rainfall"; "sub-saharan";
     "africa"; "precipitation"; "imerg"; "trmm"]%string.
Proof. vm_compute. reflexivity. Qed.

(** A hyphen standing alone is a word of the query and is kept. *)
Example planner_lone_hyphen :
  variable_terms (run {| llm := None |} "rainfall - africa" [])
  = ["rainfall"; "-"; "africa"; "precipitation"; "imerg"; "trmm"]%string /\
  digits_and_hyphens "-" = true.
Proof. vm_compute. split; reflexivity. Qed.

(** C8, as stated, fails: a variable term can consist of hyphens only. *)
Lemma planner_keeps_hyphen_token :
  ~ (forall (self : PlanningAgent) (user_query : string) (subqueries : list string)
            (t : string),
        In t (variable_terms (run self user_query subqueries)) ->
        digits_and_hyphens t = false).
Proof.
  intros Hclaim.
  destruct planner_lone_hyphen as [Hvt Hdh].
  specialize (Hclaim {| llm := None |} "rainfall - africa"%string [] "-"%string).
  rewrite Hvt, Hdh in Hclaim.
  assert (Hin : In "-"%string
                  ["rainfall"; "-"; "africa"; "precipitation"; "imerg"; "trmm"]%string)
    by (right; now left).
  specialize (Hclaim Hin). discriminate Hclaim.
Qed.

(** C8, amended.  When a subquery is "rainfall" once stripped and
    lower-cased, or "rainfall" is a word of the lower-cased query
    (commas read as spaces), the variable terms contain "rainfall" and
    "precipitation", whatever the language model answers.  For every
    input the variable terms contain no stopword, no empty string and no
    term that, its hyphens removed, is a non-empty run of digits (a term
    of hyphens only is kept); they have no duplicates; and they are the
    kept expanded terms in first-seen order, followed at most by
    "precipitation" when the fallback synonyms add it. *)
Theorem planner_variable_terms (self : PlanningAgent) (user_query : string)
    (subqueries : list string) :
  let p := run self user_query subqueries in
  let kept := filter (fun t => keepable t = true) (map norm (expanded_terms p)) in
  (has_term "rainfall" user_query subqueries ->
   In "rainfall"%string (variable_terms p) /\
   In "precipitation"%string (variable_terms p)) /\
  (forall t, In t (variable_terms p) ->
             ~ In t STOPWORDS /\ isdigit (replace "-" EmptyString t) = false /\ t <> EmptyString) /\
  List.NoDup (variable_terms p) /\
  (variable_terms p = first_seen kept
   \/ (variable_terms p = first_seen kept ++ ["precipitation"%string]
       /\ ~ In "precipitation"%string kept)).
Proof.
  cbv zeta. rewrite (run_variable_terms self user_query subqueries). cbv zeta.
  set (expanded := expanded_terms (run self user_query subqueries)).
  assert (Hexp : expanded = _expand_terms self (seeds_of user_query subqueries)).
  { subst expanded. unfold run.
    now destruct (fold_left _ fallback_synonyms _). }
  set (kept := filter (fun t => keepable t = true) (map norm expanded)).
  assert (Hkept : forall t, In t (first_seen kept) -> keepable t = true).
  { intros t Ht. apply (proj1 (first_seen_In _ _)) in Ht. unfold kept in Ht.
    apply list_elem_of_In, list_elem_of_filter in Ht. tauto. }
  assert (Hkeepable : forall t, keepable t = true ->
            ~ In t STOPWORDS /\ isdigit (replace "-" EmptyString t) = false /\ t <> EmptyString).
  { intros t Hk. unfold keepable in Hk.
    apply andb_true_iff in Hk as [Hk Hstop]. apply andb_true_iff in Hk as [Hne Hdig].
    apply negb_true_iff in Hstop, Hdig. apply mem_false in Hstop.
    repeat split; try assumption. intros ->. discriminate Hne. }
  assert (Hextra : fallback_extra (first_seen kept) = []
                   \/ (fallback_extra (first_seen kept) = ["precipitation"%string]
                       /\ ~ In "precipitation"%string kept)).
  { unfold fallback_extra.
    destruct ((mem "rainfall" (first_seen kept) || mem "imerg" (first_seen kept)
               || mem "trmm" (first_seen kept))
              && negb (mem "precipitation" (first_seen kept))) eqn:Hc; [| now left].
    right. split; [reflexivity |].
    apply andb_true_iff in Hc as [_ Hc]. apply negb_true_iff, mem_false in Hc.
    now rewrite first_seen_In in Hc. }
  split; [| split; [| split]].
  - intros Hterm.
    assert (Hseed : exists s, In s (seeds_of user_query subqueries)
                              /\ lower s = "rainfall"%string).
    { unfold seeds_of. destruct Hterm as [(s & Hs & Hlow) | Hword].
      - exists (strip s). split; [| exact Hlow].
        apply in_or_app. left. apply in_map.
        apply list_elem_of_In, list_elem_of_filter. split; [| now apply list_elem_of_In].
        destruct s as [| c s]; [discriminate Hlow |]. cbn [nonempty andb].
        destruct (strip (String c s)); [discriminate Hlow | reflexivity].
      - exists "rainfall"%string. split; [| reflexivity].
        apply in_or_app. right.
        change "rainfall"%string with (strip "rainfall") at 1. apply in_map.
        apply list_elem_of_In, list_elem_of_filter.
        split; [reflexivity | now apply list_elem_of_In]. }
    destruct (expand_terms_rainfall self _ Hseed) as [Hr Hp]. rewrite <- Hexp in Hr, Hp.
    assert (Hin : forall t, In t expanded -> norm t = t -> keepable t = true ->
                            In t (first_seen kept ++ fallback_extra (first_seen kept))).
    { intros t Ht Hn Hk. apply in_or_app. left. apply first_seen_In. unfold kept.
      apply list_elem_of_In, list_elem_of_filter. split; [exact Hk |].
      apply list_elem_of_In. rewrite <- Hn. now apply in_map. }
    split; apply Hin; try assumption; reflexivity.
  - intros t Ht. apply in_app_or in Ht as [Ht | Ht]; [now apply Hkeepable, Hkept |].
    destruct Hextra as [He | [He _]]; rewrite He in Ht; [destruct Ht |].
    destruct Ht as [<- | []]. apply Hkeepable. reflexivity.
  - destruct Hextra as [He | [He Hnot]]; rewrite He.
    + rewrite app_nil_r. apply dedup_from_NoDup.
    + apply NoDup_ListNoDup, NoDup_app.
      split; [apply NoDup_ListNoDup, dedup_from_NoDup |].
      split; [| apply NoDup_singleton].
      intros x Hx Hx'. apply list_elem_of_singleton in Hx'. subst x.
      apply Hnot. apply list_elem_of_In in Hx.
      exact (proj1 (first_seen_In _ _) Hx).
  - destruct Hextra as [He | [He Hnot]]; rewrite He.
    + left. apply app_nil_r.
    + right. split; [reflexivity | exact Hnot].
Qed.

Lemma planner_variable_terms_witness :
  let p := run {| llm := None |} "rainfall 2010-2012 over sub-saharan africa"
             ["rainfall 2010-2012 over sub-saharan africa"] in
  In "rainfall"%string (variable_terms p) /\ In "precipitation"%string (variable_terms p).
Proof.
  cbv zeta.
  destruct (planner_variable_terms {| llm := None |}
              "rainfall 2010-2012 over sub-saharan africa"
              ["rainfall 2010-2012 over sub-saharan africa"]%string) as (Hrain & _).
  apply Hrain. right. vm_compute. left. reflexivity.
Defined.

End PlanningSpec.

(** ** Properties of the federated search orchestrator *)

Module AgentSpec.
Import Str Cmr Agent.

(** The id an item is merged under: [meta.concept-id] when present and
    not empty. *)
Definition item_id (c : item) : option string :=
  match meta_concept_id c with
  | Some cid => if nonempty cid then Some cid else None
  | None => None
  end.

Definition seen_before (cid : string) (seen : list string) : bool :=
  existsb (String.eqb cid) seen.

(** First-seen order by id, emitting from the head: an item is kept iff
    it has an id and no item before it has the same id. *)
Fixpoint first_by_id_from (seen : list string) (l : list item) : list item :=
  match l with
  | [] => []
  | c :: l' =>
      match item_id c with
      | Some cid =>
          if seen_before cid seen then first_by_id_from seen l'
          else c :: first_by_id_from (cid :: seen) l'
      | None => first_by_id_from seen l'
      end
  end.

Definition first_by_id (l : list item) : list item := first_by_id_from [] l.

(** The items of a captured result: none for an exception. *)
Definition items_of (r : exn + item_set) : list item :=
  match r with
  | inr d => items d
  | inl _ => []
  end.

Lemma seen_before_In (cid : string) (seen : list string) :
  seen_before cid seen = true <-> In cid seen.
Proof.
  unfold seen_before. rewrite existsb_exists. split.
  - intros (y & Hy & Heq). apply String.eqb_eq in Heq. now subst.
  - intros H. exists cid. split; [exact H | apply String.eqb_refl].
Qed.

Lemma seen_before_false (cid : string) (seen : list string) :
  seen_before cid seen = false <-> ~ In cid seen.
Proof.
  rewrite <- seen_before_In. destruct (seen_before cid seen); split; congruence.
Qed.

(** *** The merge loop against the head-first function *)

Lemma merge_step_cases (st : list item * gset string) (c : item) (seen : list string) :
  (forall x, x ∈ snd st <-> In x seen) ->
  merge_step st c
  = match item_id c with
    | Some cid =>
        if seen_before cid seen then st else (fst st ++ [c], {[ cid ]} ∪ snd st)
    | None => st
    end.
Proof.
  intros Hseen. unfold merge_step, item_id.
  destruct (meta_concept_id c) as [cid |]; [| reflexivity].
  destruct (nonempty cid); [| reflexivity]. cbn [andb].
  destruct (seen_before cid seen) eqn:Hs.
  - apply seen_before_In, Hseen in Hs. now rewrite bool_decide_eq_true_2.
  - apply seen_before_false in Hs. rewrite <- Hseen in Hs.
    now rewrite bool_decide_eq_false_2.
Qed.

Lemma fold_merge_step (l : list item) (acc : list item) (present : gset string)
    (seen : list string) :
  (forall x, x ∈ present <-> In x seen) ->
  fst (fold_left merge_step l (acc, present)) = acc ++ first_by_id_from seen l.
Proof.
  revert acc present seen. induction l as [| c l IH]; intros acc present seen Hseen.
  - cbn. now rewrite app_nil_r.
  - cbn [fold_left first_by_id_from].
    rewrite (merge_step_cases _ c seen) by exact Hseen. cbn [fst snd].
    destruct (item_id c) as [cid |]; [| now apply IH].
    destruct (seen_before cid seen); [now apply IH |].
    rewrite (IH _ _ (cid :: seen)).
    + now rewrite <- app_assoc.
    + intros x. rewrite elem_of_union, elem_of_singleton, Hseen. cbn [In].
      intuition congruence.
Qed.

Lemma merge_items_first_by_id (results_list : list item_set) :
  merge_items results_list = first_by_id (flat_map items results_list).
Proof.
  unfold merge_items, first_by_id.
  rewrite (fold_merge_step _ [] ∅ []); [reflexivity |].
  intros x. cbn. rewrite elem_of_empty. tauto.
Qed.

(** *** What first-seen order by id means *)

Lemma first_by_id_from_In (seen : list string) (l : list item) (c : item) :
  In c (first_by_id_from seen l) ->
  In c l /\ exists cid, item_id c = Some cid /\ ~ In cid seen.
Proof.
  revert seen. induction l as [| d l IH]; intros seen; cbn [first_by_id_from];
    [intros [] |].
  destruct (item_id d) as [cid |] eqn:Hd.
  - destruct (seen_before cid seen) eqn:Hs.
    + intros H. destruct (IH _ H) as [Hin Hid]. split; [now right | exact Hid].
    + intros [<- | H].
      * split; [now left |]. exists cid. split; [exact Hd |].
        now apply seen_before_false.
      * destruct (IH _ H) as [Hin (cid' & Hid & Hnot)]. split; [now right |].
        exists cid'. split; [exact Hid |]. cbn [In] in Hnot. tauto.
  - intros H. destruct (IH _ H) as [Hin Hid]. split; [now right | exact Hid].
Qed.

(** No two merged items share an id. *)
Lemma first_by_id_from_NoDup (seen : list string) (l : list item) :
  List.NoDup (map item_id (first_by_id_from seen l)).
Proof.
  revert seen. induction l as [| d l IH]; intros seen; cbn [first_by_id_from];
    [constructor |].
  destruct (item_id d) as [cid |] eqn:Hd; [| apply IH].
  destruct (seen_before cid seen); [apply IH |].
  cbn [map]. constructor; [| apply IH].
  rewrite in_map_iff. intros (c & Hc & Hin).
  destruct (first_by_id_from_In _ _ _ Hin) as [_ (cid' & Hid & Hnot)].
  rewrite Hd in Hc. rewrite Hc in Hid. inversion Hid; subst cid'.
  apply Hnot. now left.
Qed.

(** The merged items are a subsequence of the source: order is kept. *)
Lemma first_by_id_from_sublist (seen : list string) (l : list item) :
  sublist (first_by_id_from seen l) l.
Proof.
  revert seen. induction l as [| d l IH]; intros seen; cbn [first_by_id_from];
    [constructor |].
  destruct (item_id d) as [cid |]; [| apply sublist_cons, IH].
  destruct (seen_before cid seen); [apply sublist_cons, IH | apply sublist_skip, IH].
Qed.

(** An item is kept when nothing before it has its id. *)
Lemma first_by_id_from_first (seen : list string) (l1 l2 : list item) (c : item)
    (cid : string) :
  item_id c = Some cid -> ~ In cid seen ->
  (forall d, In d l1 -> item_id d <> Some cid) ->
  In c (first_by_id_from seen (l1 ++ c :: l2)).
Proof.
  intros Hc. revert seen. induction l1 as [| d l1 IH]; intros seen Hnot Hfresh.
  - cbn [app first_by_id_from]. rewrite Hc.
    apply seen_before_false in Hnot. rewrite Hnot. now left.
  - cbn [app first_by_id_from].
    assert (Hrest : forall d', In d' l1 -> item_id d' <> Some cid)
      by (intros d' Hd'; apply Hfresh; now right).
    destruct (item_id d) as [cid' |] eqn:Hd; [| now apply IH].
    destruct (seen_before cid' seen); [now apply IH |].
    right. apply IH; [| exact Hrest].
    intros [-> | Hin]; [| tauto].
    apply (Hfresh d); [now left | exact Hd].
Qed.

(** *** Unfolding the steps of a stage *)

Section WithClient.

Context {S : Type}.
Variable search_collections : params -> S -> (exn + item_set) * S.
Variable search_granules : params -> S -> (exn + item_set) * S.
Variable search_variables : params -> S -> (exn + item_set) * S.
Variable circuit_allow : option (S -> bool).
Variable cmr_provider : option string.

Lemma bind_inr {A B : Type} (m : @M S A) (f : A -> @M S B) (a a' : @CMRAgent S) (y : B) :
  bind m f a = (inr y, a') ->
  exists x a1, m a = (inr x, a1) /\ f x a1 = (inr y, a').
Proof.
  unfold bind. destruct (m a) as [[e | x] a1]; [discriminate |]. eauto.
Qed.

Lemma ret_inr {A : Type} (x y : A) (a a' : @CMRAgent S) :
  ret x a = (inr y, a') -> x = y /\ a = a'.
Proof. unfold ret. intros H. now inversion H. Qed.

Lemma absorb_granules_items (grs : list (exn + item_set)) :
  forall (a a' : @CMRAgent S) (combined : list (list item)),
    gather absorb_granules grs a = (inr combined, a') ->
    concat combined = flat_map items_of grs.
Proof.
  induction grs as [| gr grs IH]; intros a a' combined H; cbn [gather] in H.
  - apply ret_inr in H as [<- _]. reflexivity.
  - apply bind_inr in H as (l & a1 & Hl & H).
    apply bind_inr in H as (ls & a2 & Hls & H).
    apply ret_inr in H as [<- _]. cbn [concat flat_map].
    rewrite (IH _ _ _ Hls). f_equal.
    destruct gr as [e | d]; cbn [absorb_granules] in Hl.
    + apply bind_inr in Hl as (u & a3 & _ & Hl). now apply ret_inr in Hl as [<- _].
    + now apply ret_inr in Hl as [<- _].
Qed.

(** The result sets a captured list of searches contributes. *)
Definition successes (l : list (exn + item_set)) : list item_set :=
  flat_map (fun er => match er with inr d => [d] | inl _ => [] end) l.

Lemma absorb_extra_successes (bp : params) (ers : list (exn + item_set)) :
  forall (a a' : @CMRAgent S) (extras : list (list item_set)),
    gather (absorb_extra bp) ers a = (inr extras, a') ->
    concat extras = successes ers.
Proof.
  induction ers as [| er ers IH]; intros a a' extras H; cbn [gather] in H.
  - apply ret_inr in H as [<- _]. reflexivity.
  - apply bind_inr in H as (l & a1 & Hl & H).
    apply bind_inr in H as (ls & a2 & Hls & H).
    apply ret_inr in H as [<- _]. unfold successes. cbn [concat flat_map].
    fold (successes ers). rewrite (IH _ _ _ Hls). f_equal.
    destruct er as [e | d]; cbn [absorb_extra] in Hl.
    + apply bind_inr in Hl as (u & a3 & _ & Hl). now apply ret_inr in Hl as [<- _].
    + apply bind_inr in Hl as (u & a3 & _ & Hl). now apply ret_inr in Hl as [<- _].
Qed.

(** The result sets merged by a stage, in order: the keyword search,
    the short-name and science-keyword searches that succeeded, the
    concept-id batch, the cache hits when there are any. *)
Lemma run_stage_full_results_list (query : string) (st : stage) (a a' : @CMRAgent S)
    (r : stage_run) :
  run_stage_full search_collections search_granules search_variables cmr_provider
    query st a = (inr r, a') ->
  exists kw_cols collections_by_id cached_items,
    results_list r
    = [kw_cols] ++ successes (extra_results r) ++ [collections_by_id]
      ++ match cached_items with [] => [] | _ :: _ => [items_only cached_items] end.
Proof.
  unfold run_stage_full. intros H.
  apply bind_inr in H as (raw & a1 & _ & H).
  apply bind_inr in H as (vrs & a2 & _ & H).
  apply bind_inr in H as (cache & a3 & _ & H).
  destruct (partition_cached cache (dedupe_ids (related_ids vrs)))
    as [cached_items missing_ids].
  apply bind_inr in H as (by_id & a4 & _ & H).
  apply bind_inr in H as (kw0 & a5 & _ & H).
  apply bind_inr in H as (kw & a6 & _ & H).
  apply bind_inr in H as (ers & a7 & _ & H).
  apply bind_inr in H as (extras & a8 & Hextras & H).
  apply bind_inr in H as (u & a9 & _ & H).
  apply bind_inr in H as (grs & a10 & _ & H).
  apply bind_inr in H as (combined & a11 & _ & H).
  apply ret_inr in H as [<- _]. cbn [results_list extra_results].
  exists kw, by_id, cached_items.
  now rewrite (absorb_extra_successes _ _ _ _ _ Hextras).
Qed.

(** The result of a stage in terms of its locals. *)
Lemma run_stage_full_output (query : string) (st : stage) (a a' : @CMRAgent S)
    (r : stage_run) :
  run_stage_full search_collections search_granules search_variables cmr_provider
    query st a = (inr r, a') ->
  items (collections (stage_output r)) = merge_items (results_list r) /\
  items (variables (stage_output r)) = flat_map items (var_results r) /\
  items (granules (stage_output r)) = flat_map items_of (granules_results r).
Proof.
  unfold run_stage_full. intros H.
  apply bind_inr in H as (raw & a1 & _ & H).
  apply bind_inr in H as (vrs & a2 & _ & H).
  apply bind_inr in H as (cache & a3 & _ & H).
  destruct (partition_cached cache (dedupe_ids (related_ids vrs)))
    as [cached_items missing_ids].
  apply bind_inr in H as (by_id & a4 & _ & H).
  apply bind_inr in H as (kw0 & a5 & _ & H).
  apply bind_inr in H as (kw & a6 & _ & H).
  apply bind_inr in H as (ers & a7 & _ & H).
  apply bind_inr in H as (extras & a8 & _ & H).
  apply bind_inr in H as (u & a9 & _ & H).
  apply bind_inr in H as (grs & a10 & _ & H).
  apply bind_inr in H as (combined & a11 & Hcomb & H).
  apply ret_inr in H as [<- _]. cbn.
  repeat split. now apply absorb_granules_items in Hcomb.
Qed.

(** The staged mode returns ["searches"] alone. *)
Lemma staged_run_output (query : string) (keys : list string) (st : stage)
    (stages : list stage) (a a' : @CMRAgent S) (res : run_output) :
  run search_collections search_granules search_variables circuit_allow cmr_provider
    query (PlanDict keys (st :: stages)) a = (inr res, a') ->
  out_circuit_breaker_tripped res = None /\ out_query_log res = None.
Proof.
  unfold run. intros H.
  apply bind_inr in H as (searches & a1 & _ & H).
  apply ret_inr in H as [<- _]. now cbn.
Qed.

(** C4, amended.  In a stage that returns, the merged collection list is
    the concatenation of its result sets (keyword, short-name,
    science-keyword, concept-id batch, cache hits, in that order) with,
    for every concept id, the first item carrying it and no other; items
    without a concept id are left out; the order of the source is kept.
    The merged variable list and the merged granule list are the plain
    concatenations of the items returned, in order, duplicates
    included. *)
Theorem stage_merge_spec (query : string) (st : stage) (a a' : @CMRAgent S)
    (r : stage_run) :
  run_stage_full search_collections search_granules search_variables cmr_provider
    query st a = (inr r, a') ->
  let source := flat_map items (results_list r) in
  let merged := items (collections (stage_output r)) in
  merged = first_by_id source /\
  List.NoDup (map item_id merged) /\
  (forall c, In c merged -> In c source /\ item_id c <> None) /\
  sublist merged source /\
  (exists kw_cols collections_by_id cached_items,
      results_list r
      = [kw_cols] ++ successes (extra_results r) ++ [collections_by_id]
        ++ match cached_items with [] => [] | _ :: _ => [items_only cached_items] end) /\
  (forall l1 c l2 cid,
      source = l1 ++ c :: l2 -> item_id c = Some cid ->
      (forall d, In d l1 -> item_id d <> Some cid) -> In c merged) /\
  items (variables (stage_output r)) = flat_map items (var_results r) /\
  items (granules (stage_output r)) = flat_map items_of (granules_results r).
Proof.
  intros H. cbv zeta.
  destruct (run_stage_full_output _ _ _ _ _ H) as (Hcols & Hvars & Hgrans).
  rewrite Hcols, merge_items_first_by_id. unfold first_by_id.
  split; [reflexivity |].
  split; [apply first_by_id_from_NoDup |].
  split.
  { intros c Hc. destruct (first_by_id_from_In _ _ _ Hc) as [Hin (cid & Hid & _)].
    split; [exact Hin | congruence]. }
  split; [apply first_by_id_from_sublist |].
  split; [exact (run_stage_full_results_list _ _ _ _ _ H) |].
  split.
  { intros l1 c l2 cid -> Hid Hfresh.
    apply (first_by_id_from_first [] l1 l2 c cid); auto. }
  split; assumption.
Qed.

End WithClient.

(** *** The client of the cache test

    Every variable search returns the variable [V1], associated with the
    collection [C1]; a collection search by concept id returns one item
    per id, any other collection search nothing; granule searches
    return nothing. *)
Definition V1 : item :=
  {| meta_concept_id := Some "V1"; meta_provider_id := None; item_umm := empty_umm;
     assoc_collections := [ {| concept_id := Some "C1"; concept_dash_id := None |} ] |}.

Definition echo_variables (p : params) (c : unit) : (exn + item_set) * unit :=
  (inr (items_only [V1]), c).

Definition echo_collections (p : params) (c : unit) : (exn + item_set) * unit :=
  (inr (items_only (map item_of_id (concept_ids p))), c).

Definition echo_granules (p : params) (c : unit) : (exn + item_set) * unit :=
  (inr (items_only []), c).

Definition echo_agent : @CMRAgent unit :=
  {| client := tt; query_log := []; collection_cache := ∅; circuit_tripped := false |}.

Definition two_terms : stage :=
  {| stage_query := Some "rain"; stage_variable_terms := Some ["rain"; "rainfall"] |}.

(** Two variable terms that find the same variable: it is listed twice,
    while the collection it points to is merged once. *)
Example echo_stage :
  exists r a',
    run_stage_full echo_collections echo_granules echo_variables None "rain"
      two_terms echo_agent = (inr r, a') /\
    map meta_concept_id (items (variables (stage_output r))) = [Some "V1"; Some "V1"] /\
    map meta_concept_id (items (collections (stage_output r))) = [Some "C1"].
Proof.
  eexists. eexists. split; [vm_compute; reflexivity |]. split; reflexivity.
Qed.

(** C4, as stated, fails for the variables of a stage: the merged
    variable list is not deduplicated by concept id. *)
Lemma merged_variables_keep_duplicates :
  ~ (forall (search_collections search_granules search_variables :
               params -> unit -> (exn + item_set) * unit)
            (cmr_provider : option string) (query : string) (st : stage)
            (a a' : @CMRAgent unit) (r : stage_run),
        run_stage_full search_collections search_granules search_variables
          cmr_provider query st a = (inr r, a') ->
        List.NoDup (map meta_concept_id (items (variables (stage_output r))))).
Proof.
  intros Hclaim. destruct echo_stage as (r & a' & Hrun & Hvars & _).
  specialize (Hclaim _ _ _ _ _ _ _ _ _ Hrun). rewrite Hvars in Hclaim.
  inversion Hclaim as [| x l Hnotin _]; subst. apply Hnotin. now left.
Qed.

Lemma stage_merge_spec_witness :
  exists r a',
    run_stage_full echo_collections echo_granules echo_variables None "rain"
      two_terms echo_agent = (inr r, a') /\
    items (collections (stage_output r))
    = first_by_id (flat_map items (results_list r)) /\
    items (variables (stage_output r)) = flat_map items (var_results r).
Proof.
  destruct echo_stage as (r & a' & Hrun & _).
  exists r, a'. split; [exact Hrun |].
  destruct (stage_merge_spec echo_collections echo_granules echo_variables None
              "rain" two_terms echo_agent a' r Hrun) as (Hm & _ & _ & _ & _ & _ & Hv & _).
  split; [exact Hm | exact Hv].
Defined.

End AgentSpec.

(** ** The circuit-breaker flag of the final response *)

Module PipelineSpec.
Import Str Cmr Agent Pipeline AgentSpec.

Section WithClient.

Context {S : Type}.
Variable search_collections : params -> S -> (exn + item_set) * S.
Variable search_granules : params -> S -> (exn + item_set) * S.
Variable search_variables : params -> S -> (exn + item_set) * S.
Variable circuit_allow : option (S -> bool).
Variable cmr_provider : option string.

(** The planner always emits its three stages. *)
Lemma planner_stages (planner : Planning.PlanningAgent) (user_query : string)
    (subqueries : list string) :
  exists s1 s2 s3,
    Planning.stages (Planning.run planner user_query subqueries) = [s1; s2; s3].
Proof.
  unfold Planning.run.
  destruct (fold_left Planning.fallback_step Planning.fallback_synonyms _) as [vt present].
  cbn [Planning.stages]. eauto.
Qed.

(** Whatever the searches did, a pipeline run that reaches the end of
    the search step in staged mode carries a false flag. *)
Lemma staged_pipeline_flag (planner : Planning.PlanningAgent) (c : S)
    (uq : string) (subs : list string) (state : QueryState) :
  run_to_search search_collections search_granules search_variables circuit_allow
    cmr_provider planner c uq subs = inr state ->
  final_circuit_breaker_tripped state = false.
Proof.
  unfold run_to_search. destruct (route_after_planning _); [| intros H; now inversion H].
  unfold cmr_step. cbn [plan planning_step].
  destruct (planner_stages planner uq subs) as (s1 & s2 & s3 & Hst).
  unfold plan_dict. cbn [user_query subqueries validation_step after_intent get_subqueries].
  rewrite Hst. cbn [map].
  destruct (run _ _ _ _ _ _ _ _) as [[e | res] a'] eqn:Hrun; [discriminate |].
  apply staged_run_output in Hrun as [Hflag _].
  intros H. inversion H. unfold final_circuit_breaker_tripped.
  cbn [circuit_breaker_tripped]. now rewrite Hflag.
Qed.

(** The plain mode does report: when the collection search or the
    variable search of the subquery raises a circuit-open
    [RuntimeError], the flag of the output is true. *)
Lemma plain_run_reports_circuit_error (q : string) (a : @CMRAgent S) (e : exn) :
  let '(collections_res, c1) := search_collections (base_params cmr_provider q) (client a) in
  let '(variables_res, c2) := search_variables (variable_params q) c1 in
  collections_res = inl e \/ variables_res = inl e ->
  is_circuit_error e = true ->
  exists res a',
    run search_collections search_granules search_variables circuit_allow
      cmr_provider q (Subqueries [q]) a = (inr res, a') /\
    out_circuit_breaker_tripped res = Some true.
Proof.
  destruct (search_collections (base_params cmr_provider q) (client a))
    as [collections_res c1] eqn:Hc.
  destruct (search_variables (variable_params q) c1) as [variables_res c2] eqn:Hv.
  intros Hraised Hcircuit.
  cbv beta iota zeta delta [run gather search_for search_for_granules await_again bind call
                             handle modify ret].
  rewrite Hc. cbn [client set_client]. rewrite Hv.
  destruct Hraised as [-> | ->]; unfold note_exception; rewrite Hcircuit.
  - destruct variables_res as [e' | d]; [destruct (is_circuit_error e') |];
      eexists; eexists; (split; [reflexivity |]); reflexivity.
  - destruct collections_res as [e' | d]; [destruct (is_circuit_error e') |];
      eexists; eexists; (split; [reflexivity |]); reflexivity.
Qed.

End WithClient.

(** *** A run of the pipeline through an outage

    The service answers the first 8 requests and request 11 with an
    empty result and refuses every other one; each request takes a tenth
    of a second.  The client is [AsyncCMRClient] with a new breaker. *)
Definition outage_net (k : nat) (path : string) (p : params)
  : float * Client.http_result item_set :=
  if (8 <=? k)%nat && negb (k =? 11)%nat
  then (0.1%float, Client.TransportFailure "connection reset")
  else (0.1%float,
        Client.HttpResponse
          {| Client.status_code := 200; Client.resp_json := Some (items_only []) |}).

Definition new_client : Client.world :=
  {| Client.circuit := Circuit.default; Client.now := 1000;
     Client.sent := 0; Client.slept := [] |}.

Definition breaker_allow : option (Client.world -> bool) :=
  Some (fun w => Circuit.allow (Client.circuit w) (Client.now w)).

Definition outage_query : string := "rainfall 2010-2012 over sub-saharan africa".

Definition planned_stage : stage :=
  {| stage_query := None; stage_variable_terms := None |}.

(** The agent when the third stage of the plan starts. *)
Definition before_third_stage : @CMRAgent Client.world :=
  snd (gather (run_stage (Client.search_collections outage_net)
                 (Client.search_granules outage_net)
                 (Client.search_variables outage_net) (Some "ALL"%string) outage_query)
         [planned_stage; planned_stage] (new_agent new_client)).

(** C5 at this input.  In the third stage the science-keyword search
    ends in the circuit-open error (inside tenacity's [RetryError]), the
    stage returns with the breaker open and [circuit_tripped] still
    false, and the run reaches the end of the search step with the flag
    of the final response false. *)
Theorem circuit_open_error_not_reported :
  (exists r a3,
      run_stage_full (Client.search_collections outage_net)
        (Client.search_granules outage_net) (Client.search_variables outage_net)
        (Some "ALL"%string) outage_query planned_stage before_third_stage = (inr r, a3) /\
      extra_results r
      = [inl (RetryError (HTTPError "connection reset"));
         inl (RetryError Client.circuit_open_error)] /\
      circuit_tripped a3 = false /\
      Circuit.allow (Client.circuit (client a3)) (Client.now (client a3)) = false) /\
  (exists state,
      run_to_search (Client.search_collections outage_net)
        (Client.search_granules outage_net) (Client.search_variables outage_net)
        breaker_allow (Some "ALL"%string) {| Planning.llm := None |} new_client
        outage_query [outage_query] = inr state /\
      validated state = Some true /\
      final_circuit_breaker_tripped state = false).
Proof.
  split.
  - eexists. eexists. split; [vm_compute; reflexivity |].
    repeat split; vm_compute; reflexivity.
  - eexists. split; [vm_compute; reflexivity |]. split; reflexivity.
Qed.

(** A service that refuses every request, met in plain mode: the
    variable search ends in the circuit-open error and the flag is true,
    the breaker being still open when [run] returns. *)
Definition down_net (k : nat) (path : string) (p : params)
  : float * Client.http_result item_set :=
  (0.1%float, Client.TransportFailure "connection reset").

Example plain_mode_reports_open_breaker :
  exists res a',
    run (Client.search_collections down_net) (Client.search_granules down_net)
      (Client.search_variables down_net) breaker_allow (Some "ALL"%string)
      outage_query (Subqueries [outage_query]) (new_agent new_client)
    = (inr res, a') /\
    map (fun s => error (variables s)) (searches res)
    = [Some (RetryError Client.circuit_open_error)] /\
    circuit_tripped a' = false /\
    out_circuit_breaker_tripped res = Some true.
Proof.
  eexists. eexists. split; [vm_compute; reflexivity |]. repeat split.
Qed.

End PipelineSpec.

(** ** Properties of the analysis engine *)

Module AnalysisSpec.
Import Str Utils Cmr Analysis.

(** *** Cross-collection discovery *)

(** How often [cid] occurs in one list. *)
Definition count (cid : string) (cids : list string) : nat :=
  length (List.filter (String.eqb cid) cids).

(** The indices recorded for [cid], the first list having index [i]:
    one copy of the index of a query per occurrence in that query. *)
Fixpoint occurrences_from (i : nat) (cid : string) (related : list (list string))
  : list nat :=
  match related with
  | [] => []
  | cids :: rest => repeat i (count cid cids) ++ occurrences_from (S i) cid rest
  end.

(** The indices of the queries that contain [cid], each once. *)
Fixpoint queries_with_from (i : nat) (cid : string) (related : list (list string))
  : list nat :=
  match related with
  | [] => []
  | cids :: rest =>
      (if existsb (String.eqb cid) cids then [i] else [])
      ++ queries_with_from (S i) cid rest
  end.

(** A list of indices added to what a key maps to. *)
Definition extend (o : option (list nat)) (l : list nat) : option (list nat) :=
  match l with
  | [] => o
  | _ :: _ => Some (default [] o ++ l)
  end.

Lemma extend_app (o : option (list nat)) (l1 l2 : list nat) :
  extend (extend o l1) l2 = extend o (l1 ++ l2).
Proof.
  destruct l1 as [| x l1]; [reflexivity |].
  destruct l2 as [| y l2]; cbn; [now rewrite app_nil_r |].
  now rewrite <- app_assoc.
Qed.

Lemma note_query_lookup (idx : nat) (m : gmap string (list nat)) (c cid : string) :
  note_query idx m c !! cid
  = extend (m !! cid) (if String.eqb cid c then [idx] else []).
Proof.
  unfold note_query. destruct (String.eqb_spec cid c) as [-> | Hne].
  - now rewrite lookup_insert_eq.
  - rewrite lookup_insert_ne by congruence. reflexivity.
Qed.

Lemma fold_note_query_lookup (idx : nat) (cids : list string)
    (m : gmap string (list nat)) (cid : string) :
  fold_left (note_query idx) cids m !! cid
  = extend (m !! cid) (repeat idx (count cid cids)).
Proof.
  revert m. induction cids as [| c cids IH]; intros m; [reflexivity |].
  cbn [fold_left]. rewrite IH, note_query_lookup, extend_app. f_equal.
  unfold count. cbn [List.filter]. now destruct (String.eqb cid c).
Qed.

Lemma fold_queries_lookup (related : list (list string)) :
  forall (i : nat) (m : gmap string (list nat)) (cid : string),
    fold_left (fun m '(idx, cids) => fold_left (note_query idx) cids m)
      (imap (fun idx cids => ((i + idx)%nat, cids)) related) m !! cid
    = extend (m !! cid) (occurrences_from i cid related).
Proof.
  induction related as [| cids rest IH]; intros i m cid; [reflexivity |].
  rewrite imap_cons. cbn [fold_left occurrences_from].
  rewrite (imap_ext _ (fun idx cids => ((S i + idx)%nat, cids))).
  2:{ intros k x _. cbn. f_equal. lia. }
  rewrite IH, fold_note_query_lookup, extend_app. now rewrite Nat.add_0_r.
Qed.

(** What [col_to_queries] maps an id to. *)
Lemma col_to_queries_lookup (related : list (list string)) (cid : string) :
  col_to_queries related !! cid = extend None (occurrences_from 0 cid related).
Proof.
  unfold col_to_queries.
  rewrite <- (lookup_empty (M := gmap string) (A := list nat) cid).
  apply (fold_queries_lookup related 0 ∅ cid).
Qed.

(** The map holds the ids recorded at least twice, with every index
    recorded: an id that occurs twice in one query is in it. *)
Lemma cross_collection_map_lookup (related : list (list string)) (cid : string)
    (qs : list nat) :
  cross_collection_map_of related !! cid = Some qs
  <-> qs = occurrences_from 0 cid related /\ (2 <= length qs)%nat.
Proof.
  unfold cross_collection_map_of.
  rewrite map_lookup_filter_Some, col_to_queries_lookup. cbn [snd].
  destruct (occurrences_from 0 cid related) as [| x l] eqn:Hocc; cbn [extend default app].
  - split; [intros [H _]; discriminate | intros [-> H]; cbn in H; lia].
  - split.
    + intros [H Hlen]. inversion H; subst qs. split; [reflexivity | lia].
    + intros [-> Hlen]. split; [reflexivity | lia].
Qed.

Lemma count_nodup (cid : string) (cids : list string) :
  List.NoDup cids -> count cid cids = if existsb (String.eqb cid) cids then 1%nat else 0%nat.
Proof.
  unfold count. induction 1 as [| c cids Hnotin Hnd IH]; [reflexivity |].
  cbn [List.filter existsb]. destruct (String.eqb_spec cid c) as [-> | Hne].
  - cbn [orb length]. rewrite IH.
    destruct (existsb (String.eqb c) cids) eqn:Hex; [| reflexivity].
    apply existsb_exists in Hex as (y & Hy & Heq).
    apply String.eqb_eq in Heq. subst y. contradiction.
  - cbn [orb]. exact IH.
Qed.

Lemma occurrences_nodup (related : list (list string)) (cid : string) :
  Forall (fun cids => List.NoDup cids) related ->
  forall i, occurrences_from i cid related = queries_with_from i cid related.
Proof.
  induction 1 as [| cids rest Hnd _ IH]; intros i; [reflexivity |].
  cbn [occurrences_from queries_with_from]. rewrite IH, (count_nodup _ _ Hnd).
  now destruct (existsb (String.eqb cid) cids).
Qed.

(** When no query lists an id twice, the claim about the map holds: an
    id maps to the indices of the queries that contain it, and is
    present iff there are at least two of them. *)
Lemma cross_collection_map_nodup (related : list (list string)) (cid : string)
    (qs : list nat) :
  Forall (fun cids => List.NoDup cids) related ->
  (cross_collection_map_of related !! cid = Some qs
   <-> qs = queries_with_from 0 cid related /\ (2 <= length qs)%nat).
Proof.
  intros Hnd. rewrite cross_collection_map_lookup.
  now rewrite (occurrences_nodup related cid Hnd 0).
Qed.

(** *** Instances of the library functions for the examples *)

Definition no_timestamp (s : string) : option datetime := None.
Definition no_date (d : datetime) : string := EmptyString.
Definition epoch : datetime := {| instant := 0; tzinfo := Some 0 |}.
Definition no_round (x : float) (ndigits : Z) : float := x.
Definition no_float (s : string) : option float := None.

Definition plain_run := run no_timestamp no_date epoch None no_round no_float.

(** A search that found the collections with the given ids. *)
Definition found (name : string) (ids : list string) : search_result :=
  {| query := name; collections := items_only (map item_of_id ids);
     granules := items_only []; variables := items_only [];
     related_collection_ids := None |}.

(** The test of the repository: [C1] in the queries 0 and 1. *)
Example cross_collection_example :
  exists s, plain_run (Some [found "q1" ["C1"]; found "q2" ["C1"]]) None None = inr s /\
            map_to_list (cross_collection_map s) = [("C1"%string, [0; 1]%nat)].
Proof. eexists. split; vm_compute; reflexivity. Qed.

(** C6 at a failing input: one query whose collections carry the id
    [C1] twice.  [C1] occurs in a single query, yet the map holds it,
    with the index of that query twice. *)
Theorem cross_collection_map_single_query :
  exists s, plain_run (Some [found "q1" ["C1"; "C1"]]) None None = inr s /\
            map related_collections (queries s) = [["C1"%string; "C1"%string]] /\
            cross_collection_map s !! "C1"%string = Some [0; 0]%nat.
Proof. eexists. split; [vm_compute; reflexivity |]. split; vm_compute; reflexivity. Qed.

(** *** Empty search results *)

Section WithLibraries.

Variable fromisoformat : string -> option datetime.
Variable strftime_date : datetime -> string.
Variable utcnow : datetime.
Variable plt : option (list (datetime * datetime) -> string).
Variable py_round : float -> Z -> float.
Variable float_of_str : string -> option float.
Variable temporal_constraint : option (string * string).
Variable bbox_constraint : option bbox.

(** A search that found nothing. *)
Definition found_nothing (s : search_result) : Prop :=
  items (collections s) = [] /\ items (granules s) = [] /\ items (variables s) = [].

(** The entry of a search that found nothing. *)
Definition empty_entry (q : string) : query_entry :=
  {| entry_query := q;
     collections_found := 0; granules_found := 0; variables_found := 0;
     providers := []; example_collections := []; example_variables := [];
     entry_temporal_coverage := None; spatial_extent := None; coverage_chart := None;
     related_collections := []; resolutions := []; latency_days := None;
     temporal_gaps := [];
     entry_gaps := {| missing_dates := []; suspected_causes := []; mitigation := [] |};
     entry_quality :=
       {| spatial_res_km := None; temporal_res := None;
          coverage := {| temporal_pct := 0%float; spatial_pct := 0%float |};
          completeness_score := 0%float; suitability_for_task := 0%float;
          tradeoffs := []; record_length_days := None; gap_days := 0 |};
     score := py_round 0%float 3 |}.

(** The loop state after searches that found nothing. *)
Definition empty_running (l : list search_result) : running :=
  {| run_collections := 0; run_granules := 0; run_variables := 0;
     run_queries := map (fun s => empty_entry (query s)) l;
     run_related := match l with [] => None | _ :: _ => Some [] end;
     run_node_collections := ∅; run_node_variables := ∅; run_node_instruments := ∅;
     run_edges := [] |}.

Lemma analyze_search_nothing (s : search_result) :
  found_nothing s ->
  analyze_search fromisoformat strftime_date utcnow plt py_round float_of_str
    temporal_constraint bbox_constraint s
  = inr (empty_entry (query s), []).
Proof.
  intros (Hc & Hg & Hv). unfold analyze_search. rewrite Hc, Hg, Hv.
  destruct plt; reflexivity.
Qed.

Lemma analyze_step_nothing (l : list search_result) (s : search_result) :
  found_nothing s ->
  analyze_step fromisoformat strftime_date utcnow plt py_round float_of_str
    temporal_constraint bbox_constraint (inr (empty_running l)) s
  = inr (empty_running (l ++ [s])).
Proof.
  intros Hs. unfold analyze_step. rewrite (analyze_search_nothing s Hs).
  destruct Hs as (Hc & Hg & Hv). rewrite Hc, Hg, Hv.
  unfold empty_running. cbn [run_collections run_granules run_variables run_queries
    run_related run_node_collections run_node_variables run_node_instruments run_edges
    length omap flat_map list_to_set app Z.of_nat Z.add].
  rewrite map_app. cbn [map].
  f_equal. f_equal; try (apply (left_id_L ∅ (∪))); try reflexivity.
  - now destruct l.
Qed.

Lemma fold_nothing (l : list search_result) :
  Forall found_nothing l ->
  fold_left (analyze_step fromisoformat strftime_date utcnow plt py_round float_of_str
               temporal_constraint bbox_constraint) l (inr start_running)
  = inr (empty_running l).
Proof.
  induction l as [| s l IH] using rev_ind; intros Hall; [reflexivity |].
  apply Forall_app in Hall as [Hl Hs]. apply Forall_cons_1 in Hs as [Hs _].
  rewrite fold_left_app. cbn [fold_left]. rewrite (IH Hl).
  now apply analyze_step_nothing.
Qed.

Lemma cross_collection_map_nothing (l : list search_result) :
  cross_collection_map_of (map related_collections (map (fun s => empty_entry (query s)) l))
  = ∅.
Proof.
  apply map_eq. intros cid. rewrite lookup_empty.
  destruct (cross_collection_map_of _ !! cid) as [qs |] eqn:Hq; [| reflexivity].
  apply cross_collection_map_lookup in Hq as [-> Hlen]. exfalso.
  assert (Hnone : forall i,
             occurrences_from i cid
               (map related_collections (map (fun s => empty_entry (query s)) l)) = []).
  { clear Hlen. induction l as [| s l IH]; intros i; [reflexivity | apply (IH (S i))]. }
  rewrite Hnone in Hlen. cbn in Hlen. lia.
Qed.

(** C9, amended.  On search results that are empty throughout (no
    search, or searches whose collection, granule and variable lists
    are empty) [run] raises nothing and returns the summary: the three
    totals are 0; there is one entry per search, with [temporal_res]
    null, [coverage.temporal_pct] 0.0, [completeness_score] 0.0 and
    [tradeoffs] empty (and all its counts 0, its lists empty); the key
    [related_collections] is absent when there is no search at all and
    holds the empty list otherwise; the graph, the relationships, the
    knowledge links, the data references and the cross-collection map
    are empty, and the paging record is the fixed one. *)
Theorem analysis_of_empty_results (cmr_results : option (list search_result)) :
  let searches := match cmr_results with Some l => l | None => [] end in
  Forall found_nothing searches ->
  exists s,
    run fromisoformat strftime_date utcnow plt py_round float_of_str
      cmr_results temporal_constraint bbox_constraint = inr s /\
    total_collections s = 0 /\ total_granules s = 0 /\ total_variables s = 0 /\
    queries s = map (fun x => empty_entry (query x)) searches /\
    Forall (fun e =>
              temporal_res (entry_quality e) = None /\
              temporal_pct (coverage (entry_quality e)) = 0%float /\
              completeness_score (entry_quality e) = 0%float /\
              tradeoffs (entry_quality e) = [])
      (queries s) /\
    summary_related_collections s
    = match searches with [] => None | _ :: _ => Some [] end /\
    summary_knowledge_graph s
    = {| node_collections := []; node_variables := []; node_instruments := [];
         edges := [] |} /\
    dataset_relationships s = [] /\
    summary_results_paging s
    = {| page := 1; paging_page_size := 50; next_token := EmptyString |} /\
    knowledge_links s = [] /\
    data_refs s = [] /\
    cross_collection_map s = ∅.
Proof.
  intros searches Hall. unfold run. fold searches.
  rewrite (fold_nothing searches Hall).
  eexists. split; [reflexivity |].
  cbn [total_collections total_granules total_variables queries summary_knowledge_graph
       summary_related_collections summary_results_paging knowledge_links
       dataset_relationships data_refs cross_collection_map empty_running
       run_collections run_granules run_variables run_queries run_related
       run_node_collections run_node_variables run_node_instruments run_edges].
  repeat split.
  - induction searches as [| x l IH]; cbn [map]; constructor.
    + now cbn.
    + apply IH. now apply Forall_cons_1 in Hall as [_ Hall].
  - now destruct searches.
  - apply cross_collection_map_nothing.
Qed.

End WithLibraries.

(** With no search at all the loop that creates [related_collections]
    ([summary.setdefault('related_collections', [])]) never runs. *)
Example analysis_of_no_search :
  exists s, plain_run (Some []) None None = inr s /\
            summary_related_collections s = None /\ queries s = [].
Proof. eexists. split; [reflexivity | split; reflexivity]. Qed.

(** C9, as stated, fails: on empty results the summary need not have
    all its keys; with no search, [related_collections] is absent. *)
Lemma analysis_of_no_search_lacks_a_key :
  ~ (forall fromisoformat strftime_date utcnow plt py_round float_of_str
            (cmr_results : option (list search_result))
            (temporal_constraint : option (string * string))
            (bbox_constraint : option bbox) (s : summary),
        Forall found_nothing (match cmr_results with Some l => l | None => [] end) ->
        run fromisoformat strftime_date utcnow plt py_round float_of_str
          cmr_results temporal_constraint bbox_constraint = inr s ->
        summary_related_collections s <> None).
Proof.
  intros Hclaim.
  destruct analysis_of_no_search as (s & Hrun & Hnone & _).
  apply (Hclaim no_timestamp no_date epoch None no_round no_float (Some []) None None s);
    [constructor | exact Hrun | exact Hnone].
Qed.

(** The test of the repository: one search, ["test"], that found nothing. *)
Lemma analysis_of_empty_results_witness :
  exists s,
    plain_run (Some [found "test" []]) None None = inr s /\
    total_collections s = 0 /\
    Forall (fun e =>
              temporal_res (entry_quality e) = None /\
              temporal_pct (coverage (entry_quality e)) = 0%float /\
              completeness_score (entry_quality e) = 0%float /\
              tradeoffs (entry_quality e) = [])
      (queries s).
Proof.
  destruct (analysis_of_empty_results no_timestamp no_date epoch None no_round no_float
              None None (Some [found "test" []])) as (s & Hrun & Hc & _ & _ & _ & Hq & _).
  - repeat constructor.
  - exists s. split; [exact Hrun |]. split; [exact Hc | exact Hq].
Defined.

End AnalysisSpec.

(** ** More on the circuit breaker: the states a client can reach *)

Module CircuitInvariants.
Import Circuit CircuitSpec.

(** The failures recorded since the last success (or since the start). *)
Definition count_call (n : Z) (c : call) : Z :=
  match c with
  | CallAllow _ => n
  | CallRecordSuccess => 0
  | CallRecordFailure _ => n + 1
  end.

Definition trailing_failures (cs : list call) : Z := fold_left count_call cs 0.

(** What every call keeps: a count that is not negative, and no open
    window while the count is below the threshold. *)
Definition quiet_below_threshold (cb : CircuitBreaker) : Prop :=
  0 <= failures cb /\
  (failures cb < failure_threshold cb -> open_until cb = 0%float).

Lemma perform_keeps (cb : CircuitBreaker) (c : call) :
  quiet_below_threshold cb ->
  quiet_below_threshold (fst (perform cb c)) /\
  failure_threshold (fst (perform cb c)) = failure_threshold cb /\
  recovery_time_seconds (fst (perform cb c)) = recovery_time_seconds cb /\
  failures (fst (perform cb c)) = count_call (failures cb) c.
Proof.
  intros [Hnn Hquiet]. destruct c as [now | | now]; cbn.
  - repeat split; assumption.
  - repeat split; try reflexivity; lia.
  - unfold quiet_below_threshold. cbn. repeat split; try lia.
    intros Hlt. destruct (Z.leb_spec (failure_threshold cb) (failures cb + 1)); [lia |].
    apply Hquiet. lia.
Qed.

Lemma perform_all_keeps (cs : list call) :
  forall (cb : CircuitBreaker),
    quiet_below_threshold cb ->
    quiet_below_threshold (perform_all cb cs) /\
    failure_threshold (perform_all cb cs) = failure_threshold cb /\
    recovery_time_seconds (perform_all cb cs) = recovery_time_seconds cb /\
    failures (perform_all cb cs) = fold_left count_call cs (failures cb).
Proof.
  induction cs as [| c cs IH]; intros cb Hcb.
  - cbn. repeat split; try reflexivity; apply Hcb.
  - destruct (perform_keeps cb c Hcb) as (Hq & Ht & Hr & Hf).
    destruct (IH _ Hq) as (Hq' & Ht' & Hr' & Hf').
    change (perform_all cb (c :: cs)) with (perform_all (fst (perform cb c)) cs).
    cbn [fold_left]. rewrite Ht', Hr', Hf', Ht, Hr, Hf.
    split; [exact Hq' | repeat split].
Qed.

(** X1.  Whatever calls a client makes on a breaker since its creation,
    the configuration stays as created, the failure count is the number
    of failures recorded since the last success, and while that number
    is below the threshold there is no open window: [allow] is true at
    every clock value. *)
Theorem breaker_closed_below_threshold (threshold recovery : Z) (cs : list call) :
  let cb := perform_all (init threshold recovery) cs in
  failure_threshold cb = threshold /\
  recovery_time_seconds cb = recovery /\
  failures cb = trailing_failures cs /\
  0 <= failures cb /\
  (trailing_failures cs < threshold ->
   open_until cb = 0%float /\ forall now, allow cb now = true).
Proof.
  cbv zeta.
  assert (Hinit : quiet_below_threshold (init threshold recovery)).
  { split; cbn; [lia | reflexivity]. }
  destruct (perform_all_keeps cs _ Hinit) as ([Hnn Hquiet] & Ht & Hr & Hf).
  cbn [init failure_threshold recovery_time_seconds failures] in Ht, Hr, Hf.
  fold (trailing_failures cs) in Hf.
  repeat split; try assumption.
  - apply Hquiet. rewrite Ht, Hf. assumption.
  - intros now. apply allow_true_iff. left.
    rewrite Hquiet by (rewrite Ht, Hf; assumption). reflexivity.
Qed.

(** Four failures, a success, four more failures on a default breaker:
    still closed. *)
Lemma breaker_closed_below_threshold_witness :
  let cs := [CallRecordFailure 1; CallRecordFailure 2; CallRecordFailure 3;
             CallRecordFailure 4; CallRecordSuccess; CallRecordFailure 5;
             CallRecordFailure 6; CallRecordFailure 7; CallRecordFailure 8]%float in
  failures (perform_all default cs) = 4 /\ allow (perform_all default cs) 9 = true.
Proof.
  cbv zeta.
  destruct (breaker_closed_below_threshold 5 30
              [CallRecordFailure 1; CallRecordFailure 2; CallRecordFailure 3;
               CallRecordFailure 4; CallRecordSuccess; CallRecordFailure 5;
               CallRecordFailure 6; CallRecordFailure 7; CallRecordFailure 8]%float)
    as (_ & _ & Hf & _ & Hclosed).
  split; [exact Hf |].
  destruct Hclosed as [_ Hallow]; [reflexivity | apply Hallow].
Defined.

End CircuitInvariants.

(** ** More on the client: what one call sends and leaves behind *)

Module ClientRequests.
Import Circuit FloatOrder CircuitSpec Client ClientSpec.

Section WithNetwork.

Context {P J : Type}.
Variable net : nat -> string -> P -> float * http_result J.
Variable path : string.
Variable params : P.

(** One attempt puts at most one request on the wire, the one numbered
    [sent w]; it returns a response only when that request was answered
    with a 2xx status, and then the breaker has been reset. *)
Lemma attempt_sends (w : world) :
  forall res w',
    attempt net path params w = (res, w') ->
    (sent w <= sent w' <= S (sent w))%nat /\
    (forall r, res = inr r ->
       sent w' = S (sent w) /\
       snd (net (sent w) path params) = HttpResponse r /\
       is_success (status_code r) = true /\
       circuit w' = record_success (circuit w)).
Proof.
  intros res w'. unfold attempt.
  destruct (negb (allow (circuit w) (now w))).
  - intros H. inversion H; subst. split; [lia | discriminate].
  - destruct (net (sent w) path params) as [latency out].
    destruct out as [msg | r0].
    + intros H. inversion H; subst. cbn. split; [lia | discriminate].
    + destruct (is_success (status_code r0)) eqn:Hs.
      * intros H. inversion H; subst. cbn. split; [lia |].
        intros r Hr. inversion Hr; subst. now repeat split.
      * intros H. inversion H; subst. cbn. split; [lia | discriminate].
Qed.

Lemma sleep_sent (w : world) (d : float) : sent (sleep w d) = sent w.
Proof. reflexivity. Qed.

(** X2.  One call of [_safe_get] sends at least no and at most three
    requests, never more than the attempts it made; when it returns a
    response, that response is the 2xx answer to the last request it
    sent, and the breaker is left reset: no failure counted, no open
    window, so the next call is allowed whatever happened before. *)
Theorem safe_get_sends_at_most_three (w : world) :
  forall res n w',
    _safe_get net path params w = (res, n, w') ->
    (sent w <= sent w' <= sent w + n)%nat /\ (1 <= n <= 3)%nat /\
    (forall r, res = inr r ->
       (sent w < sent w')%nat /\
       snd (net (sent w' - 1) path params) = HttpResponse r /\
       200 <= status_code r <= 299 /\
       failures (circuit w') = 0 /\ open_until (circuit w') = 0%float /\
       forall t, allow (circuit w') t = true).
Proof.
  intros res n w'. rewrite safe_get_unfold.
  assert (Hdone : forall v v' r,
             (forall r0, @inr exn _ r = inr r0 ->
                sent v' = S (sent v) /\
                snd (net (sent v) path params) = HttpResponse r0 /\
                is_success (status_code r0) = true /\
                circuit v' = record_success (circuit v)) ->
             (sent v < sent v')%nat /\
             snd (net (sent v' - 1) path params) = HttpResponse r /\
             200 <= status_code r <= 299 /\
             failures (circuit v') = 0 /\ open_until (circuit v') = 0%float /\
             forall t, allow (circuit v') t = true).
  { intros v v' r H. destruct (H r eq_refl) as (Hs & Hn & Hok & Hc).
    rewrite Hs, Hc. replace (S (sent v) - 1)%nat with (sent v) by lia.
    apply is_success_2xx in Hok. repeat split; try assumption; try lia. }
  destruct (attempt net path params w) as [[e1 | r1] w1] eqn:H1.
  - destruct (attempt_sends _ _ _ H1) as [Hs1 _].
    destruct (attempt net path params (sleep w1 (safe_get_wait 1)))
      as [[e2 | r2] w2] eqn:H2.
    + destruct (attempt_sends _ _ _ H2) as [Hs2 _]. rewrite sleep_sent in Hs2.
      destruct (attempt net path params (sleep w2 (safe_get_wait 2)))
        as [[e3 | r3] w3] eqn:H3.
      * destruct (attempt_sends _ _ _ H3) as [Hs3 _]. rewrite sleep_sent in Hs3.
        intros H. inversion H; subst. split; [lia |]. split; [lia | discriminate].
      * destruct (attempt_sends _ _ _ H3) as [Hs3 Hr3]. rewrite sleep_sent in Hs3.
        intros H. inversion H; subst. split; [lia |]. split; [lia |].
        intros r Hr. inversion Hr; subst.
        destruct (Hdone _ _ _ Hr3) as (Hlt & Hrest).
        rewrite sleep_sent in Hlt. split; [lia | exact Hrest].
    + destruct (attempt_sends _ _ _ H2) as [Hs2 Hr2]. rewrite sleep_sent in Hs2.
      intros H. inversion H; subst. split; [lia |]. split; [lia |].
      intros r Hr. inversion Hr; subst.
      destruct (Hdone _ _ _ Hr2) as (Hlt & Hrest).
      rewrite sleep_sent in Hlt. split; [lia | exact Hrest].
  - destruct (attempt_sends _ _ _ H1) as [Hs1 Hr1].
    intros H. inversion H; subst. split; [lia |]. split; [lia |].
    intros r Hr. inversion Hr; subst. apply (Hdone _ _ _ Hr1).
Qed.

(** X3.  The failure that reaches the threshold ends the call: when the
    breaker lets the first request through, that request fails, the
    count reaches the threshold with it, and the window this opens
    outlasts the back-off (it ends after the clock readings of the two
    attempts that remain, 0.5 s and 1.5 s later), then those attempts
    are refused by the breaker without reaching the network: one
    request is sent, the call fails with a [RetryError] around the
    circuit-open error (not around the HTTP error), and the breaker
    refuses the next call as well. *)
Theorem tripping_failure_ends_call (w : world) (latency : float)
    (res : http_result J) (e : exn) :
  let failed_at := (now w + latency)%float in
  let until := (failed_at + float_of_int (recovery_time_seconds (circuit w)))%float in
  allow (circuit w) (now w) = true ->
  net (sent w) path params = (latency, res) ->
  request_error res = Some e ->
  failure_threshold (circuit w) <= failures (circuit w) + 1 ->
  (0 <? failed_at + 0.5)%float = true ->
  (failed_at + 0.5 <? until)%float = true ->
  (failed_at + 0.5 + 1 <? until)%float = true ->
  exists w',
    _safe_get net path params w = (inl (RetryError circuit_open_error), 3%nat, w') /\
    search net path params w = (inl (RetryError circuit_open_error), w') /\
    sent w' = S (sent w) /\
    slept w' = slept w ++ [0.5; 1]%float /\
    failures (circuit w') = failures (circuit w) + 1 /\
    open_until (circuit w') = until /\
    allow (circuit w') (now w') = false.
Proof.
  intros failed_at until Ha Hn He Hth Hpos Hsecond Hthird.
  set (w1 := set_circuit (after_request w latency)
               (record_failure (circuit w) (now w + latency)%float)).
  assert (Hopen : open_until (circuit w1) = until).
  { unfold w1. cbn.
    destruct (Z.leb_spec (failure_threshold (circuit w)) (failures (circuit w) + 1));
      [reflexivity | lia]. }
  assert (Hset : (until =? 0)%float = false).
  { apply ltb_eqb_false. now apply (ltb_trans _ (failed_at + 0.5)%float). }
  destruct safe_get_wait_values as [Hw1 Hw2].
  assert (Hsafe : _safe_get net path params w
                  = (inl (RetryError circuit_open_error), 3%nat,
                     sleep (sleep w1 (safe_get_wait 1)) (safe_get_wait 2))).
  { rewrite safe_get_unfold.
    rewrite (attempt_failure net path params w latency res e Ha Hn He).
    fold w1.
    rewrite attempt_open.
    2:{ cbn [sleep circuit now]. apply allow_false_iff. rewrite Hopen, Hw1.
        split; [exact Hset | exact Hsecond]. }
    rewrite attempt_open.
    2:{ cbn [sleep circuit now]. apply allow_false_iff. rewrite Hopen, Hw1, Hw2.
        split; [exact Hset | exact Hthird]. }
    reflexivity. }
  exists (sleep (sleep w1 (safe_get_wait 1)) (safe_get_wait 2)).
  split; [exact Hsafe |].
  split; [unfold search; rewrite Hsafe; reflexivity |].
  split; [reflexivity |].
  split; [cbn; rewrite Hw1, Hw2, <- app_assoc; reflexivity |].
  split; [reflexivity |].
  split; [exact Hopen |].
  cbn [sleep circuit now]. apply allow_false_iff. rewrite Hopen, Hw1, Hw2.
  split; [exact Hset | exact Hthird].
Qed.

End WithNetwork.

(** A breaker with threshold one, as the repository's test sets it. *)
Definition fragile_world : world :=
  {| circuit := init 1 30; now := 1000; sent := 0; slept := [] |}.

Lemma safe_get_sends_at_most_three_witness :
  (sent fresh_world
   < sent (snd (_safe_get answering_net "/search/collections.umm_json" tt fresh_world)))%nat.
Proof.
  destruct (safe_get_sends_at_most_three answering_net "/search/collections.umm_json" tt
              fresh_world _ _ _ eq_refl) as (_ & _ & H).
  destruct (H _ eq_refl) as (Hlt & _). exact Hlt.
Defined.

Lemma tripping_failure_ends_call_witness :
  exists w',
    search refusing_net "/search/collections.umm_json" tt fragile_world
    = (inl (RetryError circuit_open_error), w') /\ sent w' = 1%nat.
Proof.
  destruct (tripping_failure_ends_call refusing_net "/search/collections.umm_json" tt
              fragile_world 0%float (TransportFailure "connection refused")
              (HTTPError "connection refused"))
    as (w' & _ & Hsearch & Hsent & _).
  - reflexivity.
  - reflexivity.
  - reflexivity.
  - cbn. lia.
  - reflexivity.
  - reflexivity.
  - reflexivity.
  - exists w'. split; [exact Hsearch | exact Hsent].
Defined.

End ClientRequests.

(** ** Lower-casing, substrings and stripping *)

Module StrFacts.
Import Str.

Lemma lower_char_idempotent (c : ascii) : lower_char (lower_char c) = lower_char c.
Proof. destruct c as [[] [] [] [] [] [] [] []]; reflexivity. Qed.

Lemma lower_idempotent (s : string) : lower (lower s) = lower s.
Proof.
  induction s as [| c s IH]; cbn [lower]; [reflexivity |].
  now rewrite lower_char_idempotent, IH.
Qed.

Lemma app_cons (c : ascii) (a b : string) : String c a +:+ b = String c (a +:+ b).
Proof. reflexivity. Qed.

Lemma app_empty (b : string) : EmptyString +:+ b = b.
Proof. reflexivity. Qed.

Lemma lower_app (a b : string) : lower (a +:+ b) = lower a +:+ lower b.
Proof.
  induction a as [| c a IH]; [reflexivity |].
  cbn [lower]. rewrite !app_cons. cbn [lower]. now rewrite IH.
Qed.

Lemma startswith_app (p s : string) : startswith p (p +:+ s) = true.
Proof.
  induction p as [| c p IH]; [reflexivity |].
  rewrite app_cons. cbn [startswith]. now rewrite Ascii.eqb_refl, IH.
Qed.

Lemma contains_head (needle hay : string) :
  startswith needle hay = true -> contains needle hay = true.
Proof. intros H. destruct hay; cbn [contains]; now rewrite H. Qed.

(** A text contains whatever stands between a prefix and a suffix. *)
Lemma contains_app (needle before after : string) :
  contains needle (before +:+ needle +:+ after) = true.
Proof.
  induction before as [| c before IH].
  - rewrite app_empty. apply contains_head, startswith_app.
  - rewrite app_cons. cbn [contains]. rewrite IH. apply orb_true_r.
Qed.

End StrFacts.

(** ** The gazetteer of [infer_bbox] *)

Module BboxSpec.
Import Str Utils StrFacts.

Definition sub_saharan : bbox := ((-20)%float, (-35)%float, 52%float, 20%float).
Definition whole_globe : bbox := ((-180)%float, (-90)%float, 180%float, 90%float).

Definition sub_saharan_names : list string :=
  ["sub-saharan africa"; "subsaharan africa"; "sub saharan africa"; "ssa"].

Lemma infer_bbox_cases (text : string) :
  infer_bbox text
  = if existsb (fun key => contains key (lower text)) sub_saharan_names
    then Some sub_saharan
    else if contains "global" (lower text) then Some whole_globe else None.
Proof.
  unfold infer_bbox, REGION_TO_BBOX, sub_saharan_names.
  cbn [first_region existsb].
  destruct (contains "sub-saharan africa" (lower text)); [reflexivity |].
  destruct (contains "subsaharan africa" (lower text)); [reflexivity |].
  destruct (contains "sub saharan africa" (lower text)); [reflexivity |].
  destruct (contains "ssa" (lower text)); reflexivity.
Qed.

(** X4.  [infer_bbox] looks for its region names as substrings of the
    lower-cased text, the sub-Saharan names first: the text gets the
    sub-Saharan box when one of those four names occurs, else the
    global box when "global" occurs, else nothing.  So the answer does
    not depend on letter case, and a name is found wherever it stands,
    in any case and also inside a longer word. *)
Theorem infer_bbox_by_substring (text : string) :
  infer_bbox text
  = (if existsb (fun key => contains key (lower text)) sub_saharan_names
     then Some sub_saharan
     else if contains "global" (lower text) then Some whole_globe else None) /\
  infer_bbox (lower text) = infer_bbox text /\
  (forall before name after,
      In (lower name) sub_saharan_names ->
      infer_bbox (before +:+ name +:+ after) = Some sub_saharan) /\
  (forall before name after,
      lower name = "global" ->
      infer_bbox (before +:+ name +:+ after) <> None).
Proof.
  split; [apply infer_bbox_cases |].
  split; [unfold infer_bbox; now rewrite lower_idempotent |].
  split.
  - intros before name after Hin. rewrite infer_bbox_cases.
    replace (existsb _ sub_saharan_names) with true; [reflexivity |].
    symmetry. apply existsb_exists. exists (lower name). split; [exact Hin |].
    rewrite !lower_app. apply contains_app.
  - intros before name after Hg. rewrite infer_bbox_cases.
    destruct (existsb _ sub_saharan_names); [discriminate |].
    replace (contains "global" (lower (before +:+ name +:+ after))) with true;
      [discriminate |].
    symmetry. rewrite !lower_app, Hg. apply contains_app.
Qed.

(** "message" holds the letters of "ssa": it is read as sub-Saharan
    Africa. *)
Lemma infer_bbox_by_substring_witness :
  infer_bbox "MeSSAge" = Some sub_saharan /\ infer_bbox "Globalization" <> None.
Proof.
  destruct (infer_bbox_by_substring EmptyString) as (_ & _ & Hsub & Hglobal).
  split.
  - apply (Hsub "Me" "SSA" "ge"). cbn. tauto.
  - apply (Hglobal EmptyString "Global" "ization"). reflexivity.
Defined.

End BboxSpec.

(** ** The verdict of the validation agent *)

Module ValidationVerdict.
Import Str Utils Validation ValidationSpec.

(** The messages appended together with [feasible = False]. *)
Definition fatal_messages : list string :=
  ["Empty query"; "Out-of-scope content detected"; "Start year after end year";
   "Region not recognized"].

Definition has_fatal (reasons : list string) : bool :=
  existsb (fun m => mentions m reasons) fatal_messages.

(** [x in l] on lists of strings, and the test that no entry occurs twice. *)
Fixpoint distinct (l : list string) : bool :=
  match l with
  | [] => true
  | x :: l' => negb (mentions x l') && distinct l'
  end.

Lemma mentions_In (msg : string) (l : list string) :
  mentions msg l = true <-> In msg l.
Proof.
  unfold mentions. rewrite existsb_exists. split.
  - intros (x & Hin & Heq). apply String.eqb_eq in Heq. now subst.
  - intros Hin. exists msg. split; [exact Hin | apply String.eqb_refl].
Qed.

Lemma distinct_NoDup (l : list string) : distinct l = true -> List.NoDup l.
Proof.
  induction l as [| x l IH]; cbn [distinct]; intros H; constructor.
  - apply andb_true_iff in H as [H _]. apply negb_true_iff in H.
    intros Hin. apply mentions_In in Hin. congruence.
  - apply IH. now apply andb_true_iff in H as [_ H].
Qed.

Definition offered (alternatives : list string) : bool :=
  match alternatives with [] => false | _ :: _ => true end.

(** A verdict is rejected exactly when a fatal message is listed,
    alternatives come exactly with the region message, and no message is
    listed twice. *)
Definition coherent (r : validation) : bool :=
  Bool.eqb (feasible r) (negb (has_fatal (reasons r)))
  && Bool.eqb (offered (suggested_alternatives r))
       (mentions "Region not recognized" (reasons r))
  && (length (reasons r) <=? 6)%nat
  && distinct (reasons r).

Lemma run_coherent (query : string) (subqueries : list string) :
  coherent (run query subqueries) = true.
Proof.
  unfold run.
  destruct (negb (nonempty query) || negb (nonempty (strip query))),
    (String.length query <? 8)%nat,
    (existsb (fun b => contains b (lower query)) banned),
    (existsb (fun r => contains r (lower query)) (map fst REGIONS)
     || match infer_bbox query with Some _ => true | None => false end),
    (5 <? length subqueries)%nat.
  all: destruct (years_of query) as [| y ys]; [reflexivity |].
  all: destruct ((2 <=? length (y :: ys))%nat && (List.last (y :: ys) 0 <? hd 0 (y :: ys)));
         reflexivity.
Qed.

Lemma run_feasible_region (query : string) (subqueries : list string) :
  feasible (run query subqueries) = true ->
  negb (nonempty query) || negb (nonempty (strip query)) = false /\
  existsb (fun b => contains b (lower query)) banned = false /\
  bbox_inferable query = true.
Proof.
  unfold run.
  change (match infer_bbox query with Some _ => true | None => false end)
    with (bbox_inferable query).
  change (existsb (fun r => contains r (lower query)) (map fst REGIONS))
    with (region_recognized query).
  rewrite <- bbox_inferable_region, orb_diag.
  destruct (negb (nonempty query) || negb (nonempty (strip query))),
    (String.length query <? 8)%nat,
    (existsb (fun b => contains b (lower query)) banned),
    (bbox_inferable query),
    (5 <? length subqueries)%nat.
  all: destruct (years_of query) as [| y ys];
         [intros H; vm_compute in H; try discriminate; now repeat split |].
  all: destruct ((2 <=? length (y :: ys))%nat && (List.last (y :: ys) 0 <? hd 0 (y :: ys)));
         intros H; vm_compute in H; try discriminate; now repeat split.
Qed.

(** X5.  A query is rejected exactly when one of the four fatal
    messages is among the reasons, so a rejection always comes with its
    cause and warnings alone never reject; alternatives are offered
    exactly when the region message is listed, hence only with a
    rejection; no message is listed twice and there are at most six. *)
Theorem rejection_names_its_cause (query : string) (subqueries : list string) :
  let r := run query subqueries in
  (feasible r = false <-> exists msg, In msg fatal_messages /\ In msg (reasons r)) /\
  (suggested_alternatives r <> [] <-> In "Region not recognized" (reasons r)) /\
  (suggested_alternatives r <> [] -> feasible r = false) /\
  List.NoDup (reasons r) /\ (length (reasons r) <= 6)%nat.
Proof.
  cbv zeta. pose proof (run_coherent query subqueries) as H.
  unfold coherent in H. rewrite !andb_true_iff in H.
  destruct H as [[[Hf Ha] Hl] Hd].
  apply Bool.eqb_prop in Hf. apply Bool.eqb_prop in Ha.
  assert (Hfatal : feasible (run query subqueries) = false <->
                   exists msg, In msg fatal_messages
                               /\ In msg (reasons (run query subqueries))).
  { rewrite Hf, negb_false_iff. unfold has_fatal. rewrite existsb_exists.
    split; intros (m & Hm & Hin); exists m; (split; [exact Hm |]);
      now apply mentions_In. }
  assert (Halt : suggested_alternatives (run query subqueries) <> [] <->
                 In "Region not recognized" (reasons (run query subqueries))).
  { rewrite <- mentions_In, <- Ha.
    destruct (suggested_alternatives (run query subqueries)); cbn; split;
      congruence. }
  split; [exact Hfatal |]. split; [exact Halt |].
  split.
  - intros Hne. apply Hfatal. exists "Region not recognized". split.
    + cbn. tauto.
    + now apply Halt.
  - split; [now apply distinct_NoDup | now apply Nat.leb_le].
Qed.

(** The rejected query of the examples: alternatives are offered, so it
    is rejected. *)
Lemma rejection_names_its_cause_witness :
  feasible (run "social security" ["social security"]) = false.
Proof.
  destruct (rejection_names_its_cause "social security" ["social security"])
    as (_ & _ & H & _).
  apply H. discriminate.
Defined.

(** X6.  A query that passes validation is not blank, holds no banned
    phrase, and names a region of the gazetteer: [infer_bbox] finds a
    box for it, and the parameters the search agent builds from the
    query carry that box, whatever provider is configured. *)
Theorem accepted_query_has_bounding_box (cmr_provider : option string)
    (query : string) (subqueries : list string) :
  feasible (run query subqueries) = true ->
  strip query <> EmptyString /\
  (forall phrase, In phrase banned -> contains phrase (lower query) = false) /\
  exists box,
    infer_bbox query = Some box /\
    Agent.bounding_box (Agent.base_params cmr_provider query) = Some box /\
    (box = BboxSpec.sub_saharan \/ box = BboxSpec.whole_globe).
Proof.
  intros H. apply run_feasible_region in H as (Hblank & Hbanned & Hbox).
  split.
  - intros Hs. rewrite Hs in Hblank. destruct query; discriminate.
  - split.
    + intros phrase Hin.
      destruct (contains phrase (lower query)) eqn:Hc; [| reflexivity].
      assert (Hex : existsb (fun b => contains b (lower query)) banned = true)
        by (apply existsb_exists; eauto).
      congruence.
    + unfold bbox_inferable in Hbox.
      destruct (infer_bbox query) as [box |] eqn:Hi; [| discriminate].
      exists box. split; [reflexivity |]. split; [cbn; exact Hi |].
      rewrite BboxSpec.infer_bbox_cases in Hi.
      destruct (existsb _ BboxSpec.sub_saharan_names);
        [left; congruence |].
      destruct (contains "global" (lower query)); [right; congruence | discriminate].
Qed.

Lemma accepted_query_has_bounding_box_witness :
  exists box,
    Agent.bounding_box
      (Agent.base_params None "rainfall 2010-2012 over sub-saharan africa")
    = Some box.
Proof.
  destruct (accepted_query_has_bounding_box None
              "rainfall 2010-2012 over sub-saharan africa"
              ["rainfall 2010-2012 over sub-saharan africa"])
    as (_ & _ & box & _ & Hbox & _).
  - vm_compute. reflexivity.
  - exists box. exact Hbox.
Defined.

End ValidationVerdict.

(** ** More on the planner: the expanded terms *)

Module PlanningTerms.
Import Str Planning PlanningSpec.

Definition synonyms : list string := ["precipitation"; "imerg"; "trmm"].

Lemma run_expanded_terms (self : PlanningAgent) (user_query : string)
    (subqueries : list string) :
  expanded_terms (run self user_query subqueries)
  = _expand_terms self (seeds_of user_query subqueries).
Proof.
  unfold run.
  destruct (fold_left fallback_step fallback_synonyms _) as [vt present].
  reflexivity.
Qed.

(** [add_missing] appends synonyms and nothing else. *)
Lemma add_missing_from (syns : list string) :
  forall (st : list string * gset string) (x : string),
    In x (fst (add_missing syns st)) -> In x (fst st) \/ In x syns.
Proof.
  induction syns as [| s syns IH]; intros st x Hx.
  - rewrite add_missing_nil in Hx. now left.
  - rewrite add_missing_cons in Hx. apply IH in Hx as [Hx | Hx]; [| right; now right].
    destruct (decide (s ∈ snd st)); [now left |].
    cbn [fst] in Hx. apply in_app_iff in Hx as [Hx | [-> | []]];
      [now left | right; now left].
Qed.

Lemma rain_like_In (terms : list string) :
  (list_to_set terms ∩ rain_like : gset string) <> ∅ <->
  In "rain"%string terms \/ In "rainfall"%string terms.
Proof.
  unfold rain_like. split.
  - intros Hne. apply set_choose_L in Hne as [x Hx].
    apply elem_of_intersection in Hx as [Hl Hr].
    apply elem_of_list_to_set, list_elem_of_In in Hl.
    apply elem_of_union in Hr as [Hr | Hr]; apply elem_of_singleton in Hr; subst; tauto.
  - intros H Hempty.
    assert (Hin : exists x, x ∈ (list_to_set terms ∩ {[ "rain"%string; "rainfall"%string ]}
                                 : gset string)).
    { destruct H as [H | H]; apply list_elem_of_In in H;
        [exists "rain"%string | exists "rainfall"%string];
        (apply elem_of_intersection; split; [now apply elem_of_list_to_set | set_solver]). }
    destruct Hin as [x Hx]. rewrite Hempty in Hx. set_solver.
Qed.

(** [_baseline_synonyms]: the terms given, then the three synonyms that
    are missing, when "rain" or "rainfall" is among the terms. *)
Lemma baseline_In (terms : list string) (x : string) :
  In x (_baseline_synonyms terms) <->
  In x terms \/
  ((In "rain"%string terms \/ In "rainfall"%string terms) /\ In x synonyms).
Proof.
  unfold _baseline_synonyms.
  destruct (decide (list_to_set terms ∩ rain_like = ∅)) as [Hempty | Hne].
  - split; [tauto |]. intros [H | [Hrain _]]; [exact H |].
    apply rain_like_In in Hrain. contradiction.
  - apply rain_like_In in Hne.
    destruct (add_missing_spec synonyms _ (synced_list_to_set terms))
      as (_ & Hmono & Hall).
    split.
    + intros H. apply add_missing_from in H. cbn [fst] in H. tauto.
    + intros [H | [_ H]]; [now apply Hmono | now apply Hall].
Qed.

(** The terms the expansion starts from, and what it returns. *)
Definition lowered_seeds (seeds : list string) : list string :=
  map lower (filter (fun s => nonempty s = true) seeds).

Definition llm_terms (self : PlanningAgent) (seeds : list string) : list string :=
  match llm self, seeds with
  | None, _ | _, [] => lowered_seeds seeds
  | Some ainvoke, _ =>
      match ainvoke (SYSTEM_PROMPT +:+ String "010" "Terms: " +:+ join ", " seeds) with
      | Some data => add_llm_terms data (lowered_seeds seeds)
      | None => lowered_seeds seeds
      end
  end.

Lemma expand_terms_llm_terms (self : PlanningAgent) (seeds : list string) :
  _expand_terms self seeds = first_seen (_baseline_synonyms (llm_terms self seeds)).
Proof.
  rewrite <- fromkeys_first_seen. unfold _expand_terms, llm_terms, lowered_seeds.
  destruct (llm self) as [ainvoke |]; [| reflexivity].
  destruct seeds; reflexivity.
Qed.

Lemma llm_terms_keeps (self : PlanningAgent) (seeds : list string) (x : string) :
  In x (lowered_seeds seeds) -> In x (llm_terms self seeds).
Proof.
  intros Hx. unfold llm_terms. destruct (llm self) as [ainvoke |]; [| exact Hx].
  destruct seeds as [| s seeds]; [exact Hx |].
  destruct (ainvoke _); [now apply add_llm_terms_keeps | exact Hx].
Qed.

Lemma seeds_nonempty (user_query : string) (subqueries : list string) (s : string) :
  In s (seeds_of user_query subqueries) -> s <> EmptyString.
Proof.
  unfold seeds_of. rewrite in_app_iff, !in_map_iff.
  intros [(t & <- & Ht) | (t & <- & Ht)];
    apply list_elem_of_In, list_elem_of_filter in Ht as [Ht _].
  - apply andb_true_iff in Ht as [_ Ht]. apply Nat.ltb_lt in Ht.
    intros Hs. rewrite Hs in Ht. cbn in Ht. lia.
  - intros Hs. now rewrite Hs in Ht.
Qed.

(** X7.  The expanded terms of a plan, with or without a model and
    whatever the model answers: no term occurs twice; every seed (a
    stripped non-blank subquery, a word of the lower-cased query) is
    there, lower-cased; and when "rain" or "rainfall" is among them, so
    are "precipitation", "imerg" and "trmm". *)
Theorem expanded_terms_cover_seeds (self : PlanningAgent) (user_query : string)
    (subqueries : list string) :
  let p := run self user_query subqueries in
  List.NoDup (expanded_terms p) /\
  (forall s, In s subqueries -> strip s <> EmptyString ->
             In (lower (strip s)) (expanded_terms p)) /\
  (forall s, In s (seeds_of user_query subqueries) ->
             s <> EmptyString /\ In (lower s) (expanded_terms p)) /\
  (In "rain"%string (expanded_terms p) \/ In "rainfall"%string (expanded_terms p) ->
   forall syn, In syn synonyms -> In syn (expanded_terms p)).
Proof.
  cbv zeta. rewrite run_expanded_terms, expand_terms_llm_terms.
  set (seeds := seeds_of user_query subqueries).
  assert (Hseed : forall s, In s seeds ->
            s <> EmptyString /\
            In (lower s) (first_seen (_baseline_synonyms (llm_terms self seeds)))).
  { intros s Hs. pose proof (seeds_nonempty _ _ _ Hs) as Hne. split; [exact Hne |].
    apply first_seen_In, baseline_keeps, llm_terms_keeps.
    unfold lowered_seeds. apply in_map.
    apply list_elem_of_In, list_elem_of_filter. split; [| now apply list_elem_of_In].
    destruct s; [congruence | reflexivity]. }
  split; [apply dedup_from_NoDup |].
  split; [| split; [exact Hseed |]].
  - intros s Hs Hne. apply Hseed. unfold seeds, seeds_of.
    apply in_app_iff. left. apply in_map.
    apply list_elem_of_In, list_elem_of_filter. split; [| now apply list_elem_of_In].
    destruct s as [| c s]; [now elim Hne |]. cbn [nonempty andb].
    apply Nat.ltb_lt. destruct (strip (String c s)); [now elim Hne | cbn; lia].
  - intros Hrain syn Hsyn. rewrite !first_seen_In in Hrain. apply first_seen_In.
    rewrite !baseline_In in Hrain. apply baseline_In.
    assert (Hterms : In "rain"%string (llm_terms self seeds)
                     \/ In "rainfall"%string (llm_terms self seeds)).
    { destruct Hrain as [[H | [_ H]] | [H | [_ H]]]; try tauto;
        cbn in H; decompose [or] H; try discriminate; contradiction. }
    right. split; assumption.
Qed.

Lemma expanded_terms_cover_seeds_witness :
  In "imerg"%string (expanded_terms (run {| llm := None |} "Rain in Africa" [])).
Proof.
  destruct (expanded_terms_cover_seeds {| llm := None |} "Rain in Africa" [])
    as (_ & _ & Hseed & Hrain).
  apply Hrain; [| cbn; tauto].
  left. apply (Hseed "rain"). vm_compute. tauto.
Defined.

(** A model whose call fails is no model. *)
Lemma expand_terms_failing_model (ainvoke : string -> llm_answer) (seeds : list string) :
  (forall prompt, ainvoke prompt = None) ->
  _expand_terms {| llm := Some ainvoke |} seeds = _expand_terms {| llm := None |} seeds.
Proof.
  intros Hfail. unfold _expand_terms. cbn [llm].
  destruct seeds as [| s seeds]; [reflexivity |].
  now rewrite Hfail.
Qed.

(** X8.  A model can only add search terms: every expanded term and
    every variable term of the plan made without a model is in the plan
    made with one, whatever the model answers; and a model whose call
    fails, or whose answer is not a JSON list, gives the plan made
    without a model. *)
Theorem model_only_adds_terms (ainvoke : string -> llm_answer) (user_query : string)
    (subqueries : list string) :
  let without := run {| llm := None |} user_query subqueries in
  let with_model := run {| llm := Some ainvoke |} user_query subqueries in
  (forall t, In t (expanded_terms without) -> In t (expanded_terms with_model)) /\
  (forall t, In t (variable_terms without) -> In t (variable_terms with_model)) /\
  ((forall prompt, ainvoke prompt = None) -> with_model = without).
Proof.
  cbv zeta.
  assert (Hexp : forall t,
             In t (expanded_terms (run {| llm := None |} user_query subqueries)) ->
             In t (expanded_terms (run {| llm := Some ainvoke |} user_query subqueries))).
  { intros t. rewrite !run_expanded_terms, !expand_terms_llm_terms, !first_seen_In,
      !baseline_In.
    set (seeds := seeds_of user_query subqueries).
    assert (Hkeep : forall x, In x (llm_terms {| llm := None |} seeds) ->
                              In x (llm_terms {| llm := Some ainvoke |} seeds)).
    { intros x Hx. apply llm_terms_keeps. exact Hx. }
    intros [H | [[H | H] Hsyn]]; [left; now apply Hkeep | right | right];
      (split; [| exact Hsyn]); [left | right]; now apply Hkeep. }
  split; [exact Hexp |]. split.
  - intros t. rewrite !run_variable_terms.
    set (e0 := expanded_terms (run {| llm := None |} user_query subqueries)) in *.
    set (e1 := expanded_terms (run {| llm := Some ainvoke |} user_query subqueries)) in *.
    set (vt0 := first_seen (filter (fun t => keepable t = true) (map norm e0))).
    set (vt1 := first_seen (filter (fun t => keepable t = true) (map norm e1))).
    assert (Hvt : forall x, In x vt0 -> In x vt1).
    { intros x. unfold vt0, vt1. rewrite !first_seen_In.
      intros Hx. apply list_elem_of_In, list_elem_of_filter in Hx as [Hk Hx].
      apply list_elem_of_In, in_map_iff in Hx as (u & <- & Hu).
      apply list_elem_of_In, list_elem_of_filter. split; [exact Hk |].
      apply list_elem_of_In, in_map, Hexp, Hu. }
    rewrite (in_app_iff vt0), (in_app_iff vt1). intros [H | H]; [left; exact (Hvt _ H) |].
    unfold fallback_extra in H.
    destruct ((mem "rainfall" vt0 || mem "imerg" vt0 || mem "trmm" vt0)
              && negb (mem "precipitation" vt0)) eqn:Hc; [| destruct H].
    destruct H as [<- | []].
    apply andb_true_iff in Hc as [Hbase _].
    assert (Hbase1 : mem "rainfall" vt1 || mem "imerg" vt1 || mem "trmm" vt1 = true).
    { assert (Hmem : forall x, mem x vt0 = true -> mem x vt1 = true).
      { intros x Hx. apply mem_In, Hvt, mem_In. exact Hx. }
      apply orb_true_iff in Hbase as [Hbase | Hbase];
        [apply orb_true_iff in Hbase as [Hbase | Hbase] |];
        apply Hmem in Hbase; rewrite Hbase; rewrite ?orb_true_r; reflexivity. }
    unfold fallback_extra. rewrite Hbase1. cbn [andb].
    destruct (mem "precipitation" vt1) eqn:Hp.
    + left. apply mem_In. exact Hp.
    + right. left. reflexivity.
  - intros Hfail. unfold run.
    now rewrite (expand_terms_failing_model ainvoke _ Hfail).
Qed.

(** A model that answers with one more term. *)
Definition one_more_term : string -> llm_answer :=
  fun _ => Some [Some " GPM "%string; None; Some "rainfall"%string].

Lemma model_only_adds_terms_witness :
  In "precipitation"%string
    (variable_terms (run {| llm := Some one_more_term |} "rainfall over africa" [])) /\
  run {| llm := Some (fun _ => None) |} "rainfall over africa" []
  = run {| llm := None |} "rainfall over africa" [].
Proof.
  destruct (model_only_adds_terms one_more_term "rainfall over africa" [])
    as (_ & Hvt & _).
  destruct (model_only_adds_terms (fun _ => None) "rainfall over africa" [])
    as (_ & _ & Hnone).
  split.
  - apply Hvt. vm_compute. tauto.
  - apply Hnone. reflexivity.
Defined.

End PlanningTerms.
